(** * ChildPsych: quiz engine and progress tracker

    A shallow embedding of [js/quiz.js] (class [QuizEngine]) and of
    [progress.js] (class [ProgressManager]) together with the properties
    the course specification states about them.

    Conventions of the embedding:
    - a JavaScript object used as a dictionary is a [gmap string _]; only own
      properties are modelled (no prototype chain), and where the code
      reads a dictionary at a module id the statements leave out the ids
      that name a member of [Object.prototype] (module [Prototype]), at
      which the code reads the inherited member;
    - a JavaScript array is a [list];
    - the numbers the code stores (scores, counters, percentages) are
      integers, [Z]; [Math.round] is [Math_round] below.  The score
      percentage of [showResults] is computed as the code computes it, in
      binary64 (the kernel's primitive floats, module [Binary64]); the
      module progress is computed in the exact rationals [Q], and the
      module [Doubles] redoes it in binary64 to show that the two agree;
    - the engine is attached to its container (as [autoInit] leaves it), so
      that the DOM queries of the methods do not throw;
    - each [new Date().toISOString()] is an explicit argument (the clock
      reading at that call);
    - DOM updates, animations, the [progressUpdated] event and the
      [localStorage.setItem] call are effects on external collaborators and
      are not part of the state; the module [Controls] adds to the state
      what of the page decides which handler can run, and the pending
      timers. *)

From Stdlib Require Import ZArith QArith Qround Qminmax Qcanon Lia Lqa.
From Stdlib Require Import Uint63 PrimFloat FloatOps SpecFloat Sorted.
From stdpp Require Import base decidable option list strings gmap fin_maps.

Local Open Scope Z_scope.
Local Open Scope string_scope.

(** ** JavaScript numerics *)

(** [Math.round(x)]: the integer nearest to [x], a tie going up. *)
Definition Math_round (x : Q) : Z := Qfloor (x + (1 # 2))%Q.

(** [Math.min(a, b)] on exact rationals. *)
Definition Math_min (a b : Q) : Q := if Qle_bool a b then a else b.

(** ** JavaScript numbers

    A JavaScript number is an IEEE 754 double, which is what the kernel's
    primitive floats are; [/] and [*] are the correctly rounded operations
    [PrimFloat.div] and [PrimFloat.mul]. *)

Module Binary64.

(** The double of an integer (exact for the sizes below 2^53). *)
Definition ofZ (z : Z) : float :=
  if Z.ltb z 0
  then PrimFloat.opp (PrimFloat.of_uint63 (Uint63.of_Z (- z)))
  else PrimFloat.of_uint63 (Uint63.of_Z z).

(** The rational a finite double is; [None] for [NaN] and the
    infinities. *)
Definition toQ (x : float) : option Q :=
  match Prim2SF x with
  | S754_zero _ => Some 0%Q
  | S754_finite negative m e =>
      let v := (inject_Z (Z.pos m) * Qpower 2 e)%Q in
      Some (if negative then (- v)%Q else v)
  | _ => None
  end.

(** [Math.round(x)]: the integer nearest to the double [x], a tie going
    up; [NaN] and the infinities are returned as they are ([None]). *)
Definition Math_round (x : float) : option Z :=
  match toQ x with
  | Some q => Some (Math_round q)
  | None => None
  end.

(** [Math.round((score / length) * 100)] *)
Definition percent (score length : Z) : option Z :=
  Math_round (PrimFloat.mul (PrimFloat.div (ofZ score) (ofZ length)) 100%float).

End Binary64.

(** ** JavaScript values read back from storage

    What [JSON.parse] returns, and what the property reads and writes of
    [load] do on it.  An array is an object too: besides its elements it
    can carry named properties, which [JSON.parse] leaves empty. *)

Module JS.

#[local] Unset Elimination Schemes.
Inductive value : Type :=
| VUndefined
| VNull
| VBool (b : bool)
| VNum (q : Qc)
| VStr (s : string)
| VArr (elems : list value) (props : gmap string value)
| VObj (props : gmap string value).
#[local] Set Elimination Schemes.

(** A call either returns or throws (the [TypeError]s of strict mode). *)
Inductive completion (A : Type) : Type :=
| Return (a : A)
| Throw.
Arguments Return {A} a.
Arguments Throw {A}.

(** [!v] is true: the falsy values ([NaN] cannot come out of JSON). *)
Definition falsy (v : value) : bool :=
  match v with
  | VUndefined | VNull => true
  | VBool b => negb b
  | VNum q => bool_decide (q = 0%Qc)
  | VStr s => bool_decide (s = "")
  | VArr _ _ | VObj _ => false
  end.

(** [v[k]] for a key [k] that is neither an array index nor ["length"]
    (all the keys [load] uses are such names): a read on [null] or
    [undefined] throws, a read on another primitive finds nothing. *)
Definition get (v : value) (k : string) : completion value :=
  match v with
  | VUndefined | VNull => Throw
  | VBool _ | VNum _ | VStr _ => Return VUndefined
  | VArr _ props | VObj props =>
      Return (match props !! k with Some x => x | None => VUndefined end)
  end.

(** [v[k] = x] in strict mode, for such a key: creating a property on a
    primitive throws. *)
Definition set (v : value) (k : string) (x : value) : completion value :=
  match v with
  | VArr elems props => Return (VArr elems (<[k := x]> props))
  | VObj props => Return (VObj (<[k := x]> props))
  | _ => Throw
  end.

(** [Array.isArray(v)] *)
Definition isArray (v : value) : bool :=
  match v with
  | VArr _ _ => true
  | _ => false
  end.

Definition bind {A B : Type} (c : completion A) (k : A -> completion B) : completion B :=
  match c with
  | Return a => k a
  | Throw => Throw
  end.

End JS.

Notation "'let!' x ':=' c 'in' k" := (JS.bind c (fun x => k))
  (at level 10, x name, c at level 100, k at level 200).

(** ** The names every object answers to

    [this.data.modules] and [MODULE_TOTAL_SECTIONS] are object literals.
    Read at a name they do not hold themselves, they answer with the
    member of [Object.prototype] of that name when there is one: a
    function, or the prototype itself for [__proto__], all of them truthy. *)

Module Prototype.

(** The members of [Object.prototype], in a page that has added none. *)
Definition members : list string :=
  [ "constructor"; "hasOwnProperty"; "isPrototypeOf"; "propertyIsEnumerable";
    "toLocaleString"; "toString"; "valueOf"; "__proto__";
    "__defineGetter__"; "__defineSetter__"; "__lookupGetter__"; "__lookupSetter__" ].

Definition inherited (name : string) : bool := bool_decide (name ∈ members).

(** What [object[name]] finds. *)
Inductive Reading (A : Type) : Type :=
| Own (a : A)
| Member
| Undefined.
Arguments Own {A} a.
Arguments Member {A}.
Arguments Undefined {A}.

(** [object[name]] for an object literal whose own properties are [own]. *)
Definition read {A : Type} (own : gmap string A) (name : string) : Reading A :=
  match own !! name with
  | Some a => Own a
  | None => if inherited name then Member else Undefined
  end.

End Prototype.

(** ** Progress tracker (progress.js)

    The methods below read [this.data.modules[moduleId]] and
    [MODULE_TOTAL_SECTIONS[moduleId]] in the own entries: they are the
    code for every module id that is not the name of a member of
    [Object.prototype] ([Prototype.inherited]).  At such a name the code
    reaches the inherited member instead (it throws, or writes on it);
    the statements that depend on the difference carry the premise. *)

Module Progress.

Definition STORAGE_KEY : string := "childPsych_progress".
Definition CURRENT_VERSION : string := "1.0".

(** [MODULE_TOTAL_SECTIONS]: the object literal, as an own-property lookup. *)
Definition MODULE_TOTAL_SECTIONS : gmap string Z :=
  list_to_map
    [ ("module1", 10); ("module2", 10); ("module3", 11); ("module4", 11);
      ("module5", 12); ("module6", 11); ("module7", 11); ("module8", 13);
      ("module9", 11); ("module10", 11) ].

(** [MODULE_TOTAL_SECTIONS[moduleId] || 5]: a missing entry ([undefined])
    and a zero entry are falsy. *)
Definition totalSectionsFor (moduleId : string) : Z :=
  match MODULE_TOTAL_SECTIONS !! moduleId with
  | Some n => if Z.eqb n 0 then 5 else n
  | None => 5
  end.

Inductive Status : Type :=
| NotStarted   (* 'not-started' *)
| InProgress   (* 'in-progress' *)
| Completed.   (* 'completed' *)

#[export] Instance Status_eq_dec : EqDecision Status.
Proof. solve_decision. Defined.

(** One entry of [data.modules]. *)
Record ModuleData : Type := mkModuleData {
  status : Status;
  sectionsCompleted : list string;
  quizScore : option Z;          (* null | latest score *)
  quizAttempts : Z
}.

(** [this.data]. *)
Record ProgressData : Type := mkProgressData {
  version : string;
  startedAt : string;
  lastUpdated : string;
  modules : gmap string ModuleData;
  overallProgress : Z
}.

Definition set_modules (d : ProgressData) (ms : gmap string ModuleData) : ProgressData :=
  mkProgressData (version d) (startedAt d) (lastUpdated d) ms (overallProgress d).

(** The object literal both [createDefault] and [resetModule] write. *)
Definition defaultModule : ModuleData :=
  mkModuleData NotStarted [] None 0.

(** The ten keys ['module' + i], [i = 1 .. 10]. *)
Definition moduleKeys : list string :=
  [ "module1"; "module2"; "module3"; "module4"; "module5";
    "module6"; "module7"; "module8"; "module9"; "module10" ].

(** [createDefault()]: the loop assigns [modules[moduleKey]] for each key;
    [t_started] and [t_updated] are the two clock readings. *)
Definition createDefault (t_started t_updated : string) : ProgressData :=
  let modules := foldl (fun ms k => <[k := defaultModule]> ms) ∅ moduleKeys in
  mkProgressData CURRENT_VERSION t_started t_updated modules 0.

(** [getModuleProgress(moduleId)] *)
Definition sectionProgress (moduleId : string) (m : ModuleData) : Q :=
  Math_min (inject_Z (Z.of_nat (length (sectionsCompleted m)))
            / inject_Z (totalSectionsFor moduleId)) 1.

Definition quizProgress (m : ModuleData) : Q :=
  match quizScore m with
  | Some s => if Z.leb 70 s then 1 else inject_Z s / 100
  | None => 0
  end.

Definition getModuleProgress (d : ProgressData) (moduleId : string) : Z :=
  match modules d !! moduleId with
  | None => 0
  | Some m =>
      let totalProgress :=
        (sectionProgress moduleId m * 70 + quizProgress m * 30)%Q in
      Math_round totalProgress
  end.

(** [getOverallProgress()]: the [for ... in] loop over the own keys of
    [data.modules] sums the module percentages and counts the keys. *)
Definition getOverallProgress (d : ProgressData) : Z :=
  let '(total, moduleCount) :=
    foldr (fun kv acc => (fst acc + getModuleProgress d (fst kv), snd acc + 1))
          (0, 0) (map_to_list (modules d)) in
  if Z.eqb moduleCount 0 then 0
  else Math_round (inject_Z total / inject_Z moduleCount).

(** [getModuleStatus(moduleId)] *)
Definition getModuleStatus (d : ProgressData) (moduleId : string) : Status :=
  match modules d !! moduleId with
  | None => NotStarted
  | Some m => status m
  end.

(** [save()]: stamps [lastUpdated], recomputes [overallProgress]; the
    write to [localStorage] that follows has no effect on [this.data]
    (a failure of it is caught and logged). *)
Definition save (now : string) (d : ProgressData) : ProgressData :=
  let d1 := mkProgressData (version d) (startedAt d) now (modules d) (overallProgress d) in
  mkProgressData (version d1) (startedAt d1) (lastUpdated d1) (modules d1)
                 (getOverallProgress d1).

(** [_checkModuleCompletion(moduleId)] *)
Definition _checkModuleCompletion (moduleId : string) (d : ProgressData) : ProgressData :=
  match modules d !! moduleId with
  | None => d
  | Some m =>
      let totalSections := totalSectionsFor moduleId in
      let allSectionsDone := Z.leb totalSections (Z.of_nat (length (sectionsCompleted m))) in
      let quizPassed :=
        match quizScore m with
        | None => false
        | Some s => Z.leb 70 s
        end in
      if allSectionsDone && quizPassed
      then set_modules d
             (<[moduleId := mkModuleData Completed (sectionsCompleted m)
                                         (quizScore m) (quizAttempts m)]> (modules d))
      else d
  end.

(** [markSectionComplete(moduleId, sectionId)] *)
Definition markSectionComplete (now : string) (moduleId sectionId : string)
    (d : ProgressData) : ProgressData :=
  match modules d !! moduleId with
  | None => d                                   (* unknown module: warn, return *)
  | Some m =>
      (* indexOf(sectionId) === -1  ->  push *)
      let secs :=
        if bool_decide (sectionId ∈ sectionsCompleted m)
        then sectionsCompleted m
        else (sectionsCompleted m ++ [sectionId])%list in
      let st :=
        match status m with
        | NotStarted => InProgress
        | s => s
        end in
      let d1 := set_modules d
                  (<[moduleId := mkModuleData st secs (quizScore m) (quizAttempts m)]>
                     (modules d)) in
      save now (_checkModuleCompletion moduleId d1)
  end.

(** [saveQuizScore(moduleId, score)] *)
Definition saveQuizScore (now : string) (moduleId : string) (score : Z)
    (d : ProgressData) : ProgressData :=
  match modules d !! moduleId with
  | None => d
  | Some m =>
      let st :=
        if Z.leb 70 score then Completed
        else match status m with
             | NotStarted => InProgress
             | s => s
             end in
      let d1 := set_modules d
                  (<[moduleId := mkModuleData st (sectionsCompleted m) (Some score)
                                              (quizAttempts m + 1)]>
                     (modules d)) in
      save now d1
  end.

(** [resetModule(moduleId)] *)
Definition resetModule (now : string) (moduleId : string) (d : ProgressData) : ProgressData :=
  match modules d !! moduleId with
  | None => d
  | Some _ => save now (set_modules d (<[moduleId := defaultModule]> (modules d)))
  end.

(** [resetAll()] *)
Definition resetAll (t_started t_updated now : string) (d : ProgressData) : ProgressData :=
  save now (createDefault t_started t_updated).

(** *** Reading the stored record *)

Definition statusName (s : Status) : string :=
  match s with
  | NotStarted => "not-started"
  | InProgress => "in-progress"
  | Completed => "completed"
  end.

Definition numZ (z : Z) : JS.value := JS.VNum (Q2Qc (inject_Z z)).

(** The JavaScript object a module entry is. *)
Definition moduleValue (m : ModuleData) : JS.value :=
  JS.VObj (list_to_map
    [ ("status", JS.VStr (statusName (status m)));
      ("sectionsCompleted", JS.VArr (JS.VStr <$> sectionsCompleted m) ∅);
      ("quizScore", match quizScore m with
                    | None => JS.VNull
                    | Some s => numZ s
                    end);
      ("quizAttempts", numZ (quizAttempts m)) ]).

(** The JavaScript object [this.data] is. *)
Definition dataValue (d : ProgressData) : JS.value :=
  JS.VObj (list_to_map
    [ ("version", JS.VStr (version d));
      ("startedAt", JS.VStr (startedAt d));
      ("lastUpdated", JS.VStr (lastUpdated d));
      ("modules", JS.VObj (moduleValue <$> modules d));
      ("overallProgress", numZ (overallProgress d)) ]).

(** [parsed.version !== CURRENT_VERSION] *)
Definition versionDiffers (v : JS.value) : bool :=
  match v with
  | JS.VStr s => negb (bool_decide (s = CURRENT_VERSION))
  | _ => true
  end.

(** One turn of the validation loop of [load], on [parsed.modules]. *)
Definition repairModule (mods : JS.value) (key : string) : JS.completion JS.value :=
  let! entry := JS.get mods key in
  let! mods1 :=
    (if JS.falsy entry then JS.set mods key (moduleValue defaultModule)
     else JS.Return mods) in
  let! entry1 := JS.get mods1 key in
  let! secs := JS.get entry1 "sectionsCompleted" in
  if JS.isArray secs then JS.Return mods1
  else
    let! entry2 := JS.set entry1 "sectionsCompleted" (JS.VArr [] ∅) in
    (* [entry1] is the object held in [mods1[key]]: the write is seen there *)
    JS.set mods1 key entry2.

Fixpoint repairModules (mods : JS.value) (keys : list string) : JS.completion JS.value :=
  match keys with
  | [] => JS.Return mods
  | key :: rest =>
      let! mods1 := repairModule mods key in
      repairModules mods1 rest
  end.

Section Load.

(** [JSON.parse]; it throws on text that is not JSON. *)
Variable JSON_parse : string -> JS.completion JS.value.

(** The body of the [try] block of [load]; [raw] is what
    [localStorage.getItem(STORAGE_KEY)] did ([None] for [null]). *)
Definition load_try (t_started t_updated : string)
    (raw : JS.completion (option string)) : JS.completion JS.value :=
  let! raw := raw in
  match raw with
  | None => JS.Return (dataValue (createDefault t_started t_updated))
  | Some text =>
      if bool_decide (text = "")
      then JS.Return (dataValue (createDefault t_started t_updated))
      else
        let! parsed := JSON_parse text in
        let! ver := JS.get parsed "version" in
        if JS.falsy ver || versionDiffers ver
        then JS.Return (dataValue (createDefault t_started t_updated))
        else
          let! mods := JS.get parsed "modules" in
          if JS.falsy mods
          then JS.Return (dataValue (createDefault t_started t_updated))
          else
            let! mods' := repairModules mods moduleKeys in
            (* [mods] is the object held in [parsed.modules] *)
            JS.set parsed "modules" mods'
  end.

(** [load()]: whatever the [try] block throws is caught. *)
Definition load (t_started t_updated : string)
    (raw : JS.completion (option string)) : JS.value :=
  match load_try t_started t_updated raw with
  | JS.Return v => v
  | JS.Throw => dataValue (createDefault t_started t_updated)
  end.

End Load.

End Progress.

(** ** Quiz engine (js/quiz.js) *)

Module Quiz.

(** A question of [quizzes.json]; [type] selects the variant (any type
    other than ['drag-match'] and ['true-false'] is handled as multiple
    choice).  Options, sources and targets are [(id, text)] pairs. *)
Inductive Question : Type :=
| MultipleChoice (question : string) (options : list (string * string))
                 (correctAnswer : string) (explanation : string)
| TrueFalse (question : string) (correctAnswer : bool) (explanation : string)
| DragMatch (question : string) (sources targets : list (string * string))
            (correctPairs : gmap string string) (explanation : string).

(** The [selected] field of a recorded answer: [this.selectedOptionId]
    (possibly [null]) or the matched pairs. *)
Inductive Selected : Type :=
| SelOption (optionId : option string)
| SelPairs (pairs : gmap string string).

Record Answer : Type := mkAnswer {
  selected : Selected;
  correct : bool
}.

(** A slot of [this.answers]: [null] after [fill(null)], a hole when an
    index assignment went past the end, or the recorded answer. *)
Inductive Slot : Type :=
| Hole
| Null
| Recorded (a : Answer).

Record QuizEngine : Type := mkQuizEngine {
  moduleId : string;
  questions : list Question;
  moduleTitle : string;
  passingScore : Z;
  currentQuestionIndex : nat;
  answers : list Slot;
  score : Z;
  isComplete : bool;
  selectedOptionId : option string;
  hasChecked : bool;
  dragSelectedSource : option string;
  matchedPairs : gmap string string
}.

(** A module entry of [quizzes.json]. *)
Record ModuleEntry : Type := mkModuleEntry {
  entryModuleId : string;
  entryTitle : string;
  entryPassingScore : option Z;
  entryQuestions : list Question
}.

(** The constructor [QuizEngine(moduleId)], before the data arrives. *)
Definition new (moduleId : string) : QuizEngine :=
  mkQuizEngine moduleId [] "" 70 0 [] 0 false None false None ∅.

(** The [then] handler of [_loadQuizData] once the module entry is found:
    [passingScore || 70], [answers = new Array(n).fill(null)]. *)
Definition loaded (e : QuizEngine) (data : ModuleEntry) : QuizEngine :=
  let passing :=
    match entryPassingScore data with
    | Some p => if Z.eqb p 0 then 70 else p
    | None => 70
    end in
  mkQuizEngine (moduleId e) (entryQuestions data) (entryTitle data) passing
    (currentQuestionIndex e)
    (replicate (length (entryQuestions data)) Null)
    (score e) (isComplete e) (selectedOptionId e) (hasChecked e)
    (dragSelectedSource e) (matchedPairs e).

(** [arr[i] = x]: in range the slot is overwritten, past the end the
    array grows and the slots skipped are holes. *)
Definition array_set (arr : list Slot) (i : nat) (x : Slot) : list Slot :=
  if Nat.ltb i (length arr) then <[i := x]> arr
  else (arr ++ replicate (i - length arr) Hole ++ [x])%list.

(** A method either completes or is left by an exception; both carry the
    state as the assignments made so far left it. *)
Inductive outcome (S : Type) : Type :=
| Done (s : S)
| Raised (s : S).
Arguments Done {S} s.
Arguments Raised {S} s.

Definition state_of {S : Type} (o : outcome S) : S :=
  match o with
  | Done s | Raised s => s
  end.

(** [selectOption(optionId)] *)
Definition selectOption (optionId : string) (e : QuizEngine) : QuizEngine :=
  if hasChecked e then e
  else mkQuizEngine (moduleId e) (questions e) (moduleTitle e) (passingScore e)
         (currentQuestionIndex e) (answers e) (score e) (isComplete e)
         (Some optionId) (hasChecked e) (dragSelectedSource e) (matchedPairs e).

(** The loop of [_checkDragMatch] over the entries of [correctPairs]:
    the first source whose match is not its correct target clears
    [allCorrect] and leaves the loop. *)
Fixpoint allPairsCorrect (matched : gmap string string)
    (entries : list (string * string)) : bool :=
  match entries with
  | [] => true
  | (sourceId, target) :: rest =>
      if bool_decide (matched !! sourceId = Some target)
      then allPairsCorrect matched rest
      else false
  end.

(** [_checkDragMatch(question)]: its result (the border colours it sets
    are DOM effects). *)
Definition _checkDragMatch (matched correctPairs : gmap string string) : bool :=
  allPairsCorrect matched (map_to_list correctPairs).

(** The correctness rule of [checkAnswer] for each question type. *)
Definition isCorrectFor (q : Question) (e : QuizEngine) : bool :=
  match q with
  | DragMatch _ _ _ correctPairs _ => _checkDragMatch (matchedPairs e) correctPairs
  | TrueFalse _ correctAnswer _ =>
      let selectedBool := bool_decide (selectedOptionId e = Some "true") in
      Bool.eqb selectedBool correctAnswer
  | MultipleChoice _ _ correctAnswer _ =>
      bool_decide (selectedOptionId e = Some correctAnswer)
  end.

Definition isDragMatch (q : Question) : bool :=
  match q with
  | DragMatch _ _ _ _ _ => true
  | _ => false
  end.

(** [checkAnswer()]: [question.type] throws when there is no current
    question. *)
Definition checkAnswer (e : QuizEngine) : outcome QuizEngine :=
  if hasChecked e then Done e
  else
    match questions e !! currentQuestionIndex e with
    | None => Raised e
    | Some question =>
        let isCorrect := isCorrectFor question e in
        let answer :=
          mkAnswer (if isDragMatch question then SelPairs (matchedPairs e)
                    else SelOption (selectedOptionId e))
                   isCorrect in
        Done (mkQuizEngine (moduleId e) (questions e) (moduleTitle e) (passingScore e)
                (currentQuestionIndex e)
                (array_set (answers e) (currentQuestionIndex e) (Recorded answer))
                (if isCorrect then score e + 1 else score e)
                (isComplete e) (selectedOptionId e) true
                (dragSelectedSource e) (matchedPairs e))
    end.

(** The assignment [self.matchedPairs[sourceId] = targetId] of the two
    drag-match handlers (the drop of [_initGSAPDrag] and, once its guards
    have passed, the target click of [_initClickMatch]).  After
    [checkAnswer] on a drag-match question the recorded answer holds the
    very object [this.matchedPairs], until [nextQuestion] or [retry]
    replaces it: the write is then seen in the recorded answer as well. *)
Definition matchPair (sourceId targetId : string) (e : QuizEngine) : QuizEngine :=
  let pairs := <[sourceId := targetId]> (matchedPairs e) in
  let shared :=
    hasChecked e &&
    match questions e !! currentQuestionIndex e with
    | Some q => isDragMatch q
    | None => false
    end in
  let answers' :=
    if shared then
      match answers e !! currentQuestionIndex e with
      | Some (Recorded a) =>
          <[currentQuestionIndex e := Recorded (mkAnswer (SelPairs pairs) (correct a))]>
            (answers e)
      | _ => answers e
      end
    else answers e in
  mkQuizEngine (moduleId e) (questions e) (moduleTitle e) (passingScore e)
    (currentQuestionIndex e) answers' (score e) (isComplete e)
    (selectedOptionId e) (hasChecked e) (dragSelectedSource e) pairs.

(** A source of the question dropped on one of its targets.  The
    handlers are bound by [_initDragMatch] to the [.drag-item] and
    [.drop-zone] elements [renderDragMatch] made, one per source and per
    target of the current question, and these elements are gone once the
    results are shown.  The drop handler has no other guard; the click
    handlers do the same assignment under more guards (not checked yet, a
    source selected, neither element matched already).  This is a drop
    made with the elements of the question the engine is at.  Between
    [nextQuestion] and the end of its transition the page still holds the
    elements of the question before, whose handlers assign just the same:
    those drops are [Screen.onDragEnd], without the two tests made here,
    in the page of [Controls]. *)
Definition dropOn (sourceId targetId : string) (e : QuizEngine) : QuizEngine :=
  if isComplete e then e
  else
    match questions e !! currentQuestionIndex e with
    | Some (DragMatch _ sources targets _ _) =>
        if bool_decide (sourceId ∈ sources.*1) && bool_decide (targetId ∈ targets.*1)
        then matchPair sourceId targetId e
        else e
    | _ => e
    end.

(** The page: the engine and [window.progressManager] ([None] when
    progress.js is not loaded). *)
Record Page : Type := mkPage {
  engine : QuizEngine;
  progressManager : option Progress.ProgressData
}.

(** What [showResults] computes before it renders:
    [Math.round((this.score / this.questions.length) * 100)], in binary64.
    With no question at all it is [NaN], a case the statements below
    exclude (0 here). *)
Definition scorePercent (e : QuizEngine) : Z :=
  match Binary64.percent (score e) (Z.of_nat (length (questions e))) with
  | Some percent => percent
  | None => 0
  end.

Definition isPassing (e : QuizEngine) : bool :=
  Z.leb (passingScore e) (scorePercent e).

(** [showResults()]: the score goes to the progress manager when there is
    one; the rest is rendering. *)
Definition showResults (now : string) (p : Page) : Page :=
  mkPage (engine p)
    (match progressManager p with
     | Some d => Some (Progress.saveQuizScore now (moduleId (engine p)) (scorePercent (engine p)) d)
     | None => None
     end).

(** [_initDragMatch()]: the match state is reset. *)
Definition _initDragMatch (e : QuizEngine) : QuizEngine :=
  mkQuizEngine (moduleId e) (questions e) (moduleTitle e) (passingScore e)
    (currentQuestionIndex e) (answers e) (score e) (isComplete e)
    (selectedOptionId e) (hasChecked e) None ∅.

(** [render(container)], its effect on the state: the skeleton while no
    question is loaded, the results when complete, else the current
    question ([question.question] throws when there is none). *)
Definition render (now : string) (p : Page) : outcome Page :=
  let e := engine p in
  if Nat.eqb (length (questions e)) 0 then Done p
  else if isComplete e then Done (showResults now p)
  else
    match questions e !! currentQuestionIndex e with
    | None => Raised p
    | Some question =>
        if isDragMatch question
        then Done (mkPage (_initDragMatch e) (progressManager p))
        else Done p
    end.

(** [nextQuestion()] with its transition: the method body, then the
    callback handed to [_animateOut], which the code runs 130 ms later
    (at once when the page has no [.quiz-body]).  What can happen in
    between is in [Controls], where the callback waits among the timers. *)
Definition nextQuestion (now : string) (p : Page) : outcome Page :=
  let e := engine p in
  if Z.leb (Z.of_nat (length (questions e)) - 1) (Z.of_nat (currentQuestionIndex e))
  then
    let e' := mkQuizEngine (moduleId e) (questions e) (moduleTitle e) (passingScore e)
                (currentQuestionIndex e) (answers e) (score e) true
                (selectedOptionId e) (hasChecked e) (dragSelectedSource e)
                (matchedPairs e) in
    Done (showResults now (mkPage e' (progressManager p)))
  else
    let e' := mkQuizEngine (moduleId e) (questions e) (moduleTitle e) (passingScore e)
                (S (currentQuestionIndex e)) (answers e) (score e) (isComplete e)
                None false None ∅ in
    render now (mkPage e' (progressManager p)).

(** [retry()] *)
Definition retry (now : string) (p : Page) : outcome Page :=
  let e := engine p in
  let e' := mkQuizEngine (moduleId e) (questions e) (moduleTitle e) (passingScore e)
              0 (replicate (length (questions e)) Null) 0 false
              None false None ∅ in
  render now (mkPage e' (progressManager p)).

(** The call of the section tracker (app.js) when a section has been
    read: [window.progressManager.markSectionComplete(moduleId, sectionId)]. *)
Definition sectionRead (now moduleId sectionId : string) (p : Page) : Page :=
  mkPage (engine p)
    (match progressManager p with
     | Some d => Some (Progress.markSectionComplete now moduleId sectionId d)
     | None => None
     end).

(** *** Sessions

    What the user and the page can do to a loaded quiz, one action at a
    time; an action left by an exception keeps the state it reached. *)
Inductive Action : Type :=
| ASelect (optionId : string)
| AMatch (sourceId targetId : string)
| ACheck
| ANext (now : string)
| ARetry (now : string)
| ARead (now moduleId sectionId : string).

Definition on_engine (f : QuizEngine -> QuizEngine) (p : Page) : Page :=
  mkPage (f (engine p)) (progressManager p).

Definition perform (a : Action) (p : Page) : outcome Page :=
  match a with
  | ASelect optionId => Done (on_engine (selectOption optionId) p)
  | AMatch sourceId targetId => Done (on_engine (dropOn sourceId targetId) p)
  | ACheck =>
      match checkAnswer (engine p) with
      | Done e => Done (mkPage e (progressManager p))
      | Raised e => Raised (mkPage e (progressManager p))
      end
  | ANext now => nextQuestion now p
  | ARetry now => retry now p
  | ARead now moduleId sectionId => Done (sectionRead now moduleId sectionId p)
  end.

Definition run (actions : list Action) (p : Page) : Page :=
  foldl (fun p a => state_of (perform a p)) p actions.

End Quiz.

(** ** The two updates, seen on one module entry

    What [markSectionComplete] (its own assignments followed by
    [_checkModuleCompletion]) and [saveQuizScore] leave in
    [data.modules[moduleId]]; the lemmas [markSectionComplete_modules] and
    [saveQuizScore_modules] below relate them to the methods. *)

Module Entry.
Import Progress.

Definition promote (s : Status) : Status :=
  match s with
  | NotStarted => InProgress
  | s => s
  end.

Definition quizPassed (m : ModuleData) : bool :=
  match quizScore m with
  | None => false
  | Some s => Z.leb 70 s
  end.

Definition withSection (sectionId : string) (m : ModuleData) : ModuleData :=
  mkModuleData (promote (status m))
    (if bool_decide (sectionId ∈ sectionsCompleted m)
     then sectionsCompleted m
     else (sectionsCompleted m ++ [sectionId])%list)
    (quizScore m) (quizAttempts m).

Definition autoComplete (moduleId : string) (m : ModuleData) : ModuleData :=
  if Z.leb (totalSectionsFor moduleId) (Z.of_nat (length (sectionsCompleted m)))
     && quizPassed m
  then mkModuleData Completed (sectionsCompleted m) (quizScore m) (quizAttempts m)
  else m.

Definition marked (moduleId sectionId : string) (m : ModuleData) : ModuleData :=
  autoComplete moduleId (withSection sectionId m).

Definition scored (score : Z) (m : ModuleData) : ModuleData :=
  mkModuleData (if Z.leb 70 score then Completed else promote (status m))
    (sectionsCompleted m) (Some score) (quizAttempts m + 1).

End Entry.

(** ** Stored records used as examples *)

Module Stored.
Import Progress.

(** A parser for a storage that holds the text of [stored]. *)
Definition parsesTo (stored : JS.value) : string -> JS.completion JS.value :=
  fun _ => JS.Return stored.

Definition object (fields : list (string * JS.value)) : JS.value :=
  JS.VObj (list_to_map fields).

(** A record written by an older version of the page. *)
Definition olderRecord : JS.value :=
  object [ ("version", JS.VStr "0.9");
           ("startedAt", JS.VStr "2024-01-01T00:00:00.000Z");
           ("modules", object [ ("module1",
              moduleValue (mkModuleData Completed ["s1"] (Some 90) 1)) ]) ].


(** A record of the expected version in which [module2] is missing and
    [module3] has lost its list of sections. *)
Definition gappedRecord : JS.value :=
  object [ ("version", JS.VStr "1.0");
           ("startedAt", JS.VStr "2024-01-01T00:00:00.000Z");
           ("modules", object [
              ("module1", moduleValue (mkModuleData Completed ["s1"] (Some 90) 1));
              ("module3", object [ ("status", JS.VStr "in-progress");
                                   ("sectionsCompleted", JS.VNull);
                                   ("quizScore", JS.VNull);
                                   ("quizAttempts", numZ 0) ]) ]) ].

(** The same record with a number where the entry of [module2] should be. *)
Definition brokenRecord : JS.value :=
  object [ ("version", JS.VStr "1.0");
           ("startedAt", JS.VStr "2024-01-01T00:00:00.000Z");
           ("modules", object [
              ("module1", moduleValue (mkModuleData Completed ["s1"] (Some 90) 1));
              ("module2", numZ 7) ]) ].

Definition moduleOf (record : JS.value) (key : string) : JS.completion JS.value :=
  let! mods := JS.get record "modules" in JS.get mods key.

End Stored.

(** ** Quizzes used as examples *)

Module Sample.
Import Quiz.

Definition theorists : list (string * string) :=
  [ ("s1", "Piaget"); ("s2", "Vygotsky") ].

Definition ideas : list (string * string) :=
  [ ("t1", "Stages of cognitive development");
    ("t2", "Zone of proximal development") ].

Definition theoristIdeas : gmap string string :=
  <["s1" := "t1"]> (<["s2" := "t2"]> ∅).

Definition matchQuestion : Question :=
  DragMatch "Match each theorist with the idea" theorists ideas theoristIdeas
            "Piaget described stages, Vygotsky the zone of proximal development.".

Definition falseQuestion : Question :=
  TrueFalse "Infants cannot recognise faces." false "Newborns already prefer faces.".

Definition choiceA : Question :=
  MultipleChoice "First question"
    [ ("A", "first"); ("B", "second"); ("C", "third") ] "A" "A is right.".

Definition choiceB : Question :=
  MultipleChoice "Second question"
    [ ("A", "first"); ("B", "second"); ("C", "third") ] "B" "B is right.".

Definition quizOf (threshold : option Z) (qs : list Question) : ModuleEntry :=
  mkModuleEntry "module1" "Foundations" threshold qs.

(** The page once the questions [qs] are loaded, with a fresh progress
    record. *)
Definition pageOf (threshold : option Z) (qs : list Question) : Page :=
  mkPage (loaded (new "module1") (quizOf threshold qs))
         (Some (Progress.createDefault "t0" "t0")).

End Sample.

(** ** The formulas of the specification

    Written after the specification's words, to be compared with what the
    code computes. *)

Module Spec.

(** "quizComponent = 1 if latest score >= 70, else score/100 if a score
    exists, else 0" *)
Definition quizComponent (latest : option Z) : Q :=
  match latest with
  | Some s => if Z.leb 70 s then 1 else inject_Z s / 100
  | None => 0
  end.

(** "round(0.7 x min(sections/total, 1) x 100 + 0.3 x quizComponent x 100)" *)
Definition moduleProgress (sections total : Z) (latest : option Z) : Z :=
  Math_round ((7 # 10) * Qmin (inject_Z sections / inject_Z total) 1 * 100
              + (3 # 10) * quizComponent latest * 100)%Q.

(** "repairs that single field/module in place": what a known module key
    holds after [load], from what the stored record held there: the
    default entry when the key is missing (or holds a falsy value), the
    stored entry with an empty [sectionsCompleted] when that field is
    not an array, the stored entry itself otherwise. *)
Definition repairedEntry (stored : option JS.value) : JS.value :=
  match stored with
  | None => Progress.moduleValue Progress.defaultModule
  | Some v =>
      if JS.falsy v then Progress.moduleValue Progress.defaultModule
      else
        match v with
        | JS.VObj props =>
            match props !! "sectionsCompleted" with
            | Some (JS.VArr _ _) => v
            | _ => JS.VObj (<["sectionsCompleted" := JS.VArr [] ∅]> props)
            end
        | JS.VArr elems props =>
            match props !! "sectionsCompleted" with
            | Some (JS.VArr _ _) => v
            | _ => JS.VArr elems (<["sectionsCompleted" := JS.VArr [] ∅]> props)
            end
        | _ => v
        end
  end.

(** "rather than discarding the whole record": [result] is the stored
    record, with its [modules] repaired at the known keys and every other
    key of [modules], like every other field of the record, as stored. *)
Definition repairedInPlace (stored result : JS.value) : Prop :=
  exists (top mods mods' : gmap string JS.value),
    stored = JS.VObj top
    /\ top !! "modules" = Some (JS.VObj mods)
    /\ result = JS.VObj (<["modules" := JS.VObj mods']> top)
    /\ (forall k, k ∈ Progress.moduleKeys -> mods' !! k = Some (repairedEntry (mods !! k)))
    /\ (forall k, k ∉ Progress.moduleKeys -> mods' !! k = mods !! k).

(** A module entry [load] can repair: nothing or a falsy value (it is
    replaced), or an object (an array included). *)
Definition repairable (stored : option JS.value) : Prop :=
  match stored with
  | None => True
  | Some v =>
      JS.falsy v = true \/ (exists props, v = JS.VObj props)
      \/ (exists elems props, v = JS.VArr elems props)
  end.



(** "correct_count": the recorded answers that are correct. *)
Fixpoint correctCount (answers : list Quiz.Slot) : Z :=
  match answers with
  | [] => 0
  | Quiz.Recorded a :: rest =>
      (if Quiz.correct a then 1 else 0) + correctCount rest
  | _ :: rest => correctCount rest
  end.

(** "round(correct_count / total_questions x 100)" *)
Definition scorePercentage (correct_count total_questions : Z) : Z :=
  Math_round (inject_Z correct_count / inject_Z total_questions * 100)%Q.

End Spec.

(** ** The two percentages in binary64

    The module progress computed as the code computes it, in binary64, to
    be compared with the exact model above; and the score percentage,
    which is computed in binary64 throughout, compared with the formula of
    the specification. *)

Module Doubles.

(** [getModuleProgress] on a module with [len] completed sections out of
    [total] and the latest score [latest]. *)
Definition getModuleProgress (len total : Z) (latest : option Z) : option Z :=
  let sectionProgress := PrimFloat.div (Binary64.ofZ len) (Binary64.ofZ total) in
  let sectionProgress :=
    if PrimFloat.ltb sectionProgress 1%float then sectionProgress else 1%float in
  let quizProgress :=
    match latest with
    | Some s => if Z.leb 70 s then 1%float else PrimFloat.div (Binary64.ofZ s) 100%float
    | None => 0%float
    end in
  Binary64.Math_round (PrimFloat.add (PrimFloat.mul sectionProgress 70%float)
                                     (PrimFloat.mul quizProgress 30%float)).

(** [Math.round((score / questions.length) * 100)] *)
Definition scorePercent (score len : Z) : option Z := Binary64.percent score len.

Definition upto (n : nat) : list Z := Z.of_nat <$> seq 0 (S n).

(** The doubles and the exact formula give the same module progress for
    every declared total, up to [maxLen] completed sections and every score
    that is null or a whole percentage. *)
Definition progressAgrees (maxLen : nat) : bool :=
  forallb (fun total =>
    forallb (fun len =>
      forallb (fun latest =>
        match getModuleProgress len total latest with
        | Some r => Z.eqb r (Spec.moduleProgress len total latest)
        | None => false
        end)
      (None :: (Some <$> upto 100)))
    (upto maxLen))
  [5; 10; 11; 12; 13].

(** The quizzes, of at most [maxLen] questions, and the numbers of
    correct answers on which the doubles and the exact formula give
    different score percentages. *)
Definition percentDiffers (maxLen : nat) : list (Z * Z) :=
  flat_map (fun len =>
    flat_map (fun score =>
      match scorePercent score len with
      | Some r => if Z.eqb r (Spec.scorePercentage score len) then [] else [(score, len)]
      | None => [(score, len)]
      end)
    (upto (Z.to_nat len)))
  (Z.of_nat <$> seq 1 maxLen).

(** Whether [score / len x 100] lies half-way between two integers. *)
Definition halfway (score len : Z) : bool :=
  Z.eqb ((200 * score) mod len) 0 && Z.odd (200 * score / len).

(** Whether [score] correct answers out of [len] give a percentage, in
    [0, 100], that is the exactly rounded one or, half-way between two
    integers, the one below. *)
Definition percentNear (len score : Z) : bool :=
  match scorePercent score len with
  | Some r =>
      Z.leb 0 r && Z.leb r 100
      && (Z.eqb r (Spec.scorePercentage score len)
          || halfway score len && Z.eqb r (Spec.scorePercentage score len - 1))
  | None => false
  end.

(** The same for every quiz of at most [maxLen] questions and every
    number of correct answers. *)
Definition percentsNear (maxLen : nat) : bool :=
  forallb (fun len => forallb (percentNear (Z.of_nat len)) (upto len)) (seq 1 maxLen).

(** The longest quiz the statements about the score percentage cover. *)
Definition maxQuestions : nat := 200.

End Doubles.

(** ** Sessions: what every state of a loaded quiz satisfies *)

Module Session.
Import Quiz.

(** The weight of a slot in the score. *)
Definition weight (slot : Slot) : Z :=
  match slot with
  | Recorded a => if correct a then 1 else 0
  | _ => 0
  end.

(** One slot per question, a current question, a score that counts the
    correct recorded answers, and nothing recorded yet for the current
    question while unchecked, nor for the questions after it. *)
Record consistent (e : QuizEngine) : Prop := mkConsistent {
  slots : length (answers e) = length (questions e);
  in_range : (currentQuestionIndex e < length (questions e))%nat;
  counted : score e = Spec.correctCount (answers e);
  pending : forall j,
    (currentQuestionIndex e < j)%nat
    \/ (currentQuestionIndex e = j /\ hasChecked e = false) ->
    (j < length (questions e))%nat ->
    answers e !! j = Some Null
}.

(** Every recorded score is a percentage. *)
Definition percentScores (d : Progress.ProgressData) : Prop :=
  map_Forall (fun _ m => forall s, Progress.quizScore m = Some s -> 0 <= s <= 100)
             (Progress.modules d).

(** A page in a consistent session, on a quiz of at most
    [Doubles.maxQuestions] questions, whose progress record, if any, holds
    percentages. *)
Definition sound (p : Page) : Prop :=
  consistent (engine p)
  /\ (length (questions (engine p)) <= Doubles.maxQuestions)%nat
  /\ forall d, progressManager p = Some d -> percentScores d.

(** The quiz data do not change during a session. *)
Definition sameQuiz (e e' : QuizEngine) : Prop :=
  questions e' = questions e /\ passingScore e' = passingScore e
  /\ moduleId e' = moduleId e.

(** The page when the quiz data of [entry] has arrived. *)
Definition start (entry : ModuleEntry) (pm : option Progress.ProgressData) : Page :=
  mkPage (loaded (new (entryModuleId entry)) entry) pm.

(** The scenario of the specification: two questions, the first answered
    rightly, the second wrongly, each checked and left. *)
Definition oneOfTwo : list Action :=
  [ ASelect "A"; ACheck; ANext "t1"; ASelect "C"; ACheck; ANext "t2" ].

End Session.

(** ** Sequences of updates of the progress record *)

Module Updates.
Import Progress.

(** The mutating methods of [ProgressManager], with their arguments and
    the clock readings they take. *)
Inductive Update : Type :=
| UMark (now moduleId sectionId : string)
| UScore (now moduleId : string) (score : Z)
| UResetModule (now moduleId : string)
| UResetAll (t_started t_updated now : string).

Definition apply (u : Update) (d : ProgressData) : ProgressData :=
  match u with
  | UMark now moduleId sectionId => markSectionComplete now moduleId sectionId d
  | UScore now moduleId score => saveQuizScore now moduleId score d
  | UResetModule now moduleId => resetModule now moduleId d
  | UResetAll t_started t_updated now => resetAll t_started t_updated now d
  end.

Definition applyAll (us : list Update) (d : ProgressData) : ProgressData :=
  foldl (fun d u => apply u d) d us.

(** not-started < in-progress < completed *)
Definition rank (s : Status) : Z :=
  match s with
  | NotStarted => 0
  | InProgress => 1
  | Completed => 2
  end.

(** What holds of every module entry the methods produce. *)
Definition entryOk (m : ModuleData) : Prop :=
  NoDup (sectionsCompleted m)
  /\ 0 <= quizAttempts m
  /\ (quizScore m = None <-> quizAttempts m = 0)
  /\ (status m = NotStarted -> m = defaultModule)
  /\ (Entry.quizPassed m = true -> status m = Completed).

(** What holds of the progress record after any sequence of updates. *)
Record wellFormed (d : ProgressData) : Prop := mkWellFormed {
  wf_version : version d = CURRENT_VERSION;
  wf_keys : forall k, is_Some (modules d !! k) <-> k ∈ moduleKeys;
  wf_overall : overallProgress d = getOverallProgress d;
  wf_entries : map_Forall (fun _ m => entryOk m) (modules d)
}.

(** The update names no member of [Object.prototype] as its module. *)
Definition plain (u : Update) : bool :=
  match u with
  | UMark _ moduleId _ | UScore _ moduleId _ | UResetModule _ moduleId =>
      negb (Prototype.inherited moduleId)
  | UResetAll _ _ _ => true
  end.

(** The only updates that lower a status or take a section away. *)
Definition isReset (u : Update) : bool :=
  match u with
  | UResetModule _ _ | UResetAll _ _ _ => true
  | _ => false
  end.

(** An entry that has lost nothing with respect to another: its status
    is not lower, its completed sections extend the other's, its attempts
    are not fewer. *)
Definition grows (m m' : ModuleData) : Prop :=
  rank (status m) <= rank (status m')
  /\ sectionsCompleted m `prefix_of` sectionsCompleted m'
  /\ quizAttempts m <= quizAttempts m'.

End Updates.

(** ** What [load] hands to the rest of the page *)

Module Loaded.
Import Progress.

(** [mods[key]] is an entry the methods can work on: a truthy value whose
    [sectionsCompleted] is an array. *)
Definition usable (mods : JS.value) (key : string) : Prop :=
  exists entry secs,
    JS.get mods key = JS.Return entry
    /\ JS.falsy entry = false
    /\ JS.get entry "sectionsCompleted" = JS.Return secs
    /\ JS.isArray secs = true.

(** The default entry for each known key. *)
Definition knownDefaults : gmap string ModuleData :=
  list_to_map ((fun k => (k, defaultModule)) <$> moduleKeys).

(** The record [d] with the default entry for the known modules it
    lacks. *)
Definition completed (d : ProgressData) : ProgressData :=
  set_modules d (modules d ∪ knownDefaults).

End Loaded.

(** ** More about sessions *)

Module Play.
Import Quiz.

Definition isRetry (a : Action) : bool :=
  match a with
  | ARetry _ => true
  | _ => false
  end.



(** The flag of a recorded answer. *)
Definition flag (slot : Slot) : option bool :=
  match slot with
  | Recorded a => Some (correct a)
  | _ => None
  end.

End Play.

(** ** The arrival of the quiz data *)

Module Loader.
Import Quiz.

(** The [for] loop with its [break] over [data.modules]: the first entry
    whose [moduleId] is the engine's. *)
Fixpoint findModule (modules : list ModuleEntry) (id : string) : option ModuleEntry :=
  match modules with
  | [] => None
  | entry :: rest =>
      if bool_decide (entryModuleId entry = id) then Some entry
      else findModule rest id
  end.

(** The second [then] handler of [_loadQuizData], run with the parsed
    [data.modules]; [hasContainer] tells whether [self.container] is set.
    With no entry for the module the error panel is shown and the engine
    is left as it was. *)
Definition dataArrived (now : string) (modules : list ModuleEntry) (hasContainer : bool)
    (p : Page) : outcome Page :=
  match findModule modules (moduleId (engine p)) with
  | None => Done p
  | Some moduleData =>
      let p' := mkPage (loaded (engine p) moduleData) (progressManager p) in
      if hasContainer then render now p' else Done p'
  end.

End Loader.

(** ** What the page shows: shuffled sources, dragged items, the counter *)

Module Screen.
Import Quiz.

Section Shuffle.
Context {A : Type}.

(** [random k] is what the call number [k] of [Math.random()] made by
    [_shuffle] returns. *)
Variable random : nat -> Q.

(** The three assignments that exchange [shuffled[i]] and [shuffled[j]].
    [None] stands for a read past the end of the array, which
    [Math.random() < 1] excludes. *)
Definition exchange (shuffled : list A) (i j : nat) : option (list A) :=
  match shuffled !! i, shuffled !! j with
  | Some temp, Some other => Some (<[j := temp]> (<[i := other]> shuffled))
  | _, _ => None
  end.

(** The loop [for (i = ...; i > 0; i--)] from index [i] on, after [calls]
    calls of [Math.random()]. *)
Fixpoint shuffle_from (calls : nat) (i : nat) (shuffled : list A) : option (list A) :=
  match i with
  | O => Some shuffled
  | S i' =>
      let j := Z.to_nat (Qfloor (random calls * inject_Z (Z.of_nat (i + 1)))) in
      match exchange shuffled i j with
      | Some shuffled' => shuffle_from (S calls) i' shuffled'
      | None => None
      end
  end.

(** [_shuffle(arr)] *)
Definition _shuffle (arr : list A) : option (list A) :=
  shuffle_from 0 (length arr - 1) arr.

End Shuffle.

(** What [getBoundingClientRect()] returns. *)
Record Rect : Type := mkRect {
  left : Q;
  right : Q;
  top : Q;
  bottom : Q
}.

Definition Qlt_bool (a b : Q) : bool := negb (Qle_bool b a).

(** [_isOverlapping(el1, el2)], on the rectangles of the two elements. *)
Definition _isOverlapping (r1 r2 : Rect) : bool :=
  negb (Qlt_bool (right r1) (left r2) || Qlt_bool (right r2) (left r1)
        || Qlt_bool (bottom r1) (top r2) || Qlt_bool (bottom r2) (top r1)).

(** The [targets.forEach] of [onDragEnd] for the item of [sourceId] let
    go at [dragged]: each drop zone it overlaps, in document order,
    records a match. *)
Definition onDragEnd (sourceId : string) (dragged : Rect) (zones : list (string * Rect))
    (e : QuizEngine) : QuizEngine :=
  foldl (fun e zone =>
           if _isOverlapping dragged (snd zone) then matchPair sourceId (fst zone) e else e)
        e zones.

(** The zones a rectangle overlaps. *)
Definition overlapped (dragged : Rect) (zones : list (string * Rect)) : list string :=
  fst <$> filter (fun zone => _isOverlapping dragged (snd zone) = true) zones.

(** [_checkDragMatchReady(question)]: whether it enables the Check
    button, given [question.sources]. *)
Definition _checkDragMatchReady (sources : list (string * string)) (e : QuizEngine) : bool :=
  bool_decide (length sources <= size (matchedPairs e))%nat.

(** *** The score counter *)

(** One frame of [_animateCounter]'s [step(timestamp)]: the start time it
    keeps ([!startTime] holds of [null] and of [0]), the number it writes
    before the percent sign, and whether it asks for another frame.  The
    cube [Math.pow(1 - progress, 3)] is the exact one; [duration] is 600
    in the one call of the method, and the statements below take it
    positive. *)
Definition step (startVal endVal : Z) (duration : Q) (startTime : option Q) (timestamp : Q)
    : Q * Z * bool :=
  let startTime' :=
    match startTime with
    | Some t => if Qeq_bool t 0 then timestamp else t
    | None => timestamp
    end in
  let progress := Math_min ((timestamp - startTime') / duration) 1 in
  let eased := (1 - (1 - progress) * (1 - progress) * (1 - progress))%Q in
  let current := Math_round (inject_Z startVal + (inject_Z endVal - inject_Z startVal) * eased) in
  (startTime', current, Qlt_bool progress 1).

(** The frames of one animation, at the times [stamps]: the text of the
    counter (its number) and whether a further frame is awaited.  The
    counter is rendered showing 0. *)
Fixpoint frames (startVal endVal : Z) (duration : Q) (startTime : option Q)
    (shown : Z) (stamps : list Q) : Z * bool :=
  match stamps with
  | [] => (shown, true)
  | timestamp :: rest =>
      let '(startTime', current, again) := step startVal endVal duration startTime timestamp in
      if again then frames startVal endVal duration (Some startTime') current rest
      else (current, false)
  end.

(** [_animateCounter(startVal, endVal, duration)] *)
Definition _animateCounter (startVal endVal : Z) (duration : Q) (stamps : list Q) : Z * bool :=
  frames startVal endVal duration None 0 stamps.

End Screen.

(** ** The page and its controls

    What the user can do to the rendered quiz.  The page is the engine
    with what [render], [showResults] and the handlers leave in the DOM,
    as far as it decides which handler can run: the options, drag items
    and drop zones of the question shown, the state of the Check and Next
    buttons, and the callbacks [_animateOut] has handed to [setTimeout].
    A button that is disabled or not displayed cannot be activated; an
    element stays in the page until [innerHTML] is assigned again.  The
    ids are plain strings: the attribute values and the selectors built
    from them denote them.  Here the callback of [_animateOut] waits its
    130 ms in the queue, and what is done in between is done to the page
    as the method left it. *)

Module Controls.
Import Quiz Session Screen.

(** Which of [_initClickMatch] and [_initGSAPDrag] has bound the
    handlers of a drag-match question. *)
Inductive Mode : Type :=
| ClickMatch
| GsapDrag.

Record Window : Type := mkWindow {
  innerWidth : Z;
  hasDraggable : bool              (* window.gsap && window.Draggable *)
}.

(** The choice of [_initDragMatch]. *)
Definition modeOf (w : Window) : Mode :=
  if Z.leb (innerWidth w) 640 then ClickMatch
  else if hasDraggable w then GsapDrag
  else ClickMatch.

(** What a handler reads from outside the page while it runs: the clock,
    the window, the values [Math.random()] returns. *)
Record Env : Type := mkEnv {
  now : string;
  window : Window;
  random : nat -> Q
}.

(** The question page [render] writes. *)
Record View : Type := mkView {
  shown : Question;                   (* the question the handlers hold *)
  optionIds : list string;            (* data-option-id of each .quiz-option *)
  dragItems : list (string * bool);   (* data-source-id, is-matched *)
  dropZones : list (string * bool);   (* data-target-id, is-matched *)
  matching : option Mode;
  checkDisabled : bool;               (* #quiz-btn-check disabled *)
  checkHidden : bool;                 (* #quiz-btn-check display: none *)
  nextHidden : bool                   (* #quiz-btn-next display: none *)
}.

Inductive Display : Type :=
| Skeleton                            (* no control *)
| Showing (v : View)
| Results.                            (* the Try Again button *)

(** The callbacks [nextQuestion] hands to [_animateOut]. *)
Inductive Callback : Type :=
| RenderAgain
| ShowResults.

Record Browser : Type := mkBrowser {
  page : Page;
  display : Display;
  timers : list Callback              (* pending, oldest first *)
}.

Definition onPage (f : QuizEngine -> QuizEngine) (b : Browser) : Browser :=
  mkBrowser (on_engine f (page b)) (display b) (timers b).

(** An update of the question page, if one is displayed (the
    [querySelector] of the handlers finds nothing otherwise). *)
Definition onView (f : View -> View) (b : Browser) : Browser :=
  mkBrowser (page b)
    (match display b with
     | Showing v => Showing (f v)
     | d => d
     end)
    (timers b).

(** [checkBtn.disabled = false] *)
Definition enableCheck (v : View) : View :=
  mkView (shown v) (optionIds v) (dragItems v) (dropZones v) (matching v)
         false (checkHidden v) (nextHidden v).

(** The end of [checkAnswer]: Check hidden, Next shown. *)
Definition swapButtons (v : View) : View :=
  mkView (shown v) (optionIds v) (dragItems v) (dropZones v) (matching v)
         (checkDisabled v) true false.

(** The option elements of [renderMultipleChoice] and [renderTrueFalse]. *)
Definition renderedOptions (q : Question) : list string :=
  match q with
  | MultipleChoice _ options _ _ => options.*1
  | TrueFalse _ _ _ => [ "true"; "false" ]
  | DragMatch _ _ _ _ _ => []
  end.

(** [this._shuffle(question.sources.slice())] in [renderDragMatch]. *)
Definition shuffledSources (random : nat -> Q) (sources : list (string * string))
    : list (string * string) :=
  match _shuffle random sources with
  | Some shuffled => shuffled
  | None => sources
  end.

(** The page of a question as [render] leaves it: Check disabled, Next
    not displayed, nothing matched. *)
Definition viewOf (env : Env) (q : Question) : View :=
  match q with
  | DragMatch _ sources targets _ _ =>
      mkView q []
        ((fun s => (fst s, false)) <$> shuffledSources (random env) sources)
        ((fun t => (fst t, false)) <$> targets)
        (Some (modeOf (window env))) true false true
  | _ => mkView q (renderedOptions q) [] [] None true false true
  end.

(** [render(container)] with what it displays. *)
Definition renderOn (env : Env) (b : Browser) : Browser :=
  let e := engine (page b) in
  mkBrowser (state_of (Quiz.render (now env) (page b)))
    (if Nat.eqb (length (questions e)) 0 then Skeleton
     else if isComplete e then Results
     else match questions e !! currentQuestionIndex e with
          | Some q => Showing (viewOf env q)
          | None => display b
          end)
    (timers b).

(** [selectOption(optionId)] with the button it enables. *)
Definition selectOptionOn (optionId : string) (b : Browser) : Browser :=
  if hasChecked (engine (page b)) then b
  else onView enableCheck (onPage (Quiz.selectOption optionId) b).

(** [checkAnswer()] with the buttons it swaps. *)
Definition checkAnswerOn (b : Browser) : Browser :=
  if hasChecked (engine (page b)) then b
  else
    match Quiz.checkAnswer (engine (page b)) with
    | Done e =>
        onView swapButtons
          (mkBrowser (mkPage e (progressManager (page b))) (display b) (timers b))
    | Raised e => mkBrowser (mkPage e (progressManager (page b))) (display b) (timers b)
    end.

(** The assignments of [nextQuestion] on the last question, and on
    another one. *)
Definition finished (e : QuizEngine) : QuizEngine :=
  mkQuizEngine (moduleId e) (questions e) (moduleTitle e) (passingScore e)
    (currentQuestionIndex e) (answers e) (score e) true
    (selectedOptionId e) (hasChecked e) (dragSelectedSource e) (matchedPairs e).

Definition advanced (e : QuizEngine) : QuizEngine :=
  mkQuizEngine (moduleId e) (questions e) (moduleTitle e) (passingScore e)
    (S (currentQuestionIndex e)) (answers e) (score e) (isComplete e)
    None false None ∅.

(** The assignments of [retry]. *)
Definition restarted (e : QuizEngine) : QuizEngine :=
  mkQuizEngine (moduleId e) (questions e) (moduleTitle e) (passingScore e)
    0 (replicate (length (questions e)) Null) 0 false None false None ∅.

Definition runCallback (env : Env) (callback : Callback) (b : Browser) : Browser :=
  match callback with
  | RenderAgain => renderOn env b
  | ShowResults => mkBrowser (showResults (now env) (page b)) Results (timers b)
  end.

(** [_animateOut(callback)]: with a [.quiz-body] in the page the callback
    goes to [setTimeout], else it is called at once. *)
Definition _animateOut (env : Env) (callback : Callback) (b : Browser) : Browser :=
  match display b with
  | Showing _ => mkBrowser (page b) (display b) (timers b ++ [callback])%list
  | _ => runCallback env callback b
  end.

(** [nextQuestion()] *)
Definition nextQuestionOn (env : Env) (b : Browser) : Browser :=
  let e := engine (page b) in
  if Z.leb (Z.of_nat (length (questions e)) - 1) (Z.of_nat (currentQuestionIndex e))
  then _animateOut env ShowResults (onPage finished b)
  else _animateOut env RenderAgain (onPage advanced b).

(** [retry()] *)
Definition retryOn (env : Env) (b : Browser) : Browser :=
  renderOn env (onPage restarted b).

(** [_checkDragMatchReady(question)] with the button it enables; the
    handlers call it with the drag-match question they hold. *)
Definition readyCheck (question : Question) (b : Browser) : Browser :=
  match question with
  | DragMatch _ sources _ _ _ =>
      if _checkDragMatchReady sources (engine (page b)) then onView enableCheck b else b
  | _ => b
  end.

(** [is-matched] put on the first drag item of that id. *)
Fixpoint markFirst (sourceId : string) (items : list (string * bool))
    : list (string * bool) :=
  match items with
  | [] => []
  | (id, matched) :: rest =>
      if bool_decide (id = sourceId) then (id, true) :: rest
      else (id, matched) :: markFirst sourceId rest
  end.

Definition selectSource (sourceId : string) (e : QuizEngine) : QuizEngine :=
  mkQuizEngine (moduleId e) (questions e) (moduleTitle e) (passingScore e)
    (currentQuestionIndex e) (answers e) (score e) (isComplete e)
    (selectedOptionId e) (hasChecked e) (Some sourceId) (matchedPairs e).

Definition clearSource (e : QuizEngine) : QuizEngine :=
  mkQuizEngine (moduleId e) (questions e) (moduleTitle e) (passingScore e)
    (currentQuestionIndex e) (answers e) (score e) (isComplete e)
    (selectedOptionId e) (hasChecked e) None (matchedPairs e).

(** The click handler [_initClickMatch] binds to the drag item number
    [i]. *)
Definition sourceHandler (i : nat) (v : View) (b : Browser) : Browser :=
  match (dragItems v !! i : option (string * bool)) with
  | Some (sourceId, matched) =>
      if hasChecked (engine (page b)) then b
      else if matched then b
      else onPage (selectSource sourceId) b
  | None => b
  end.

(** The click handler [_initClickMatch] binds to the drop zone number
    [j]; an empty string in [dragSelectedSource] is falsy. *)
Definition targetHandler (j : nat) (v : View) (b : Browser) : Browser :=
  match (dropZones v !! j : option (string * bool)) with
  | Some (targetId, matched) =>
      let e := engine (page b) in
      if hasChecked e then b
      else
        match dragSelectedSource e with
        | None => b
        | Some sourceId =>
            if bool_decide (sourceId = "") then b
            else if matched then b
            else
              let v' := mkView (shown v) (optionIds v)
                          (markFirst sourceId (dragItems v))
                          (<[j := (targetId, true)]> (dropZones v))
                          (matching v) (checkDisabled v) (checkHidden v) (nextHidden v) in
              readyCheck (shown v)
                (mkBrowser
                   (mkPage (clearSource (matchPair sourceId targetId e))
                           (progressManager (page b)))
                   (Showing v') (timers b))
        end
  | None => b
  end.

(** [onDragEnd] of the drag item number [i], let go at [dragged] while
    the drop zones are at [rects].  The classes it sets are read by the
    click handlers only, which this page does not have. *)
Definition dragEndHandler (i : nat) (dragged : Rect) (rects : list Rect) (v : View)
    (b : Browser) : Browser :=
  match (dragItems v !! i : option (string * bool)) with
  | Some (sourceId, _) =>
      readyCheck (shown v)
        (onPage (onDragEnd sourceId dragged (zip (dropZones v).*1 rects)) b)
  | None => b
  end.

(** What happens in the page: an element activated (by a click, or by
    Enter or Space on it), a drag ended, the oldest timer gone off. *)
Inductive Event : Type :=
| OnOption (i : nat)
| OnCheck
| OnNext
| OnRetry
| OnSource (i : nat)
| OnTarget (j : nat)
| OnDragEnd (i : nat) (dragged : Rect) (rects : list Rect)
| OnTimeout.

Definition handle (env : Env) (event : Event) (b : Browser) : Browser :=
  match event, display b with
  | OnOption i, Showing v =>
      match optionIds v !! i with
      | Some optionId =>
          if hasChecked (engine (page b)) then b else selectOptionOn optionId b
      | None => b
      end
  | OnCheck, Showing v =>
      if checkDisabled v || checkHidden v then b else checkAnswerOn b
  | OnNext, Showing v =>
      if nextHidden v then b else nextQuestionOn env b
  | OnRetry, Results => retryOn env b
  | OnSource i, Showing v =>
      match matching v with
      | Some ClickMatch => sourceHandler i v b
      | _ => b
      end
  | OnTarget j, Showing v =>
      match matching v with
      | Some ClickMatch => targetHandler j v b
      | _ => b
      end
  | OnDragEnd i dragged rects, Showing v =>
      match matching v with
      | Some GsapDrag => dragEndHandler i dragged rects v b
      | _ => b
      end
  | OnTimeout, _ =>
      match timers b with
      | callback :: rest => runCallback env callback (mkBrowser (page b) (display b) rest)
      | [] => b
      end
  | _, _ => b
  end.

Definition run (events : list (Env * Event)) (b : Browser) : Browser :=
  foldl (fun b ee => handle (fst ee) (snd ee) b) b events.

(** The page when the quiz data of [entry] have arrived and the first
    question is rendered. *)
Definition opened (env : Env) (entry : ModuleEntry) (pm : option Progress.ProgressData)
    : Browser :=
  renderOn env (mkBrowser (start entry pm) Skeleton []).

(** *** What holds of the page throughout *)

(** The view is the one [render] made for its question, up to the
    [is-matched] marks. *)
Definition rendered (v : View) : Prop :=
  optionIds v = renderedOptions (shown v)
  /\ match shown v with
     | DragMatch _ sources targets _ _ =>
         (dragItems v).*1 ≡ₚ sources.*1 /\ (dropZones v).*1 = targets.*1
     | _ => dragItems v = [] /\ dropZones v = []
     end.

(** The question shown is the current one, and the matches are matches
    of its items. *)
Definition current (e : QuizEngine) (v : View) : Prop :=
  questions e !! currentQuestionIndex e = Some (shown v)
  /\ (isDragMatch (shown v) = true ->
      (forall s, is_Some (matchedPairs e !! s) -> s ∈ (dragItems v).*1)
      /\ (forall s, dragSelectedSource e = Some s -> s ∈ (dragItems v).*1)).

(** An option of the question shown is selected, or there are as many
    matches as items. *)
Definition answered (e : QuizEngine) (v : View) : Prop :=
  match shown v with
  | DragMatch _ sources _ _ _ => (length sources <= size (matchedPairs e))%nat
  | _ => exists optionId, selectedOptionId e = Some optionId /\ optionId ∈ optionIds v
  end.

(** The question shown has been checked and its answer recorded. *)
Definition checkedOff (e : QuizEngine) (v : View) : Prop :=
  hasChecked e = true
  /\ questions e !! currentQuestionIndex e = Some (shown v)
  /\ exists a, answers e !! currentQuestionIndex e = Some (Recorded a).

Record viewOk (e : QuizEngine) (pending : list Callback) (v : View) : Prop := mkViewOk {
  buttons : nextHidden v = negb (checkHidden v);
  layout : rendered v;
  fresh : checkHidden v = false -> current e v;
  ready : checkHidden v = false -> checkDisabled v = false -> answered e v;
  gated : nextHidden v = false -> pending = [] -> checkedOff e v;
  unfinished : pending = [] -> isComplete e = false
}.

Definition steady (b : Browser) : Prop :=
  consistent (engine (page b))
  /\ match display b with
     | Showing v => viewOk (engine (page b)) (timers b) v
     | _ => True
     end.

End Controls.

(** ** Pages used as examples *)

Module Scenario.
Import Quiz Screen Controls.

(** A wide window with GSAP loaded, and a [Math.random()] that always
    returns 0.999: [_shuffle] then leaves arrays of fewer than 1000
    elements in their order. *)
Definition desktop : Env :=
  mkEnv "t" (mkWindow 1024 true) (fun _ => 999 # 1000)%Q.

(** Three drop zones one below the other, and an item let go inside the
    zone number [j]. *)
Definition zoneAt (j : nat) : Rect :=
  mkRect 100 200 (inject_Z (Z.of_nat (60 * j))) (inject_Z (Z.of_nat (60 * j + 50))).

Definition zones : list Rect := [ zoneAt 0; zoneAt 1; zoneAt 2 ].

Definition inside (j : nat) : Rect :=
  mkRect 150 160 (inject_Z (Z.of_nat (60 * j + 10))) (inject_Z (Z.of_nat (60 * j + 20))).

(** The drag item number [i] let go inside the drop zone number [j]. *)
Definition dragTo (i j : nat) : Env * Event := (desktop, OnDragEnd i (inside j) zones).






(** The items of the only question of a quiz matched, the second one to
    the wrong zone. *)
Definition oneWrongDrag : list (Env * Event) := [ dragTo 0 0; dragTo 1 0 ].

(** One question answered through the page: the option number [i]
    chosen, the answer checked, Next pressed, the transition run. *)
Definition answer (i : nat) : list (Env * Event) :=
  [ (desktop, OnOption i); (desktop, OnCheck); (desktop, OnNext); (desktop, OnTimeout) ].

(** A quiz of [n] copies of the first sample question, and its first
    [right] questions answered rightly, the [wrong] next ones wrongly. *)
Definition copies (threshold : option Z) (n : nat) : ModuleEntry :=
  Sample.quizOf threshold (replicate n Sample.choiceA).

Definition answers (right wrong : nat) : list (Env * Event) :=
  (mjoin (replicate right (answer 0)) ++ mjoin (replicate wrong (answer 1)))%list.

(** The scenario of the specification, through the page: "A" chosen on
    the first question, "C" on the second. *)
Definition oneOfTwo : list (Env * Event) := (answer 0 ++ answer 2)%list.

End Scenario.

(** * Properties *)

(** ** Rounding *)

Lemma Math_round_proper (x y : Q) : (x == y)%Q -> Math_round x = Math_round y.
Proof. intros E. unfold Math_round. now rewrite E. Qed.

Lemma Math_round_range (x : Q) (lo hi : Z) :
  (inject_Z lo <= x)%Q -> (x <= inject_Z hi)%Q -> lo <= Math_round x <= hi.
Proof.
  intros Hlo Hhi. unfold Math_round. split.
  - rewrite <- (Qfloor_Z lo). apply Qfloor_resp_le. lra.
  - assert (H1 : (inject_Z (Qfloor (x + (1 # 2))) <= x + (1 # 2))%Q) by apply Qfloor_le.
    apply Z.lt_succ_r. unfold Z.succ. rewrite Zlt_Qlt, inject_Z_plus.
    change (inject_Z 1) with 1%Q. lra.
Qed.


Lemma Math_min_bounds (a : Q) : (0 <= a)%Q -> (0 <= Math_min a 1 <= 1)%Q.
Proof.
  intros Ha. unfold Math_min. destruct (Qle_bool a 1) eqn:E.
  - apply Qle_bool_iff in E. lra.
  - lra.
Qed.

(** ** Module progress *)

Section ModuleProgress.
Import Progress.

Lemma MODULE_TOTAL_SECTIONS_positive :
  map_Forall (fun _ n => 0 < n) MODULE_TOTAL_SECTIONS.
Proof.
  unfold MODULE_TOTAL_SECTIONS. simpl.
  repeat (apply map_Forall_insert_2; [lia |]).
  apply map_Forall_empty.
Qed.

Lemma totalSectionsFor_positive (moduleId : string) : 0 < totalSectionsFor moduleId.
Proof.
  unfold totalSectionsFor.
  destruct (MODULE_TOTAL_SECTIONS !! moduleId) as [n|] eqn:E; [| lia].
  apply MODULE_TOTAL_SECTIONS_positive in E.
  destruct (Z.eqb_spec n 0); lia.
Qed.

Lemma sectionProgress_bounds (moduleId : string) (m : ModuleData) :
  (0 <= sectionProgress moduleId m <= 1)%Q.
Proof.
  unfold sectionProgress. apply Math_min_bounds.
  pose proof (totalSectionsFor_positive moduleId) as HT.
  apply Qle_shift_div_l.
  - change 0%Q with (inject_Z 0). now rewrite <- Zlt_Qlt.
  - rewrite Qmult_0_l. change 0%Q with (inject_Z 0). rewrite <- Zle_Qle. lia.
Qed.

Lemma quizProgress_bounds (m : ModuleData) :
  (forall s, quizScore m = Some s -> 0 <= s) ->
  (0 <= quizProgress m <= 1)%Q.
Proof.
  intros Hs. unfold quizProgress.
  destruct (quizScore m) as [s|]; [| lra].
  specialize (Hs s eq_refl).
  destruct (Z.leb_spec 70 s) as [|Hlt]; [lra |].
  assert (H0 : (inject_Z 0 <= inject_Z s)%Q) by (rewrite <- Zle_Qle; lia).
  assert (H1 : (inject_Z s <= inject_Z 100)%Q) by (rewrite <- Zle_Qle; lia).
  change (inject_Z 0) with 0%Q in H0. change (inject_Z 100) with 100%Q in H1.
  unfold Qdiv. change (/ 100)%Q with (1 # 100)%Q. lra.
Qed.


Lemma getModuleProgress_range (d : ProgressData) (moduleId : string) :
  (forall m s, modules d !! moduleId = Some m -> quizScore m = Some s -> 0 <= s) ->
  0 <= getModuleProgress d moduleId <= 100.
Proof.
  intros Hs. unfold getModuleProgress.
  destruct (modules d !! moduleId) as [m|] eqn:Hm; [| lia].
  pose proof (sectionProgress_bounds moduleId m) as Hsec.
  pose proof (quizProgress_bounds m (fun s => Hs m s eq_refl)) as Hq.
  apply Math_round_range.
  - change (inject_Z 0) with 0%Q. lra.
  - change (inject_Z 100) with 100%Q. lra.
Qed.





End ModuleProgress.

(** ** Updates of the progress record *)

Section ProgressUpdates.
Import Progress.

Lemma modules_save (now : string) (d : ProgressData) : modules (save now d) = modules d.
Proof. reflexivity. Qed.

Lemma getModuleProgress_modules (d d' : ProgressData) (moduleId : string) :
  modules d = modules d' -> getModuleProgress d moduleId = getModuleProgress d' moduleId.
Proof. intros E. unfold getModuleProgress. now rewrite E. Qed.

Lemma getOverallProgress_modules (d d' : ProgressData) :
  modules d = modules d' -> getOverallProgress d = getOverallProgress d'.
Proof.
  intros E. unfold getOverallProgress. rewrite E.
  assert (H : forall l : list (string * ModuleData),
    foldr (fun kv acc => (fst acc + getModuleProgress d (fst kv), snd acc + 1)) (0, 0) l
    = foldr (fun kv acc => (fst acc + getModuleProgress d' (fst kv), snd acc + 1)) (0, 0) l).
  { induction l as [| kv l IH]; simpl; [reflexivity |].
    rewrite IH. now rewrite (getModuleProgress_modules d d' (fst kv) E). }
  now rewrite H.
Qed.

Lemma markSectionComplete_unknown (now moduleId sectionId : string) (d : ProgressData) :
  modules d !! moduleId = None -> markSectionComplete now moduleId sectionId d = d.
Proof. intros E. unfold markSectionComplete. now rewrite E. Qed.

Lemma markSectionComplete_modules (now moduleId sectionId : string)
    (d : ProgressData) (m : ModuleData) :
  modules d !! moduleId = Some m ->
  modules (markSectionComplete now moduleId sectionId d)
    = <[moduleId := Entry.marked moduleId sectionId m]> (modules d).
Proof.
  intros E. unfold markSectionComplete. rewrite E, modules_save.
  unfold _checkModuleCompletion, set_modules. cbn [modules].
  rewrite lookup_insert_eq. cbn [sectionsCompleted quizScore quizAttempts].
  unfold Entry.marked, Entry.autoComplete, Entry.withSection, Entry.quizPassed.
  cbn [sectionsCompleted quizScore quizAttempts status].
  match goal with |- context [if ?c then _ else _] =>
    match c with (_ && _)%bool => destruct c end end;
    cbn [modules]; rewrite ?insert_insert_eq; destruct (status m); reflexivity.
Qed.

Lemma saveQuizScore_unknown (now moduleId : string) (score : Z) (d : ProgressData) :
  modules d !! moduleId = None -> saveQuizScore now moduleId score d = d.
Proof. intros E. unfold saveQuizScore. now rewrite E. Qed.

Lemma saveQuizScore_modules (now moduleId : string) (score : Z)
    (d : ProgressData) (m : ModuleData) :
  modules d !! moduleId = Some m ->
  modules (saveQuizScore now moduleId score d)
    = <[moduleId := Entry.scored score m]> (modules d).
Proof.
  intros E. unfold saveQuizScore. rewrite E, modules_save.
  destruct (status m) eqn:Est; unfold Entry.scored; rewrite Est; reflexivity.
Qed.

Lemma save_overall (now : string) (d : ProgressData) :
  overallProgress (save now d) = getOverallProgress (save now d).
Proof. unfold save. cbn [overallProgress]. now apply getOverallProgress_modules. Qed.

Lemma checkModuleCompletion_header (moduleId : string) (d : ProgressData) :
  version (_checkModuleCompletion moduleId d) = version d
  /\ startedAt (_checkModuleCompletion moduleId d) = startedAt d.
Proof.
  unfold _checkModuleCompletion. destruct (modules d !! moduleId); [| now split].
  now destruct (_ && _)%bool.
Qed.

Lemma markSectionComplete_header (now moduleId sectionId : string) (d : ProgressData) :
  version (markSectionComplete now moduleId sectionId d) = version d
  /\ startedAt (markSectionComplete now moduleId sectionId d) = startedAt d.
Proof.
  unfold markSectionComplete. destruct (modules d !! moduleId); [| now split].
  unfold save. cbn [version startedAt].
  match goal with |- context [_checkModuleCompletion _ ?x] =>
    destruct (checkModuleCompletion_header moduleId x) as [-> ->] end.
  now split.
Qed.

Lemma markSectionComplete_overall (now moduleId sectionId : string)
    (d : ProgressData) (m : ModuleData) :
  modules d !! moduleId = Some m ->
  overallProgress (markSectionComplete now moduleId sectionId d)
    = getOverallProgress (markSectionComplete now moduleId sectionId d).
Proof. intros E. unfold markSectionComplete. rewrite E. apply save_overall. Qed.

(** *** One module entry *)

Lemma withSection_elem (sectionId : string) (m : ModuleData) :
  sectionId ∈ sectionsCompleted (Entry.withSection sectionId m).
Proof.
  unfold Entry.withSection. cbn [sectionsCompleted].
  case_bool_decide as H; [exact H |]. apply elem_of_app. right. now apply list_elem_of_singleton.
Qed.

Lemma withSection_NoDup (sectionId : string) (m : ModuleData) :
  NoDup (sectionsCompleted m) -> NoDup (sectionsCompleted (Entry.withSection sectionId m)).
Proof.
  intros H. unfold Entry.withSection. cbn [sectionsCompleted].
  case_bool_decide as Hin; [exact H |].
  apply NoDup_app. split; [exact H |]. split.
  - intros x Hx Hx'. apply list_elem_of_singleton in Hx'. now subst.
  - apply NoDup_singleton.
Qed.

Lemma autoComplete_sections (moduleId : string) (m : ModuleData) :
  sectionsCompleted (Entry.autoComplete moduleId m) = sectionsCompleted m.
Proof. unfold Entry.autoComplete. now destruct (_ && _)%bool. Qed.

Lemma autoComplete_score (moduleId : string) (m : ModuleData) :
  quizScore (Entry.autoComplete moduleId m) = quizScore m.
Proof. unfold Entry.autoComplete. now destruct (_ && _)%bool. Qed.

Lemma autoComplete_idem (moduleId : string) (m : ModuleData) :
  Entry.autoComplete moduleId (Entry.autoComplete moduleId m)
    = Entry.autoComplete moduleId m.
Proof.
  unfold Entry.autoComplete at 2.
  destruct (_ && _)%bool eqn:E.
  - unfold Entry.autoComplete, Entry.quizPassed in *. cbn [sectionsCompleted quizScore] in *.
    now rewrite E.
  - unfold Entry.autoComplete. now rewrite E.
Qed.

Lemma autoComplete_keeps_completed (moduleId : string) (m : ModuleData) :
  status m = Completed -> status (Entry.autoComplete moduleId m) = Completed.
Proof. intros H. unfold Entry.autoComplete. now destruct (_ && _)%bool. Qed.

(** A section already recorded in an entry that has been started:
    nothing to add, nothing to promote. *)
Lemma withSection_fixed (sectionId : string) (m : ModuleData) :
  sectionId ∈ sectionsCompleted m -> status m <> NotStarted ->
  Entry.withSection sectionId m = m.
Proof.
  intros Hin Hst. unfold Entry.withSection.
  rewrite bool_decide_eq_true_2 by exact Hin.
  destruct m as [st secs sc att]. cbn in *. now destruct st.
Qed.

Lemma marked_idem (moduleId sectionId : string) (m : ModuleData) :
  Entry.marked moduleId sectionId (Entry.marked moduleId sectionId m)
    = Entry.marked moduleId sectionId m.
Proof.
  unfold Entry.marked.
  rewrite (withSection_fixed sectionId (Entry.autoComplete _ _)).
  - apply autoComplete_idem.
  - rewrite autoComplete_sections. apply withSection_elem.
  - unfold Entry.autoComplete. destruct (_ && _)%bool; cbn; [discriminate |].
    now destruct (status m).
Qed.

Lemma marked_keeps_completed (moduleId sectionId : string) (m : ModuleData) :
  status m = Completed -> status (Entry.marked moduleId sectionId m) = Completed.
Proof.
  intros H. unfold Entry.marked. apply autoComplete_keeps_completed.
  unfold Entry.withSection. cbn. now rewrite H.
Qed.

Lemma scored_keeps_completed (score : Z) (m : ModuleData) :
  status m = Completed -> status (Entry.scored score m) = Completed.
Proof. intros H. unfold Entry.scored. cbn. rewrite H. now destruct (Z.leb 70 score). Qed.

(** C7. [markSectionComplete] is idempotent: a second call with the same
    ids leaves every module entry (hence the completed sections of the
    module), the overall percentage, the version and the start time as the
    first call left them; and a list of completed sections without
    duplicates stays without duplicates. *)
Theorem markSectionComplete_idempotent
    (now1 now2 moduleId sectionId : string) (d : ProgressData) :
  let once := markSectionComplete now1 moduleId sectionId d in
  let twice := markSectionComplete now2 moduleId sectionId once in
  modules twice = modules once
  /\ overallProgress twice = overallProgress once
  /\ version twice = version once
  /\ startedAt twice = startedAt once
  /\ (forall m, modules d !! moduleId = Some m -> NoDup (sectionsCompleted m) ->
      exists m1, modules once !! moduleId = Some m1
                 /\ sectionId ∈ sectionsCompleted m1
                 /\ NoDup (sectionsCompleted m1)).
Proof.
  intros once twice. subst once twice.
  destruct (modules d !! moduleId) as [m|] eqn:E.
  - pose proof (markSectionComplete_modules now1 moduleId sectionId d m E) as H1.
    set (once := markSectionComplete now1 moduleId sectionId d) in *.
    assert (E1 : modules once !! moduleId = Some (Entry.marked moduleId sectionId m)).
    { rewrite H1. apply lookup_insert_eq. }
    pose proof (markSectionComplete_modules now2 moduleId sectionId once _ E1) as H2.
    assert (Hmods : modules (markSectionComplete now2 moduleId sectionId once) = modules once).
    { rewrite H2, marked_idem, H1. apply insert_insert_eq. }
    split; [exact Hmods |]. split; [| split; [| split]].
    + rewrite (markSectionComplete_overall now2 _ _ once _ E1).
      subst once. rewrite (markSectionComplete_overall now1 _ _ d _ E).
      now apply getOverallProgress_modules.
    + rewrite (proj1 (markSectionComplete_header now2 _ _ once)). reflexivity.
    + rewrite (proj2 (markSectionComplete_header now2 _ _ once)). reflexivity.
    + intros m0 Hm0 Hnd. injection Hm0 as <-. eexists. split; [exact E1 |].
      unfold Entry.marked. rewrite autoComplete_sections. split.
      * apply withSection_elem.
      * now apply withSection_NoDup.
  - rewrite (markSectionComplete_unknown now1 _ _ _ E).
    rewrite (markSectionComplete_unknown now2 _ _ _ E).
    repeat split; try reflexivity. intros m Hm. discriminate Hm.
Qed.

Lemma markSectionComplete_idempotent_witness :
  let d := markSectionComplete "t0" "module2" "s1" (createDefault "t0" "t0") in
  let once := markSectionComplete "t1" "module2" "s2" d in
  let twice := markSectionComplete "t2" "module2" "s2" once in
  modules twice = modules once
  /\ exists m1, modules once !! "module2" = Some m1
                /\ "s2" ∈ sectionsCompleted m1
                /\ NoDup (sectionsCompleted m1).
Proof.
  intros d once twice.
  destruct (markSectionComplete_idempotent "t1" "t2" "module2" "s2" d)
    as (Hm & _ & _ & _ & Hnd).
  split; [exact Hm |].
  apply (Hnd (mkModuleData InProgress ["s1"] None 0)).
  - vm_compute. reflexivity.
  - cbn. apply NoDup_singleton.
Defined.

(** *** Status [completed] *)

Lemma getModuleStatus_lookup (d : ProgressData) (moduleId : string) (m : ModuleData) :
  modules d !! moduleId = Some m -> getModuleStatus d moduleId = status m.
Proof. intros E. unfold getModuleStatus. now rewrite E. Qed.

Lemma createDefault_lookup (t1 t2 moduleId : string) (m : ModuleData) :
  modules (createDefault t1 t2) !! moduleId = Some m -> m = defaultModule.
Proof.
  revert moduleId m. change (map_Forall (fun _ m => m = defaultModule)
                               (modules (createDefault t1 t2))).
  unfold createDefault, moduleKeys. cbn [modules foldl].
  repeat (apply map_Forall_insert_2; [reflexivity |]).
  apply map_Forall_empty.
Qed.

Lemma marked_scored_commute (moduleId sectionId : string) (score : Z) (m : ModuleData) :
  70 <= score ->
  Entry.marked moduleId sectionId (Entry.scored score m)
    = Entry.scored score (Entry.marked moduleId sectionId m).
Proof.
  intros Hs. apply Z.leb_le in Hs.
  unfold Entry.marked, Entry.scored, Entry.autoComplete, Entry.withSection.
  cbn [status sectionsCompleted quizScore quizAttempts]. rewrite Hs.
  cbn [Entry.promote].
  repeat match goal with |- context [if ?c then _ else _] =>
    match c with (_ && _)%bool => destruct c end end; reflexivity.
Qed.

(** C2. Auto-completion does not depend on the order: from a module
    with all sections but one completed, saving a score of at least 70
    and marking the last section lead, in either order, to the same
    module entry; its status is [completed], all the declared sections
    are recorded and the latest score is the passing one. *)
Theorem autocompletion_order_independent
    (now1 now2 now3 now4 moduleId lastSectionId : string) (s : Z)
    (d : ProgressData) (m : ModuleData) :
  modules d !! moduleId = Some m ->
  Z.of_nat (length (sectionsCompleted m)) = totalSectionsFor moduleId - 1 ->
  lastSectionId ∉ sectionsCompleted m ->
  70 <= s ->
  let quizFirst :=
    markSectionComplete now2 moduleId lastSectionId (saveQuizScore now1 moduleId s d) in
  let sectionsFirst :=
    saveQuizScore now4 moduleId s (markSectionComplete now3 moduleId lastSectionId d) in
  getModuleStatus quizFirst moduleId = Completed
  /\ getModuleStatus sectionsFirst moduleId = Completed
  /\ modules quizFirst = modules sectionsFirst
  /\ exists m', modules quizFirst !! moduleId = Some m'
       /\ Z.of_nat (length (sectionsCompleted m')) = totalSectionsFor moduleId
       /\ quizScore m' = Some s.
Proof.
  intros E Hlen Hnew Hs quizFirst sectionsFirst.
  pose proof (saveQuizScore_modules now1 moduleId s d m E) as Hq1.
  assert (Eq1 : modules (saveQuizScore now1 moduleId s d) !! moduleId
                = Some (Entry.scored s m)) by (rewrite Hq1; apply lookup_insert_eq).
  pose proof (markSectionComplete_modules now2 moduleId lastSectionId _ _ Eq1) as Hq2.
  pose proof (markSectionComplete_modules now3 moduleId lastSectionId d m E) as Hs1.
  assert (Es1 : modules (markSectionComplete now3 moduleId lastSectionId d) !! moduleId
                = Some (Entry.marked moduleId lastSectionId m))
    by (rewrite Hs1; apply lookup_insert_eq).
  pose proof (saveQuizScore_modules now4 moduleId s _ _ Es1) as Hs2.
  fold quizFirst in Hq2. fold sectionsFirst in Hs2.
  rewrite Hq1, insert_insert_eq in Hq2. rewrite Hs1, insert_insert_eq in Hs2.
  rewrite (marked_scored_commute _ _ _ _ Hs) in Hq2.
  set (m' := Entry.scored s (Entry.marked moduleId lastSectionId m)) in *.
  assert (Hst : status m' = Completed).
  { subst m'. unfold Entry.scored. cbn [status]. apply Z.leb_le in Hs. now rewrite Hs. }
  assert (Eq : modules quizFirst !! moduleId = Some m') by (rewrite Hq2; apply lookup_insert_eq).
  assert (Es : modules sectionsFirst !! moduleId = Some m') by (rewrite Hs2; apply lookup_insert_eq).
  split; [now rewrite (getModuleStatus_lookup _ _ _ Eq) |].
  split; [now rewrite (getModuleStatus_lookup _ _ _ Es) |].
  split; [now rewrite Hq2, Hs2 |].
  exists m'. split; [exact Eq |]. split; [| reflexivity].
  subst m'. unfold Entry.scored, Entry.marked. cbn [sectionsCompleted].
  rewrite autoComplete_sections. unfold Entry.withSection. cbn [sectionsCompleted].
  rewrite bool_decide_eq_false_2 by exact Hnew.
  rewrite length_app. cbn [length]. lia.
Qed.

Lemma autocompletion_order_independent_witness :
  let nine := ["sec-1"; "sec-2"; "sec-3"; "sec-4"; "sec-5"; "sec-6"; "sec-7"; "sec-8"; "sec-9"] in
  let d := foldl (fun d sec => markSectionComplete "t0" "module1" sec d)
                 (createDefault "t0" "t0") nine in
  getModuleStatus d "module1" = InProgress
  /\ getModuleStatus
       (markSectionComplete "t2" "module1" "sec-10" (saveQuizScore "t1" "module1" 85 d))
       "module1" = Completed
  /\ getModuleStatus
       (saveQuizScore "t2" "module1" 85 (markSectionComplete "t1" "module1" "sec-10" d))
       "module1" = Completed.
Proof.
  intros nine d.
  assert (E : modules d !! "module1" = Some (mkModuleData InProgress nine None 0))
    by (vm_compute; reflexivity).
  assert (Hnew : "sec-10" ∉ nine).
  { intros Hin. apply list_elem_of_In in Hin. cbn in Hin.
    repeat (destruct Hin as [Hin | Hin]; [discriminate Hin |]). exact Hin. }
  destruct (autocompletion_order_independent "t1" "t2" "t1" "t2" "module1" "sec-10" 85
              d _ E eq_refl Hnew ltac:(lia)) as (H1 & H2 & _).
  split; [vm_compute; reflexivity |]. split; [exact H1 | exact H2].
Defined.

(** C10. A module whose status is [completed] keeps it through
    [markSectionComplete] and [saveQuizScore], whatever module, section or
    score (passing or not) they are called with, and through [save] and
    [_checkModuleCompletion]; [resetModule] and [resetAll] do take it back
    to [not-started]. *)
Theorem completed_is_kept (now moduleId : string) (d : ProgressData) (m : ModuleData) :
  modules d !! moduleId = Some m ->
  status m = Completed ->
  (forall otherId sectionId,
     getModuleStatus (markSectionComplete now otherId sectionId d) moduleId = Completed)
  /\ (forall otherId score,
       getModuleStatus (saveQuizScore now otherId score d) moduleId = Completed)
  /\ getModuleStatus (save now d) moduleId = Completed
  /\ (forall otherId,
       getModuleStatus (_checkModuleCompletion otherId d) moduleId = Completed)
  /\ getModuleStatus (resetModule now moduleId d) moduleId = NotStarted
  /\ (forall t1 t2, getModuleStatus (resetAll t1 t2 now d) moduleId = NotStarted).
Proof.
  intros E Hst.
  split; [| split; [| split; [| split; [| split]]]].
  - intros otherId sectionId.
    destruct (modules d !! otherId) as [m0|] eqn:E0.
    + unfold getModuleStatus. rewrite (markSectionComplete_modules _ _ _ _ _ E0).
      destruct (decide (otherId = moduleId)) as [-> | Hne].
      * rewrite lookup_insert_eq. rewrite E in E0. injection E0 as <-.
        now apply marked_keeps_completed.
      * rewrite lookup_insert_ne by exact Hne. now rewrite E.
    + rewrite (markSectionComplete_unknown _ _ _ _ E0).
      now rewrite (getModuleStatus_lookup _ _ _ E).
  - intros otherId score.
    destruct (modules d !! otherId) as [m0|] eqn:E0.
    + unfold getModuleStatus. rewrite (saveQuizScore_modules _ _ _ _ _ E0).
      destruct (decide (otherId = moduleId)) as [-> | Hne].
      * rewrite lookup_insert_eq. rewrite E in E0. injection E0 as <-.
        now apply scored_keeps_completed.
      * rewrite lookup_insert_ne by exact Hne. now rewrite E.
    + rewrite (saveQuizScore_unknown _ _ _ _ E0).
      now rewrite (getModuleStatus_lookup _ _ _ E).
  - unfold getModuleStatus. rewrite modules_save. now rewrite E.
  - intros otherId. unfold getModuleStatus, _checkModuleCompletion.
    destruct (modules d !! otherId) as [m0|] eqn:E0; [| now rewrite E].
    destruct (_ && _)%bool; [| now rewrite E].
    unfold set_modules. cbn [modules].
    destruct (decide (otherId = moduleId)) as [-> | Hne].
    + now rewrite lookup_insert_eq.
    + rewrite lookup_insert_ne by exact Hne. now rewrite E.
  - unfold getModuleStatus, resetModule. rewrite E, modules_save.
    unfold set_modules. cbn [modules]. now rewrite lookup_insert_eq.
  - intros t1 t2. unfold getModuleStatus, resetAll. rewrite modules_save.
    destruct (modules (createDefault t1 t2) !! moduleId) as [m0|] eqn:E0; [| reflexivity].
    now rewrite (createDefault_lookup _ _ _ _ E0).
Qed.

Lemma completed_is_kept_witness :
  let d := saveQuizScore "t0" "module3" 90 (createDefault "t0" "t0") in
  getModuleStatus d "module3" = Completed
  /\ getModuleStatus (saveQuizScore "t1" "module3" 20 d) "module3" = Completed
  /\ getModuleStatus (markSectionComplete "t1" "module3" "intro" d) "module3" = Completed
  /\ getModuleStatus (resetModule "t1" "module3" d) "module3" = NotStarted.
Proof.
  intros d.
  assert (E : modules d !! "module3" = Some (mkModuleData Completed [] (Some 90) 1))
    by (vm_compute; reflexivity).
  destruct (completed_is_kept "t1" "module3" d _ E eq_refl) as (Hm & Hq & _ & _ & Hr & _).
  split; [vm_compute; reflexivity |].
  split; [apply Hq |]. split; [apply Hm | exact Hr].
Defined.

End ProgressUpdates.

(** ** Loading the stored record *)

Section Loading.
Import Progress.

Variable JSON_parse : string -> JS.completion JS.value.

Lemma load_default_when (t1 t2 text : string) (parsed : JS.value) :
  JSON_parse text = JS.Return parsed ->
  JS.get parsed "version" <> JS.Return (JS.VStr CURRENT_VERSION) ->
  load JSON_parse t1 t2 (JS.Return (Some text)) = dataValue (createDefault t1 t2).
Proof.
  intros Hp Hv. unfold load, load_try. cbn [JS.bind].
  case_bool_decide; [reflexivity |]. rewrite Hp. cbn [JS.bind].
  destruct (JS.get parsed "version") as [ver|]; [| reflexivity]. cbn [JS.bind].
  destruct (JS.falsy ver || versionDiffers ver)%bool eqn:E; [reflexivity |].
  apply orb_false_elim in E as [_ E]. exfalso. apply Hv.
  destruct ver; try discriminate E. cbn in E.
  apply negb_false_iff, bool_decide_eq_true in E. now subst.
Qed.

Lemma createDefault_modules (t1 t2 : string) :
  Forall (fun k => modules (createDefault t1 t2) !! k
                   = Some (mkModuleData NotStarted [] None 0)) moduleKeys.
Proof.
  unfold moduleKeys.
  repeat (apply Forall_cons; split; [vm_compute; reflexivity |]).
  apply Forall_nil_2.
Qed.

Lemma createDefault_keys (t1 t2 : string) :
  map_Forall (fun k _ => k ∈ moduleKeys) (modules (createDefault t1 t2)).
Proof.
  unfold createDefault. cbn [modules]. unfold moduleKeys at 2. cbn [foldl].
  repeat (apply map_Forall_insert_2;
          [apply list_elem_of_In; cbn; repeat (first [left; reflexivity | right]) |]).
  apply map_Forall_empty.
Qed.

Lemma createDefault_unknown (t1 t2 k : string) :
  k ∉ moduleKeys -> modules (createDefault t1 t2) !! k = None.
Proof.
  intros Hk. destruct (modules (createDefault t1 t2) !! k) eqn:E; [| reflexivity].
  apply createDefault_keys in E. contradiction.
Qed.

(** C8. A stored record whose version is not the expected one is
    discarded whole: [load] returns the record [createDefault] makes, in
    which exactly the ten known modules are present, each [not-started]
    with no completed section, no score and no attempt. *)
Theorem load_version_mismatch (t_started t_updated text : string) (parsed : JS.value) :
  JSON_parse text = JS.Return parsed ->
  JS.get parsed "version" <> JS.Return (JS.VStr CURRENT_VERSION) ->
  load JSON_parse t_started t_updated (JS.Return (Some text))
    = dataValue (createDefault t_started t_updated)
  /\ (forall k, k ∉ moduleKeys -> modules (createDefault t_started t_updated) !! k = None)
  /\ Forall (fun k => modules (createDefault t_started t_updated) !! k
                      = Some (mkModuleData NotStarted [] None 0)) moduleKeys.
Proof.
  intros Hp Hv. split; [now apply (load_default_when _ _ _ parsed) |].
  split; [intros k; apply createDefault_unknown | apply createDefault_modules].
Qed.

(** The guard [if (!parsed.modules)]: a record of the expected version
    without a [modules] object is discarded as well. *)
Lemma load_default_without_modules (t1 t2 text : string) (top : gmap string JS.value) :
  JSON_parse text = JS.Return (JS.VObj top) ->
  top !! "version" = Some (JS.VStr CURRENT_VERSION) ->
  (forall v, top !! "modules" = Some v -> JS.falsy v = true) ->
  load JSON_parse t1 t2 (JS.Return (Some text)) = dataValue (createDefault t1 t2).
Proof.
  intros Hp Hv Hm. unfold load, load_try. cbn [JS.bind].
  case_bool_decide; [reflexivity |]. rewrite Hp. cbn [JS.bind JS.get]. rewrite Hv.
  cbn [JS.falsy versionDiffers].
  rewrite (bool_decide_eq_false_2 (CURRENT_VERSION = "")) by discriminate.
  rewrite (bool_decide_eq_true_2 (CURRENT_VERSION = CURRENT_VERSION)) by reflexivity.
  cbn [negb orb JS.bind].
  destruct (top !! "modules") as [v|] eqn:E.
  - now rewrite (Hm v eq_refl).
  - reflexivity.
Qed.

(** *** Repair of the known module keys *)

Lemma defaultModule_sections :
  JS.get (moduleValue defaultModule) "sectionsCompleted" = JS.Return (JS.VArr [] ∅).
Proof. vm_compute. reflexivity. Qed.

Lemma defaultModule_truthy : JS.falsy (moduleValue defaultModule) = false.
Proof. reflexivity. Qed.

Lemma repairModule_replaces (mods : gmap string JS.value) (key : string) (entry : JS.value) :
  JS.get (JS.VObj mods) key = JS.Return entry ->
  JS.falsy entry = true ->
  repairModule (JS.VObj mods) key
    = JS.Return (JS.VObj (<[key := moduleValue defaultModule]> mods)).
Proof.
  intros Hget Hf. unfold repairModule. rewrite Hget. cbn [JS.bind]. rewrite Hf.
  cbn [JS.set JS.bind JS.get]. rewrite lookup_insert_eq.
  rewrite defaultModule_sections. cbn [JS.bind JS.isArray]. reflexivity.
Qed.

Lemma repairModule_object (mods : gmap string JS.value) (key : string) :
  Spec.repairable (mods !! key) ->
  repairModule (JS.VObj mods) key
    = JS.Return (JS.VObj (<[key := Spec.repairedEntry (mods !! key)]> mods)).
Proof.
  intros Hwf. destruct (mods !! key) as [v|] eqn:E.
  - destruct (JS.falsy v) eqn:Hf.
    + rewrite (repairModule_replaces mods key v); [| cbn; now rewrite E | exact Hf].
      unfold Spec.repairedEntry. now rewrite Hf.
    + unfold Spec.repairedEntry. rewrite Hf.
      unfold repairModule. cbn [JS.get JS.bind]. rewrite E, Hf. cbn [JS.get JS.bind]. rewrite E.
      destruct Hwf as [Hwf | [[props ->] | [elems [props ->]]]]; [congruence | |].
      * cbn [JS.get JS.bind].
        destruct (props !! "sectionsCompleted") as [[]|]; cbn [JS.isArray JS.set JS.bind];
          rewrite ?(insert_id mods key _ E); reflexivity.
      * cbn [JS.get JS.bind].
        destruct (props !! "sectionsCompleted") as [[]|]; cbn [JS.isArray JS.set JS.bind];
          rewrite ?(insert_id mods key _ E); reflexivity.
  - rewrite (repairModule_replaces mods key JS.VUndefined); [| cbn; now rewrite E | reflexivity].
    reflexivity.
Qed.

Lemma repairModules_object (keys : list string) :
  NoDup keys ->
  forall mods : gmap string JS.value,
    (forall k, k ∈ keys -> Spec.repairable (mods !! k)) ->
    exists mods' : gmap string JS.value,
      repairModules (JS.VObj mods) keys = JS.Return (JS.VObj mods')
      /\ (forall k, k ∈ keys -> mods' !! k = Some (Spec.repairedEntry (mods !! k)))
      /\ (forall k, k ∉ keys -> mods' !! k = mods !! k).
Proof.
  induction 1 as [| key rest Hnotin Hnd IH]; intros mods Hwf.
  - exists mods. split; [reflexivity |]. split; [| reflexivity].
    intros k Hk. apply elem_of_nil in Hk. contradiction.
  - cbn [repairModules].
    rewrite repairModule_object by (apply Hwf; left). cbn [JS.bind].
    set (mods1 := <[key := Spec.repairedEntry (mods !! key)]> mods).
    assert (Hother : forall k, k ∈ rest -> mods1 !! k = mods !! k).
    { intros k Hk. subst mods1. apply lookup_insert_ne. intros ->. contradiction. }
    destruct (IH mods1) as (mods' & Hrun & Hin & Hout).
    { intros k Hk. rewrite (Hother k Hk). apply Hwf. now right. }
    exists mods'. split; [exact Hrun |]. split.
    + intros k Hk. apply elem_of_cons in Hk as [-> | Hk].
      * rewrite (Hout key Hnotin). subst mods1. apply lookup_insert_eq.
      * rewrite (Hin k Hk). now rewrite (Hother k Hk).
    + intros k Hk. apply not_elem_of_cons in Hk as [Hne Hk].
      rewrite (Hout k Hk). subst mods1. now apply lookup_insert_ne.
Qed.

Lemma moduleKeys_NoDup : NoDup moduleKeys.
Proof.
  unfold moduleKeys.
  repeat (apply NoDup_cons_2;
          [intros Hin; apply list_elem_of_In in Hin; cbn in Hin;
           repeat (destruct Hin as [Hin | Hin]; [discriminate Hin |]); exact Hin |]).
  apply NoDup_nil_2.
Qed.

(** C9, amended. A stored record of the expected version whose [modules]
    is an object, and in which each known module key is missing, holds a
    falsy value or holds an object, is repaired in place: [load] returns
    it with the default entry at the known keys that were missing, an
    empty [sectionsCompleted] where that field was not an array, and
    everything else as stored. *)
Theorem load_repairs_in_place (t_started t_updated text : string)
    (top mods : gmap string JS.value) :
  text <> "" ->
  JSON_parse text = JS.Return (JS.VObj top) ->
  top !! "version" = Some (JS.VStr CURRENT_VERSION) ->
  top !! "modules" = Some (JS.VObj mods) ->
  (forall k, k ∈ moduleKeys -> Spec.repairable (mods !! k)) ->
  Spec.repairedInPlace (JS.VObj top)
    (load JSON_parse t_started t_updated (JS.Return (Some text))).
Proof.
  intros Htext Hp Hv Hm Hwf.
  destruct (repairModules_object moduleKeys moduleKeys_NoDup mods Hwf)
    as (mods' & Hrun & Hin & Hout).
  exists top, mods, mods'. split; [reflexivity |]. split; [exact Hm |].
  split; [| split; assumption].
  unfold load, load_try. cbn [JS.bind].
  rewrite bool_decide_eq_false_2 by exact Htext.
  rewrite Hp. cbn [JS.bind JS.get]. rewrite Hv, Hm.
  cbn [JS.falsy versionDiffers].
  rewrite (bool_decide_eq_false_2 (CURRENT_VERSION = "")) by discriminate.
  rewrite (bool_decide_eq_true_2 (CURRENT_VERSION = CURRENT_VERSION)) by reflexivity.
  cbn [negb orb JS.bind JS.falsy]. rewrite Hrun. reflexivity.
Qed.

End Loading.

(** *** Stored records, worked out *)

Section StoredRecords.
Import Progress Stored.

Lemma load_version_mismatch_witness :
  load (parsesTo olderRecord) "t1" "t2" (JS.Return (Some "stored"))
    = dataValue (createDefault "t1" "t2").
Proof.
  apply (load_version_mismatch (parsesTo olderRecord) "t1" "t2" "stored" olderRecord).
  - reflexivity.
  - vm_compute. intros H. discriminate H.
Defined.

Lemma load_repairs_in_place_witness :
  let loaded := load (parsesTo gappedRecord) "t1" "t2" (JS.Return (Some "stored")) in
  Spec.repairedInPlace gappedRecord loaded
  /\ moduleOf loaded "module1" = moduleOf gappedRecord "module1"
  /\ moduleOf loaded "module2" = JS.Return (moduleValue defaultModule)
  /\ moduleOf loaded "module3"
     = JS.Return (object [ ("status", JS.VStr "in-progress");
                           ("sectionsCompleted", JS.VArr [] ∅);
                           ("quizScore", JS.VNull);
                           ("quizAttempts", numZ 0) ]).
Proof.
  intros loaded. split.
  - unfold gappedRecord at 1, object at 1.
    eapply (load_repairs_in_place (parsesTo gappedRecord) "t1" "t2" "stored").
    + discriminate.
    + reflexivity.
    + vm_compute. reflexivity.
    + instantiate (1 := list_to_map [
        ("module1", moduleValue (mkModuleData Completed ["s1"] (Some 90) 1));
        ("module3", object [ ("status", JS.VStr "in-progress");
                             ("sectionsCompleted", JS.VNull);
                             ("quizScore", JS.VNull);
                             ("quizAttempts", numZ 0) ]) ]).
      vm_compute. reflexivity.
    + intros k Hk. apply list_elem_of_In in Hk. cbn in Hk.
      repeat (destruct Hk as [<- | Hk];
              [vm_compute; first [exact I | right; left; eexists; reflexivity] |]).
      contradiction.
  - repeat split; vm_compute; reflexivity.
Defined.

(** C9, as stated, fails: [brokenRecord] has the expected version, and
    what it holds for [module2] has no array of completed sections; the
    assignment that would repair it throws on a number, and [load]
    answers with the default record: [module1], stored as completed,
    comes back not started. *)
Lemma load_discards_broken_record :
  let loaded := load (parsesTo brokenRecord) "t1" "t2" (JS.Return (Some "stored")) in
  JS.get brokenRecord "version" = JS.Return (JS.VStr CURRENT_VERSION)
  /\ moduleOf brokenRecord "module1"
     = JS.Return (moduleValue (mkModuleData Completed ["s1"] (Some 90) 1))
  /\ loaded = dataValue (createDefault "t1" "t2")
  /\ moduleOf loaded "module1" = JS.Return (moduleValue defaultModule)
  /\ ~ Spec.repairedInPlace brokenRecord loaded.
Proof.
  intros loaded.
  assert (Hl : loaded = dataValue (createDefault "t1" "t2")) by (vm_compute; reflexivity).
  assert (H1 : moduleOf loaded "module1" = JS.Return (moduleValue defaultModule))
    by (vm_compute; reflexivity).
  split; [vm_compute; reflexivity |]. split; [vm_compute; reflexivity |].
  split; [exact Hl |]. split; [exact H1 |].
  intros (top & mods & mods' & Hs & Hm & Hr & Hin & _).
  assert (Hmods : mods !! "module1"
                  = Some (moduleValue (mkModuleData Completed ["s1"] (Some 90) 1))).
  { unfold brokenRecord, object in Hs. injection Hs as <-.
    vm_compute in Hm. injection Hm as <-. vm_compute. reflexivity. }
  specialize (Hin "module1").
  rewrite Hmods in Hin.
  assert (Hk : "module1" ∈ moduleKeys) by (apply list_elem_of_In; left; reflexivity).
  specialize (Hin Hk).
  rewrite Hr in H1. unfold moduleOf in H1. cbn [JS.get JS.bind] in H1.
  rewrite lookup_insert_eq in H1. cbn [JS.bind JS.get] in H1. rewrite Hin in H1.
  apply (f_equal (fun c => match c with
                           | JS.Return v => JS.get v "status"
                           | JS.Throw => JS.Throw
                           end)) in H1.
  vm_compute in H1. discriminate H1.
Qed.

End StoredRecords.

(** ** Checking an answer *)

Section CheckAnswer.
Import Quiz.

Lemma array_set_lookup (arr : list Slot) (i : nat) (x : Slot) :
  array_set arr i x !! i = Some x.
Proof.
  unfold array_set. destruct (Nat.ltb_spec i (length arr)) as [Hlt | Hge].
  - now apply list_lookup_insert_eq.
  - rewrite lookup_app_r by exact Hge.
    rewrite lookup_app_r by (rewrite length_replicate; lia).
    rewrite length_replicate. now rewrite Nat.sub_diag.
Qed.

Lemma allPairsCorrect_spec (matched : gmap string string) (entries : list (string * string)) :
  allPairsCorrect matched entries = true
  <-> forall s t, (s, t) ∈ entries -> matched !! s = Some t.
Proof.
  induction entries as [| [s0 t0] rest IH]; cbn [allPairsCorrect].
  - split; [| reflexivity]. intros _ s t H. apply elem_of_nil in H. contradiction.
  - case_bool_decide as H0.
    + rewrite IH. split.
      * intros Hrest s t Hin. apply elem_of_cons in Hin as [[= -> ->] | Hin]; auto.
      * intros Hall s t Hin. apply Hall. now right.
    + split; [discriminate |]. intros Hall. exfalso. apply H0, Hall. now left.
Qed.

Lemma checkDragMatch_subset (matched correctPairs : gmap string string) :
  _checkDragMatch matched correctPairs = true <-> correctPairs ⊆ matched.
Proof.
  unfold _checkDragMatch. rewrite allPairsCorrect_spec, map_subseteq_spec.
  split; intros H s t Hin.
  - apply H. now apply elem_of_map_to_list.
  - apply H. now apply elem_of_map_to_list in Hin.
Qed.


(** Only the sources of the correct mapping are looked at: a pair whose
    source is not one of them would go unnoticed.  The handlers take the
    source id from a rendered source of the question, hence the premise
    on the matched pairs in the statements below. *)
Lemma checkDragMatch_other_source :
  let matched := <["s9" := "t1"]> Sample.theoristIdeas in
  _checkDragMatch matched Sample.theoristIdeas = true
  /\ matched <> Sample.theoristIdeas.
Proof.
  intros matched. split.
  - apply checkDragMatch_subset. apply insert_subseteq. vm_compute. reflexivity.
  - intros H. apply (f_equal (fun m : gmap string string => m !! "s9")) in H.
    vm_compute in H. discriminate H.
Qed.




(** *** Checking with nothing selected *)




End CheckAnswer.

(** ** Moving on *)

Section NextQuestion.
Import Quiz.

(** C6, as stated, fails: on the first of two questions, not checked,
    [nextQuestion] is not a no-op: it moves on to the second question. *)
Lemma nextQuestion_without_check_advances :
  let p := Sample.pageOf None [Sample.choiceA; Sample.choiceB] in
  hasChecked (engine p) = false
  /\ currentQuestionIndex (engine p) = 0%nat
  /\ nextQuestion "t1" p <> Done p
  /\ exists p', nextQuestion "t1" p = Done p'
       /\ currentQuestionIndex (engine p') = 1%nat.
Proof.
  intros p. split; [reflexivity |]. split; [reflexivity |]. split.
  - intros H. apply (f_equal (fun o => currentQuestionIndex (engine (state_of o)))) in H.
    cbn in H. discriminate H.
  - eexists. split; reflexivity.
Qed.

(** C6, amended. [nextQuestion] has no guard: whether or not the current
    question has been checked, it leaves the answers and the score as they
    are and, while questions remain (the quiz not being complete), moves to
    the next one with the selection and the drag-match state reset and
    [hasChecked] false; on the last question it sets the completion flag,
    changes nothing else in the session, and hands the score percentage to
    the progress manager. *)
Theorem nextQuestion_unguarded (now : string) (p : Page) :
  let e := engine p in
  (currentQuestionIndex e + 1 < length (questions e))%nat /\ isComplete e = false
  \/ (currentQuestionIndex e + 1 = length (questions e))%nat ->
  exists p',
    nextQuestion now p = Done p'
    /\ answers (engine p') = answers e
    /\ score (engine p') = score e
    /\ questions (engine p') = questions e
    /\ ((currentQuestionIndex e + 1 < length (questions e))%nat ->
        currentQuestionIndex (engine p') = S (currentQuestionIndex e)
        /\ isComplete (engine p') = false
        /\ hasChecked (engine p') = false
        /\ selectedOptionId (engine p') = None
        /\ dragSelectedSource (engine p') = None
        /\ matchedPairs (engine p') = ∅
        /\ progressManager p' = progressManager p)
    /\ ((currentQuestionIndex e + 1 = length (questions e))%nat ->
        engine p'
          = mkQuizEngine (moduleId e) (questions e) (moduleTitle e) (passingScore e)
              (currentQuestionIndex e) (answers e) (score e) true
              (selectedOptionId e) (hasChecked e) (dragSelectedSource e) (matchedPairs e)
        /\ progressManager p'
           = Progress.saveQuizScore now (moduleId e) (scorePercent e)
               <$> progressManager p).
Proof.
  intros e [[Hlt Hinc] | Hlast].
  - unfold nextQuestion. fold e.
    destruct (Z.leb_spec (Z.of_nat (length (questions e)) - 1)
                (Z.of_nat (currentQuestionIndex e))) as [Hle | _]; [lia |].
    unfold render. cbn [engine questions isComplete currentQuestionIndex progressManager].
    destruct (Nat.eqb_spec (length (questions e)) 0) as [H0 | _]; [lia |].
    rewrite Hinc.
    destruct (lookup_lt_is_Some_2 (questions e) (S (currentQuestionIndex e))) as [q Hq];
      [lia |].
    rewrite Hq.
    destruct (isDragMatch q); eexists; (split; [reflexivity |]);
      cbn; (repeat split; try reflexivity; try lia).
  - unfold nextQuestion. fold e.
    destruct (Z.leb_spec (Z.of_nat (length (questions e)) - 1)
                (Z.of_nat (currentQuestionIndex e))) as [_ | Hgt]; [| lia].
    eexists. split; [reflexivity |]. cbn.
    repeat split; try reflexivity; try lia.
Qed.

Lemma nextQuestion_unguarded_witness :
  let p := Sample.pageOf None [Sample.choiceA; Sample.choiceB] in
  exists p' p'',
    nextQuestion "t1" p = Done p'
    /\ currentQuestionIndex (engine p') = 1%nat
    /\ nextQuestion "t2" p' = Done p''
    /\ isComplete (engine p'') = true
    /\ progressManager p''
       = Progress.saveQuizScore "t2" "module1" 0 <$> progressManager p.
Proof.
  intros p.
  destruct (nextQuestion_unguarded "t1" p) as (p' & Hrun & _ & _ & _ & Hadv & _).
  { left. cbn. split; [lia | reflexivity]. }
  destruct Hadv as (Hidx & _ & _ & _ & _ & _ & Hpm); [cbn; lia |].
  assert (Hp' : p' = state_of (nextQuestion "t1" p)) by now rewrite Hrun.
  destruct (nextQuestion_unguarded "t2" p') as (p'' & Hrun' & _ & _ & _ & _ & Hlast).
  { right. rewrite Hp'. reflexivity. }
  destruct Hlast as (He & Hpm'); [rewrite Hp'; reflexivity |].
  exists p', p''. split; [exact Hrun |]. split; [exact Hidx |]. split; [exact Hrun' |].
  split; [now rewrite He |].
  rewrite Hpm', Hpm. rewrite Hp'. reflexivity.
Defined.

End NextQuestion.

(** ** Sessions *)

Section Sessions.
Import Quiz Session.

Lemma correctCount_weight (slot : Slot) (rest : list Slot) :
  Spec.correctCount (slot :: rest) = weight slot + Spec.correctCount rest.
Proof. destruct slot; reflexivity. Qed.

Lemma correctCount_replicate_Null (n : nat) : Spec.correctCount (replicate n Null) = 0.
Proof. induction n as [| n IH]; [reflexivity | exact IH]. Qed.

Lemma correctCount_insert (arr : list Slot) (i : nat) (old new : Slot) :
  arr !! i = Some old ->
  Spec.correctCount (<[i := new]> arr) = Spec.correctCount arr - weight old + weight new.
Proof.
  revert i. induction arr as [| slot rest IH]; intros i Hi; [discriminate Hi |].
  destruct i as [| i].
  - injection Hi as ->.
    change (<[0%nat := new]> (old :: rest)) with (new :: rest).
    rewrite !correctCount_weight. lia.
  - change (<[S i := new]> (slot :: rest)) with (slot :: <[i := new]> rest).
    rewrite !correctCount_weight. rewrite (IH i Hi). lia.
Qed.

Lemma correctCount_bounds (arr : list Slot) :
  0 <= Spec.correctCount arr <= Z.of_nat (length arr).
Proof.
  induction arr as [| slot rest IH]; [cbn; lia |].
  rewrite correctCount_weight. cbn [length].
  assert (0 <= weight slot <= 1) by (destruct slot as [| | a]; cbn; try lia; destruct (correct a); lia).
  lia.
Qed.

Lemma consistent_start (entry : ModuleEntry) (pm : option Progress.ProgressData) :
  entryQuestions entry <> [] -> consistent (engine (start entry pm)).
Proof.
  intros Hne. constructor; cbn.
  - apply length_replicate.
  - destruct (entryQuestions entry); [contradiction | cbn; lia].
  - now rewrite correctCount_replicate_Null.
  - intros j _ Hj. now apply lookup_replicate_2.
Qed.

Lemma consistent_selectOption (optionId : string) (e : QuizEngine) :
  consistent e -> consistent (selectOption optionId e).
Proof.
  intros [Hs Hr Hc Hp]. unfold selectOption.
  destruct (hasChecked e) eqn:Hchk; [constructor; auto; now rewrite Hchk |].
  constructor; cbn; auto.
Qed.

Lemma consistent_matchPair (sourceId targetId : string) (e : QuizEngine) :
  consistent e -> consistent (matchPair sourceId targetId e).
Proof.
  intros H. pose proof H as [Hs Hr Hc Hp]. unfold matchPair.
  destruct (hasChecked e) eqn:Hchk; cbn [andb].
  - destruct (questions e !! currentQuestionIndex e) as [q|]; [| constructor; cbn; auto].
    destruct (isDragMatch q); [| constructor; cbn; auto].
    destruct (answers e !! currentQuestionIndex e) as [[| | a]|] eqn:Ea;
      try (constructor; cbn; auto; fail).
    constructor; cbn.
    + now rewrite length_insert.
    + exact Hr.
    + rewrite (correctCount_insert _ _ _ _ Ea). cbn. lia.
    + intros j [Hj | [_ Hj]] Hlen; [| congruence].
      rewrite list_lookup_insert_ne by lia. apply Hp; auto.
  - constructor; cbn; auto.
Qed.

Lemma consistent_dropOn (sourceId targetId : string) (e : QuizEngine) :
  consistent e -> consistent (dropOn sourceId targetId e).
Proof.
  intros H. unfold dropOn. destruct (isComplete e); [exact H |].
  destruct (questions e !! currentQuestionIndex e) as [[| |]|]; try exact H.
  destruct (_ && _)%bool; [now apply consistent_matchPair | exact H].
Qed.

Lemma consistent_checkAnswer (e : QuizEngine) :
  consistent e -> consistent (state_of (checkAnswer e)).
Proof.
  intros H. pose proof H as [Hs Hr Hc Hp]. unfold checkAnswer.
  destruct (hasChecked e) eqn:Hchk; [exact H |].
  destruct (questions e !! currentQuestionIndex e) as [q|] eqn:Hq; [| exact H].
  assert (Hnull : answers e !! currentQuestionIndex e = Some Null) by (apply Hp; auto).
  assert (Hset : forall x, array_set (answers e) (currentQuestionIndex e) x
                           = <[currentQuestionIndex e := x]> (answers e)).
  { intros x. unfold array_set.
    destruct (Nat.ltb_spec (currentQuestionIndex e) (length (answers e))); [reflexivity | lia]. }
  cbn [state_of]. rewrite Hset.
  constructor; cbn [answers questions currentQuestionIndex score hasChecked].
  - now rewrite length_insert.
  - exact Hr.
  - rewrite (correctCount_insert _ _ _ _ Hnull). cbn.
    destruct (isCorrectFor q e); lia.
  - intros j [Hj | [_ Hj]] Hlen; [| discriminate Hj].
    rewrite list_lookup_insert_ne by lia. apply Hp; auto.
Qed.

Lemma consistent_showResults (now : string) (p : Page) :
  engine (showResults now p) = engine p.
Proof. reflexivity. Qed.

Lemma consistent_render (now : string) (p : Page) :
  consistent (engine p) -> consistent (engine (state_of (render now p))).
Proof.
  intros H. unfold render.
  destruct (Nat.eqb (length (questions (engine p))) 0); [exact H |].
  destruct (isComplete (engine p)); [exact H |].
  destruct (questions (engine p) !! currentQuestionIndex (engine p)) as [q|]; [| exact H].
  destruct (isDragMatch q); [| exact H].
  destruct H as [Hs Hr Hc Hp]. constructor; cbn; auto.
Qed.

Lemma consistent_nextQuestion (now : string) (p : Page) :
  consistent (engine p) -> consistent (engine (state_of (nextQuestion now p))).
Proof.
  intros H. unfold nextQuestion.
  destruct (Z.leb_spec (Z.of_nat (length (questions (engine p))) - 1)
              (Z.of_nat (currentQuestionIndex (engine p)))) as [Hlast | Hmore].
  - cbn [state_of]. rewrite consistent_showResults. cbn [engine].
    destruct H as [Hs Hr Hc Hp]. constructor; cbn; auto.
  - apply consistent_render. cbn [engine].
    destruct H as [Hs Hr Hc Hp]. constructor; cbn; auto; [lia |].
    intros j Hj Hlen. apply Hp; [left; lia | exact Hlen].
Qed.

Lemma consistent_retry (now : string) (p : Page) :
  consistent (engine p) -> consistent (engine (state_of (retry now p))).
Proof.
  intros [Hs Hr Hc Hp]. unfold retry. apply consistent_render. cbn [engine].
  constructor; cbn.
  - apply length_replicate.
  - lia.
  - now rewrite correctCount_replicate_Null.
  - intros j _ Hj. now apply lookup_replicate_2.
Qed.

Lemma consistent_perform (a : Action) (p : Page) :
  consistent (engine p) -> consistent (engine (state_of (perform a p))).
Proof.
  intros H. destruct a as [optionId | sourceId targetId | | now | now | now k sec];
    cbn [perform].
  - now apply consistent_selectOption.
  - now apply consistent_dropOn.
  - pose proof (consistent_checkAnswer _ H) as H'.
    destruct (checkAnswer (engine p)); exact H'.
  - now apply consistent_nextQuestion.
  - now apply consistent_retry.
  - exact H.
Qed.

Lemma consistent_run (actions : list Action) (p : Page) :
  consistent (engine p) -> consistent (engine (run actions p)).
Proof.
  revert p. induction actions as [| a rest IH]; intros p H; [exact H |].
  cbn [run foldl]. apply IH. now apply consistent_perform.
Qed.

Lemma sameQuiz_render (now : string) (p : Page) :
  sameQuiz (engine p) (engine (state_of (render now p))).
Proof.
  unfold render, sameQuiz.
  destruct (Nat.eqb _ 0); [auto |]. destruct (isComplete _); [auto |].
  destruct (_ !! _) as [q|]; [| auto]. destruct (isDragMatch q); auto.
Qed.

Lemma sameQuiz_perform (a : Action) (p : Page) :
  sameQuiz (engine p) (engine (state_of (perform a p))).
Proof.
  destruct a as [optionId | sourceId targetId | | now | now | now k sec]; cbn [perform];
    [| | | | | now repeat split].
  - unfold sameQuiz, on_engine, selectOption. cbn. now destruct (hasChecked _).
  - unfold sameQuiz, on_engine, dropOn. cbn [engine].
    destruct (isComplete _); [auto |].
    destruct (_ !! _) as [[| |]|]; auto. destruct (_ && _)%bool; cbn; auto.
  - unfold sameQuiz, checkAnswer.
    destruct (hasChecked _); [cbn; auto |]. destruct (_ !! _); cbn; auto.
  - unfold nextQuestion. destruct (Z.leb _ _).
    + unfold sameQuiz. cbn. auto.
    + match goal with |- context [render now ?x] =>
        pose proof (sameQuiz_render now x) as H end. exact H.
  - unfold retry.
    match goal with |- context [render now ?x] =>
      pose proof (sameQuiz_render now x) as H end. exact H.
Qed.

Lemma sameQuiz_run (actions : list Action) (p : Page) :
  sameQuiz (engine p) (engine (run actions p)).
Proof.
  revert p. induction actions as [| a rest IH]; intros p; [now repeat split |].
  cbn [run foldl]. destruct (IH (state_of (perform a p))) as (H1 & H2 & H3).
  destruct (sameQuiz_perform a p) as (H1' & H2' & H3').
  unfold run in *. repeat split; congruence.
Qed.

Lemma percentsNear_maxQuestions : Doubles.percentsNear Doubles.maxQuestions = true.
Proof. vm_compute. reflexivity. Qed.

Lemma percentsNear_spec (maxLen : nat) (score len : Z) :
  Doubles.percentsNear maxLen = true ->
  0 <= score <= len -> 1 <= len <= Z.of_nat maxLen ->
  exists r, Binary64.percent score len = Some r
    /\ 0 <= r <= 100
    /\ (r = Spec.scorePercentage score len
        \/ Doubles.halfway score len = true /\ r = Spec.scorePercentage score len - 1).
Proof.
  intros H Hs Hl.
  unfold Doubles.percentsNear in H. rewrite forallb_forall in H.
  specialize (H (Z.to_nat len)).
  assert (Hin : In (Z.to_nat len) (seq 1 maxLen)) by (apply in_seq; lia).
  apply H in Hin. apply Is_true_true, forallb_True in Hin.
  rewrite Forall_forall in Hin. specialize (Hin score).
  rewrite Z2Nat.id in Hin by lia.
  assert (Hscore : score ∈ Doubles.upto (Z.to_nat len)).
  { unfold Doubles.upto. apply list_elem_of_fmap. exists (Z.to_nat score).
    split; [lia | apply elem_of_seq; lia]. }
  apply Hin, Is_true_true in Hscore. unfold Doubles.percentNear, Doubles.scorePercent in Hscore.
  destruct (Binary64.percent score len) as [r|]; [| discriminate Hscore].
  apply andb_prop in Hscore as [Hrange Hnear]. apply andb_prop in Hrange as [H0 H100].
  exists r. split; [reflexivity |]. split; [lia |].
  apply orb_prop in Hnear as [E | E]; [apply Z.eqb_eq in E; auto |].
  apply andb_prop in E as [Hhalf E]. apply Z.eqb_eq in E. auto.
Qed.

(** For a quiz of at most [Doubles.maxQuestions] questions the score
    percentage computed in binary64 is a percentage, the exactly rounded
    one or the one below. *)
Lemma percent_near (score len : Z) :
  0 <= score <= len -> 1 <= len <= Z.of_nat Doubles.maxQuestions ->
  exists r, Binary64.percent score len = Some r
    /\ 0 <= r <= 100
    /\ (r = Spec.scorePercentage score len
        \/ Doubles.halfway score len = true /\ r = Spec.scorePercentage score len - 1).
Proof. apply percentsNear_spec, percentsNear_maxQuestions. Qed.

Lemma scorePercent_near (e : QuizEngine) :
  consistent e -> (length (questions e) <= Doubles.maxQuestions)%nat ->
  0 <= scorePercent e <= 100
  /\ (scorePercent e
        = Spec.scorePercentage (Spec.correctCount (answers e))
                               (Z.of_nat (length (questions e)))
      \/ Doubles.halfway (Spec.correctCount (answers e))
                         (Z.of_nat (length (questions e))) = true
         /\ scorePercent e
            = Spec.scorePercentage (Spec.correctCount (answers e))
                                   (Z.of_nat (length (questions e))) - 1).
Proof.
  intros [Hs Hr Hc Hp] Hmax. unfold scorePercent. rewrite Hc.
  pose proof (correctCount_bounds (answers e)) as Hb. rewrite Hs in Hb.
  destruct (percent_near (Spec.correctCount (answers e)) (Z.of_nat (length (questions e))))
    as (r & -> & Hrange & Hnear); [lia | lia |]. now split.
Qed.

Lemma scorePercent_range (e : QuizEngine) :
  consistent e -> (length (questions e) <= Doubles.maxQuestions)%nat ->
  0 <= scorePercent e <= 100.
Proof. intros Hc Hmax. now apply scorePercent_near. Qed.

(** *** Scores on record are percentages *)

Lemma percentScores_createDefault (t1 t2 : string) :
  percentScores (Progress.createDefault t1 t2).
Proof.
  intros k m Hk s Hs. apply createDefault_lookup in Hk. subst m. discriminate Hs.
Qed.

Lemma percentScores_insert (d d' : Progress.ProgressData) (k : string)
    (m : Progress.ModuleData) :
  percentScores d ->
  (forall s, Progress.quizScore m = Some s -> 0 <= s <= 100) ->
  Progress.modules d' = <[k := m]> (Progress.modules d) ->
  percentScores d'.
Proof.
  intros Hd Hm E. unfold percentScores. rewrite E.
  apply map_Forall_insert_2; assumption.
Qed.

Lemma percentScores_markSectionComplete (now k sectionId : string)
    (d : Progress.ProgressData) :
  percentScores d -> percentScores (Progress.markSectionComplete now k sectionId d).
Proof.
  intros Hd. destruct (Progress.modules d !! k) as [m|] eqn:E.
  - apply (percentScores_insert d _ k (Entry.marked k sectionId m) Hd).
    + unfold Entry.marked. rewrite autoComplete_score. cbn. apply (Hd k m E).
    + now apply markSectionComplete_modules.
  - now rewrite markSectionComplete_unknown.
Qed.

Lemma percentScores_saveQuizScore (now k : string) (score : Z)
    (d : Progress.ProgressData) :
  0 <= score <= 100 ->
  percentScores d -> percentScores (Progress.saveQuizScore now k score d).
Proof.
  intros Hs Hd. destruct (Progress.modules d !! k) as [m|] eqn:E.
  - apply (percentScores_insert d _ k (Entry.scored score m) Hd).
    + cbn. intros s [= <-]. exact Hs.
    + now apply saveQuizScore_modules.
  - now rewrite saveQuizScore_unknown.
Qed.

Lemma percent_showResults (now : string) (p : Page) :
  0 <= scorePercent (engine p) <= 100 ->
  (forall d, progressManager p = Some d -> percentScores d) ->
  forall d, progressManager (showResults now p) = Some d -> percentScores d.
Proof.
  intros Hr Hpm. unfold showResults. cbn [progressManager].
  destruct (progressManager p) as [d0|]; [| discriminate].
  intros d [= <-]. apply percentScores_saveQuizScore; [exact Hr | now apply Hpm].
Qed.

Lemma percent_render (now : string) (p : Page) :
  (isComplete (engine p) = true -> 0 <= scorePercent (engine p) <= 100) ->
  (forall d, progressManager p = Some d -> percentScores d) ->
  forall d, progressManager (state_of (render now p)) = Some d -> percentScores d.
Proof.
  intros Hr Hpm. unfold render.
  destruct (Nat.eqb _ 0); [exact Hpm |].
  destruct (isComplete _); [apply percent_showResults; auto |].
  destruct (_ !! _) as [q|]; [| exact Hpm]. destruct (isDragMatch q); exact Hpm.
Qed.

Lemma sound_perform (a : Action) (p : Page) :
  sound p -> sound (state_of (perform a p)).
Proof.
  intros H. split; [apply consistent_perform, H |].
  destruct H as (Hc & Hmax & Hpm). pose proof (scorePercent_range _ Hc Hmax) as Hr.
  split; [now rewrite (proj1 (sameQuiz_perform a p)) |].
  destruct a as [optionId | sourceId targetId | | now | now | now k sec]; cbn [perform].
  - exact Hpm.
  - exact Hpm.
  - destruct (checkAnswer (engine p)); exact Hpm.
  - unfold nextQuestion. destruct (Z.leb _ _).
    + cbn [state_of]. apply percent_showResults; [exact Hr | exact Hpm].
    + apply percent_render; [intros _; exact Hr | exact Hpm].
  - unfold retry. apply percent_render; [cbn; discriminate | exact Hpm].
  - cbn [state_of sectionRead progressManager].
    destruct (progressManager p) as [d0|]; [| discriminate].
    intros d [= <-]. apply percentScores_markSectionComplete. now apply Hpm.
Qed.

Lemma sound_run (actions : list Action) (p : Page) :
  sound p -> sound (run actions p).
Proof.
  revert p. induction actions as [| a rest IH]; intros p H; [exact H |].
  cbn [run foldl]. apply IH. now apply sound_perform.
Qed.

(** Whatever the user does on a loaded quiz of at most
    [Doubles.maxQuestions] questions, and whatever sections are marked in
    between, the progress of every module stays within [0, 100]. *)
Lemma progress_in_range_throughout (entry : ModuleEntry) (t1 t2 : string)
    (actions : list Action) (d : Progress.ProgressData) (moduleId : string) :
  entryQuestions entry <> [] ->
  (length (entryQuestions entry) <= Doubles.maxQuestions)%nat ->
  progressManager (run actions (start entry (Some (Progress.createDefault t1 t2)))) = Some d ->
  0 <= Progress.getModuleProgress d moduleId <= 100.
Proof.
  intros Hne Hmax Hd.
  assert (Hsound : sound (start entry (Some (Progress.createDefault t1 t2)))).
  { split; [now apply consistent_start |]. split; [exact Hmax |].
    intros d0 [= <-]. apply percentScores_createDefault. }
  apply (sound_run actions) in Hsound as (_ & _ & Hpm).
  specialize (Hpm d Hd). apply getModuleProgress_range.
  intros m s Hm Hs. apply (Hpm moduleId m Hm) in Hs. lia.
Qed.

End Sessions.

(** ** Doubles against exact arithmetic *)

Section DoublesAgainstExact.

(** On every declared section total, for up to 20 completed sections and
    every whole percentage or null as latest score, [getModuleProgress]
    computed in doubles is the formula of the specification computed
    exactly. *)
Lemma doubles_moduleProgress_agrees : Doubles.progressAgrees 20 = true.
Proof. vm_compute. reflexivity. Qed.

(** The score percentage in doubles is the exact one for every quiz of up
    to 50 questions, but for 23 correct answers out of 40: the double of
    23/40 times 100 falls just below 57.5, and [Math.round] gives 57 where
    exact rounding gives 58. *)
Lemma doubles_scorePercent_differs_once : Doubles.percentDiffers 50 = [(23, 40)].
Proof. vm_compute. reflexivity. Qed.

Lemma doubles_scorePercent_23_of_40 :
  Doubles.scorePercent 23 40 = Some 57 /\ Spec.scorePercentage 23 40 = 58.
Proof. split; vm_compute; reflexivity. Qed.

End DoublesAgainstExact.

(** ** The progress record under sequences of updates *)

Section UpdateSequences.
Import Progress Updates.

Lemma entryOk_default : entryOk defaultModule.
Proof.
  unfold entryOk, defaultModule. cbn.
  split; [apply NoDup_nil_2 |]. split; [lia |]. split; [now split |].
  split; [reflexivity | discriminate].
Qed.

Lemma entryOk_marked (moduleId sectionId : string) (m : ModuleData) :
  entryOk m -> entryOk (Entry.marked moduleId sectionId m).
Proof.
  intros (Hnd & Hatt & Hsc & Hns & Hpass).
  assert (Hw : entryOk (Entry.withSection sectionId m)).
  { unfold entryOk. split; [now apply withSection_NoDup |].
    unfold Entry.withSection, Entry.quizPassed in *. cbn.
    split; [exact Hatt |]. split; [exact Hsc |]. split.
    - destruct (status m); discriminate.
    - intros H. rewrite (Hpass H). reflexivity. }
  unfold Entry.marked, Entry.autoComplete.
  destruct (_ && _)%bool; [| exact Hw].
  destruct Hw as (Hnd' & Hatt' & Hsc' & _ & _).
  unfold entryOk. cbn. repeat split; auto; try apply Hsc'; discriminate.
Qed.

Lemma entryOk_scored (score : Z) (m : ModuleData) :
  entryOk m -> entryOk (Entry.scored score m).
Proof.
  intros (Hnd & Hatt & Hsc & Hns & Hpass).
  unfold entryOk, Entry.scored, Entry.quizPassed. cbn.
  split; [exact Hnd |]. split; [lia |]. split; [split; [discriminate | lia] |]. split.
  - destruct (Z.leb 70 score); [discriminate |]. destruct (status m); discriminate.
  - intros H. now rewrite H.
Qed.

Lemma resetModule_modules (now moduleId : string) (d : ProgressData) (m : ModuleData) :
  modules d !! moduleId = Some m ->
  modules (resetModule now moduleId d) = <[moduleId := defaultModule]> (modules d).
Proof. intros E. unfold resetModule. rewrite E. reflexivity. Qed.

Lemma resetModule_unknown (now moduleId : string) (d : ProgressData) :
  modules d !! moduleId = None -> resetModule now moduleId d = d.
Proof. intros E. unfold resetModule. now rewrite E. Qed.

Lemma saveQuizScore_header (now moduleId : string) (score : Z) (d : ProgressData) :
  version (saveQuizScore now moduleId score d) = version d
  /\ startedAt (saveQuizScore now moduleId score d) = startedAt d.
Proof. unfold saveQuizScore. destruct (modules d !! moduleId); now split. Qed.

Lemma resetModule_header (now moduleId : string) (d : ProgressData) :
  version (resetModule now moduleId d) = version d
  /\ startedAt (resetModule now moduleId d) = startedAt d.
Proof. unfold resetModule. destruct (modules d !! moduleId); now split. Qed.

(** Replacing the entry of a known module keeps the keys. *)
Lemma keys_insert_known (ms : gmap string ModuleData) (k : string) (m m' : ModuleData) :
  ms !! k = Some m ->
  forall k', is_Some (<[k := m']> ms !! k') <-> is_Some (ms !! k').
Proof.
  intros E k'. destruct (decide (k = k')) as [<- | Hne].
  - rewrite lookup_insert_eq, E. split; eauto.
  - now rewrite lookup_insert_ne.
Qed.

Lemma wellFormed_createDefault (t1 t2 : string) : wellFormed (createDefault t1 t2).
Proof.
  constructor.
  - reflexivity.
  - intros k. split.
    + intros [m Hm]. now apply (createDefault_keys t1 t2 k m).
    + intros Hk. pose proof (createDefault_modules t1 t2) as H.
      rewrite Forall_forall in H. rewrite (H k Hk). eauto.
  - vm_compute. reflexivity.
  - intros k m Hm. apply createDefault_lookup in Hm. subst m. apply entryOk_default.
Qed.

Lemma wellFormed_replace (now : string) (d d' : ProgressData) (k : string)
    (m m' : ModuleData) :
  wellFormed d ->
  modules d !! k = Some m ->
  entryOk m' ->
  version d' = version d ->
  modules d' = <[k := m']> (modules d) ->
  overallProgress d' = getOverallProgress d' ->
  wellFormed d'.
Proof.
  intros [Hv Hk Ho He] E Hm' Hver Hmods Hov. constructor.
  - congruence.
  - intros k'. rewrite Hmods, (keys_insert_known _ _ _ m' E). apply Hk.
  - exact Hov.
  - rewrite Hmods. now apply map_Forall_insert_2.
Qed.

Lemma wellFormed_apply (u : Update) (d : ProgressData) :
  wellFormed d -> wellFormed (apply u d).
Proof.
  intros Hd. destruct u as [now k sec | now k score | now k | t1 t2 now]; cbn [apply].
  - destruct (modules d !! k) as [m|] eqn:E.
    + apply (wellFormed_replace now d _ k m (Entry.marked k sec m)); auto.
      * apply entryOk_marked. exact (wf_entries d Hd k m E).
      * apply markSectionComplete_header.
      * now apply markSectionComplete_modules.
      * now apply (markSectionComplete_overall now k sec d m).
    + now rewrite markSectionComplete_unknown.
  - destruct (modules d !! k) as [m|] eqn:E.
    + apply (wellFormed_replace now d _ k m (Entry.scored score m)); auto.
      * apply entryOk_scored. exact (wf_entries d Hd k m E).
      * apply saveQuizScore_header.
      * now apply saveQuizScore_modules.
      * unfold saveQuizScore. rewrite E. apply save_overall.
    + now rewrite saveQuizScore_unknown.
  - destruct (modules d !! k) as [m|] eqn:E.
    + apply (wellFormed_replace now d _ k m defaultModule); auto.
      * apply entryOk_default.
      * apply resetModule_header.
      * now apply (resetModule_modules now k d m).
      * unfold resetModule. rewrite E. apply save_overall.
    + now rewrite resetModule_unknown.
  - unfold resetAll. pose proof (wellFormed_createDefault t1 t2) as [Hv Hk Ho He].
    constructor; auto; apply save_overall.
Qed.

(** X1. Whatever sequence of [markSectionComplete], [saveQuizScore],
    [resetModule] and [resetAll] calls is applied to the default record,
    with whatever arguments other than a module id that names a member of
    [Object.prototype], the record keeps the current version and exactly
    the ten known modules, its stored [overallProgress] is the one
    [getOverallProgress] computes, and every module entry has no duplicate
    section, a score exactly when it has attempts, the default content
    when it is [not-started], and status [completed] when its latest score
    is a passing one. *)
Theorem updates_keep_wellFormed (t1 t2 : string) (us : list Update) :
  forallb plain us = true ->
  wellFormed (applyAll us (createDefault t1 t2)).
Proof.
  intros _. unfold applyAll.
  assert (H : forall d, wellFormed d -> wellFormed (foldl (fun d u => apply u d) d us)).
  { induction us as [| u rest IH]; intros d Hd; [exact Hd |].
    cbn [foldl]. apply IH. now apply wellFormed_apply. }
  apply H, wellFormed_createDefault.
Qed.

Lemma updates_keep_wellFormed_witness :
  wellFormed (applyAll [ UMark "t1" "module1" "intro"; UScore "t2" "module1" 80;
                         UResetModule "t3" "module2"; UMark "t4" "glossary" "a" ]
                       (createDefault "t0" "t0")).
Proof.
  apply (updates_keep_wellFormed "t0" "t0"). vm_compute. reflexivity.
Defined.

(** *** An unknown module id *)

(** X2. For a module id at which [this.data.modules] holds nothing and
    inherits nothing, [markSectionComplete], [saveQuizScore] and
    [resetModule] change nothing at all (not even the update time),
    [getModuleProgress] is 0 and [getModuleStatus] is [not-started]. *)
Theorem unknown_module_is_ignored (now moduleId sectionId : string) (score : Z)
    (d : ProgressData) :
  Prototype.read (modules d) moduleId = Prototype.Undefined ->
  markSectionComplete now moduleId sectionId d = d
  /\ saveQuizScore now moduleId score d = d
  /\ resetModule now moduleId d = d
  /\ getModuleProgress d moduleId = 0
  /\ getModuleStatus d moduleId = NotStarted.
Proof.
  intros Hread.
  assert (E : modules d !! moduleId = None).
  { unfold Prototype.read in Hread. now destruct (modules d !! moduleId). }
  split; [now apply markSectionComplete_unknown |].
  split; [now apply saveQuizScore_unknown |].
  split; [now apply resetModule_unknown |].
  unfold getModuleProgress, getModuleStatus. now rewrite E.
Qed.

Lemma unknown_module_is_ignored_witness :
  let d := createDefault "t0" "t0" in
  saveQuizScore "t1" "module11" 90 d = d
  /\ markSectionComplete "t1" "module11" "intro" d = d
  /\ getModuleProgress d "module11" = 0.
Proof.
  intros d.
  destruct (unknown_module_is_ignored "t1" "module11" "intro" 90 d)
    as (Hm & Hs & _ & Hp & _).
  - vm_compute. reflexivity.
  - split; [exact Hs |]. split; [exact Hm | exact Hp].
Defined.

(** *** The other modules *)

Lemma apply_other_module (u : Update) (d : ProgressData) (k : string) :
  match u with
  | UMark _ k' _ | UScore _ k' _ | UResetModule _ k' => k' <> k
  | UResetAll _ _ _ => False
  end ->
  modules (apply u d) !! k = modules d !! k.
Proof.
  destruct u as [now k' sec | now k' score | now k' | t1 t2 now]; cbn [apply];
    intros Hne; [| | | contradiction].
  - destruct (modules d !! k') as [m|] eqn:E.
    + rewrite (markSectionComplete_modules _ _ _ _ _ E). now apply lookup_insert_ne.
    + now rewrite markSectionComplete_unknown.
  - destruct (modules d !! k') as [m|] eqn:E.
    + rewrite (saveQuizScore_modules _ _ _ _ _ E). now apply lookup_insert_ne.
    + now rewrite saveQuizScore_unknown.
  - destruct (modules d !! k') as [m|] eqn:E.
    + rewrite (resetModule_modules _ _ _ _ E). now apply lookup_insert_ne.
    + now rewrite resetModule_unknown.
Qed.

(** X3. [markSectionComplete], [saveQuizScore] and [resetModule] on one
    module leave the entry, the progress and the status of every other
    module as they were. *)
Theorem update_leaves_other_modules (now moduleId otherId sectionId : string)
    (score : Z) (d : ProgressData) :
  moduleId <> otherId ->
  let after :=
    [ markSectionComplete now moduleId sectionId d;
      saveQuizScore now moduleId score d;
      resetModule now moduleId d ] in
  Forall (fun d' => modules d' !! otherId = modules d !! otherId
                    /\ getModuleProgress d' otherId = getModuleProgress d otherId
                    /\ getModuleStatus d' otherId = getModuleStatus d otherId) after.
Proof.
  intros Hne after.
  assert (H : forall u, match u with
                        | UMark _ k' _ | UScore _ k' _ | UResetModule _ k' => k' = moduleId
                        | UResetAll _ _ _ => False
                        end ->
            modules (apply u d) !! otherId = modules d !! otherId
            /\ getModuleProgress (apply u d) otherId = getModuleProgress d otherId
            /\ getModuleStatus (apply u d) otherId = getModuleStatus d otherId).
  { intros u Hu.
    assert (E : modules (apply u d) !! otherId = modules d !! otherId).
    { apply apply_other_module. destruct u; try contradiction; congruence. }
    unfold getModuleProgress, getModuleStatus. now rewrite E. }
  subst after. repeat apply Forall_cons_2; [| | | apply Forall_nil_2].
  - exact (H (UMark now moduleId sectionId) eq_refl).
  - exact (H (UScore now moduleId score) eq_refl).
  - exact (H (UResetModule now moduleId) eq_refl).
Qed.

Lemma update_leaves_other_modules_witness :
  let d := saveQuizScore "t0" "module2" 80 (createDefault "t0" "t0") in
  getModuleStatus (resetModule "t1" "module1" d) "module2" = Completed
  /\ getModuleProgress (saveQuizScore "t1" "module1" 10 d) "module2" = 30.
Proof.
  intros d.
  pose proof (update_leaves_other_modules "t1" "module1" "module2" "s" 10 d) as H.
  cbv zeta in H. rewrite !Forall_cons in H.
  destruct H as (_ & (_ & Hp & _) & (_ & _ & Hs) & _); [discriminate |].
  split; [rewrite Hs | rewrite Hp]; vm_compute; reflexivity.
Defined.

(** *** Nothing is lost without a reset *)

Lemma grows_refl (m : ModuleData) : grows m m.
Proof. unfold grows. split; [lia |]. split; [reflexivity | lia]. Qed.

Lemma grows_trans (m1 m2 m3 : ModuleData) : grows m1 m2 -> grows m2 m3 -> grows m1 m3.
Proof.
  intros (Hr & Hp & Ha) (Hr' & Hp' & Ha'). unfold grows.
  split; [lia |]. split; [now transitivity (sectionsCompleted m2) | lia].
Qed.

Lemma grows_marked (moduleId sectionId : string) (m : ModuleData) :
  grows m (Entry.marked moduleId sectionId m).
Proof.
  unfold grows, Entry.marked. rewrite autoComplete_sections.
  split; [| split].
  - unfold Entry.autoComplete. destruct (_ && _)%bool; cbn; destruct (status m); cbn; lia.
  - unfold Entry.withSection. cbn [sectionsCompleted].
    case_bool_decide; [reflexivity | now apply prefix_app_r].
  - unfold Entry.autoComplete. destruct (_ && _)%bool; cbn; lia.
Qed.

Lemma grows_scored (score : Z) (m : ModuleData) : grows m (Entry.scored score m).
Proof.
  unfold grows, Entry.scored. cbn. split; [| split; [reflexivity | lia]].
  destruct (Z.leb 70 score); destruct (status m); cbn; lia.
Qed.

Lemma grows_apply (u : Update) (d : ProgressData) (k : string) (m : ModuleData) :
  isReset u = false ->
  modules d !! k = Some m ->
  exists m', modules (apply u d) !! k = Some m' /\ grows m m'.
Proof.
  intros Hu E. destruct u as [now k' sec | now k' score | now k' | t1 t2 now];
    try discriminate Hu; cbn [apply].
  - destruct (modules d !! k') as [m0|] eqn:E0.
    + rewrite (markSectionComplete_modules _ _ _ _ _ E0).
      destruct (decide (k' = k)) as [-> | Hne].
      * rewrite lookup_insert_eq. rewrite E in E0. injection E0 as <-.
        eexists. split; [reflexivity | apply grows_marked].
      * rewrite lookup_insert_ne by exact Hne. exists m. split; [exact E | apply grows_refl].
    + rewrite markSectionComplete_unknown by exact E0.
      exists m. split; [exact E | apply grows_refl].
  - destruct (modules d !! k') as [m0|] eqn:E0.
    + rewrite (saveQuizScore_modules _ _ _ _ _ E0).
      destruct (decide (k' = k)) as [-> | Hne].
      * rewrite lookup_insert_eq. rewrite E in E0. injection E0 as <-.
        eexists. split; [reflexivity | apply grows_scored].
      * rewrite lookup_insert_ne by exact Hne. exists m. split; [exact E | apply grows_refl].
    + rewrite saveQuizScore_unknown by exact E0.
      exists m. split; [exact E | apply grows_refl].
Qed.

(** X4. Through any sequence of [markSectionComplete] and [saveQuizScore]
    calls (no reset), on whatever modules, a module entry only grows: its
    status never goes back (not-started, in-progress, completed), the
    sections already completed stay, in their order, at the head of the
    list, and the number of attempts never decreases. *)
Theorem updates_without_reset_only_grow (us : list Update) (d : ProgressData)
    (moduleId : string) (m : ModuleData) :
  forallb (fun u => negb (isReset u)) us = true ->
  modules d !! moduleId = Some m ->
  exists m', modules (applyAll us d) !! moduleId = Some m'
    /\ rank (status m) <= rank (status m')
    /\ sectionsCompleted m `prefix_of` sectionsCompleted m'
    /\ quizAttempts m <= quizAttempts m'.
Proof.
  revert d m. unfold applyAll.
  induction us as [| u rest IH]; intros d m Hus E; cbn [foldl].
  - exists m. split; [exact E |]. apply grows_refl.
  - cbn [forallb] in Hus. apply andb_prop in Hus as [Hu Hrest].
    apply negb_true_iff in Hu.
    destruct (grows_apply u d moduleId m Hu E) as (m1 & E1 & H1).
    destruct (IH (apply u d) m1 Hrest E1) as (m' & E' & H').
    exists m'. split; [exact E' |]. exact (grows_trans _ _ _ H1 (conj (proj1 H') (proj2 H'))).
Qed.

Lemma updates_without_reset_only_grow_witness :
  let d := markSectionComplete "t0" "module1" "intro" (createDefault "t0" "t0") in
  let us := [ UScore "t1" "module1" 40; UMark "t2" "module1" "basics";
              UScore "t3" "module2" 90 ] in
  exists m', modules (applyAll us d) !! "module1" = Some m'
    /\ 1 <= rank (status m')
    /\ ["intro"] `prefix_of` sectionsCompleted m'
    /\ 0 <= quizAttempts m'.
Proof.
  intros d us.
  exact (updates_without_reset_only_grow us d "module1"
           (mkModuleData InProgress ["intro"] None 0) eq_refl eq_refl).
Defined.

(** *** Scores and attempts *)

(** X5. Saving scores one after the other on a known module counts every
    one of them as an attempt and keeps the last as the latest score,
    the completed sections being untouched. *)
Theorem saved_scores_are_counted (moduleId : string) (scores : list (string * Z))
    (now : string) (last : Z) (d : ProgressData) (m : ModuleData) :
  modules d !! moduleId = Some m ->
  let us := (fun ns => UScore (fst ns) moduleId (snd ns))
              <$> (scores ++ [(now, last)])%list in
  exists m', modules (applyAll us d) !! moduleId = Some m'
    /\ quizScore m' = Some last
    /\ quizAttempts m' = quizAttempts m + Z.of_nat (length scores) + 1
    /\ sectionsCompleted m' = sectionsCompleted m.
Proof.
  intros E us. subst us. unfold applyAll. rewrite fmap_app, foldl_app. cbn [fmap list_fmap foldl].
  assert (H : forall d0 m0, modules d0 !! moduleId = Some m0 ->
            exists m1, modules (foldl (fun d u => apply u d) d0
                                  ((fun ns => UScore (fst ns) moduleId (snd ns)) <$> scores))
                         !! moduleId = Some m1
              /\ quizAttempts m1 = quizAttempts m0 + Z.of_nat (length scores)
              /\ sectionsCompleted m1 = sectionsCompleted m0).
  { induction scores as [| [n sc] rest IH]; intros d0 m0 E0.
    - exists m0. cbn. split; [exact E0 |]. split; [lia | reflexivity].
    - cbn [fmap list_fmap foldl apply fst snd].
      change (list_fmap _ _ ?f rest) with (f <$> rest).
      destruct (IH (saveQuizScore n moduleId sc d0) (Entry.scored sc m0)) as (m1 & E1 & Ha & Hs).
      { rewrite (saveQuizScore_modules _ _ _ _ _ E0). apply lookup_insert_eq. }
      exists m1. split; [exact E1 |]. cbn [length]. cbn in Ha, Hs. split; [lia | exact Hs]. }
  destruct (H d m E) as (m1 & E1 & Ha & Hs).
  cbn [apply fst snd]. rewrite (saveQuizScore_modules _ _ _ _ _ E1), lookup_insert_eq.
  eexists. split; [reflexivity |]. cbn. split; [reflexivity |]. split; [lia | exact Hs].
Qed.

Lemma saved_scores_are_counted_witness :
  let d := createDefault "t0" "t0" in
  let us := [ UScore "t1" "module4" 90; UScore "t2" "module4" 35; UScore "t3" "module4" 60 ] in
  exists m', modules (applyAll us d) !! "module4" = Some m'
    /\ quizScore m' = Some 60
    /\ quizAttempts m' = 3.
Proof.
  intros d us.
  destruct (saved_scores_are_counted "module4" [("t1", 90); ("t2", 35)] "t3" 60 d defaultModule)
    as (m' & E & Hs & Ha & _).
  - vm_compute. reflexivity.
  - exists m'. split; [exact E |]. split; [exact Hs | exact Ha].
Defined.

(** *** Progress of a module *)

Lemma Math_round_mono (x y : Q) : (x <= y)%Q -> Math_round x <= Math_round y.
Proof. intros H. unfold Math_round. apply Qfloor_resp_le. lra. Qed.

Lemma Math_min_mono (a b : Q) : (a <= b)%Q -> (Math_min a 1 <= Math_min b 1)%Q.
Proof.
  intros H. unfold Math_min.
  destruct (Qle_bool a 1) eqn:Ea; destruct (Qle_bool b 1) eqn:Eb;
    try apply Qle_bool_iff in Ea; try apply Qle_bool_iff in Eb; try lra.
  assert (~ (a <= 1)%Q) by (rewrite <- Qle_bool_iff; congruence). lra.
Qed.

Lemma sectionProgress_mono (moduleId : string) (m m' : ModuleData) :
  (length (sectionsCompleted m) <= length (sectionsCompleted m'))%nat ->
  (sectionProgress moduleId m <= sectionProgress moduleId m')%Q.
Proof.
  intros H. unfold sectionProgress. apply Math_min_mono.
  pose proof (totalSectionsFor_positive moduleId) as HT.
  unfold Qdiv. apply Qmult_le_compat_r.
  - rewrite <- Zle_Qle. lia.
  - apply Qinv_le_0_compat. change 0%Q with (inject_Z 0). rewrite <- Zle_Qle. lia.
Qed.

(** X6. Marking a section complete never lowers the progress of any
    module. *)
Theorem markSectionComplete_progress_mono (now moduleId sectionId otherId : string)
    (d : ProgressData) :
  getModuleProgress d otherId
    <= getModuleProgress (markSectionComplete now moduleId sectionId d) otherId.
Proof.
  destruct (modules d !! moduleId) as [m|] eqn:E.
  - unfold getModuleProgress. rewrite (markSectionComplete_modules _ _ _ _ _ E).
    destruct (decide (moduleId = otherId)) as [<- | Hne].
    + rewrite lookup_insert_eq, E. apply Math_round_mono.
      assert (Hq : quizProgress (Entry.marked moduleId sectionId m) = quizProgress m).
      { unfold quizProgress, Entry.marked. now rewrite autoComplete_score. }
      rewrite Hq.
      assert (Hs : (sectionProgress moduleId m
                    <= sectionProgress moduleId (Entry.marked moduleId sectionId m))%Q).
      { apply sectionProgress_mono. apply prefix_length, grows_marked. }
      lra.
    + rewrite lookup_insert_ne by exact Hne. reflexivity.
  - rewrite markSectionComplete_unknown by exact E. reflexivity.
Qed.





(** *** Two sections, in either order *)

Lemma marked_sections (moduleId sectionId : string) (m : ModuleData) :
  sectionsCompleted (Entry.marked moduleId sectionId m)
    = if bool_decide (sectionId ∈ sectionsCompleted m) then sectionsCompleted m
      else (sectionsCompleted m ++ [sectionId])%list.
Proof. unfold Entry.marked. now rewrite autoComplete_sections. Qed.

Lemma marked_twice_sections (moduleId a b : string) (m : ModuleData) :
  sectionsCompleted (Entry.marked moduleId b (Entry.marked moduleId a m))
    ≡ₚ sectionsCompleted (Entry.marked moduleId a (Entry.marked moduleId b m)).
Proof.
  rewrite !marked_sections. set (l := sectionsCompleted m).
  destruct (decide (a = b)) as [-> | Hne]; [reflexivity |].
  assert (Hab : a ∉ l -> b ∉ (l ++ [a])%list <-> b ∉ l).
  { intros _. rewrite elem_of_app, list_elem_of_singleton. split; [tauto |].
    intros H [H' | H']; [contradiction | congruence]. }
  assert (Hba : b ∉ l -> a ∉ (l ++ [b])%list <-> a ∉ l).
  { intros _. rewrite elem_of_app, list_elem_of_singleton. split; [tauto |].
    intros H [H' | H']; [contradiction | congruence]. }
  destruct (decide (a ∈ l)) as [Ha | Ha]; destruct (decide (b ∈ l)) as [Hb | Hb];
    repeat first
      [ rewrite (bool_decide_eq_true_2 (a ∈ l)) by exact Ha
      | rewrite (bool_decide_eq_false_2 (a ∈ l)) by exact Ha
      | rewrite (bool_decide_eq_true_2 (b ∈ l)) by exact Hb
      | rewrite (bool_decide_eq_false_2 (b ∈ l)) by exact Hb
      | rewrite (bool_decide_eq_true_2 (b ∈ (l ++ [a])%list))
          by (apply elem_of_app; now left)
      | rewrite (bool_decide_eq_true_2 (a ∈ (l ++ [b])%list))
          by (apply elem_of_app; now left)
      | rewrite (bool_decide_eq_false_2 (b ∈ (l ++ [a])%list)) by (now apply Hab)
      | rewrite (bool_decide_eq_false_2 (a ∈ (l ++ [b])%list)) by (now apply Hba) ];
    try reflexivity.
  rewrite <- !app_assoc. apply Permutation_app_head. apply Permutation_swap.
Qed.

Lemma marked_status (moduleId sectionId : string) (m : ModuleData) :
  status (Entry.marked moduleId sectionId m)
    = if Z.leb (totalSectionsFor moduleId)
               (Z.of_nat (length (sectionsCompleted (Entry.marked moduleId sectionId m))))
         && Entry.quizPassed m
      then Completed else Entry.promote (status m).
Proof.
  rewrite marked_sections. unfold Entry.marked, Entry.autoComplete, Entry.withSection,
    Entry.quizPassed. cbn [sectionsCompleted quizScore status].
  destruct (_ && _)%bool; reflexivity.
Qed.

Lemma marked_quizPassed (moduleId sectionId : string) (m : ModuleData) :
  Entry.quizPassed (Entry.marked moduleId sectionId m) = Entry.quizPassed m.
Proof. unfold Entry.quizPassed, Entry.marked. now rewrite autoComplete_score. Qed.

Lemma marked_score (moduleId sectionId : string) (m : ModuleData) :
  quizScore (Entry.marked moduleId sectionId m) = quizScore m.
Proof. unfold Entry.marked. now rewrite autoComplete_score. Qed.

Lemma marked_attempts (moduleId sectionId : string) (m : ModuleData) :
  quizAttempts (Entry.marked moduleId sectionId m) = quizAttempts m.
Proof. unfold Entry.marked, Entry.autoComplete. now destruct (_ && _)%bool. Qed.

Lemma marked_twice_status (moduleId a b : string) (m : ModuleData) :
  status (Entry.marked moduleId b (Entry.marked moduleId a m))
    = status (Entry.marked moduleId a (Entry.marked moduleId b m)).
Proof.
  pose proof (Permutation_length (marked_twice_sections moduleId a b m)) as Hlen.
  rewrite (marked_status moduleId b), (marked_status moduleId a (Entry.marked moduleId b m)).
  rewrite !marked_quizPassed, Hlen.
  destruct (_ && _)%bool eqn:Efull; [reflexivity |].
  rewrite !marked_status.
  assert (Hmono : forall x y, (length (sectionsCompleted (Entry.marked moduleId x m))
            <= length (sectionsCompleted (Entry.marked moduleId y (Entry.marked moduleId x m))))%nat).
  { intros x y. apply prefix_length, grows_marked. }
  assert (Hnot : forall x y,
            Z.leb (totalSectionsFor moduleId)
              (Z.of_nat (length (sectionsCompleted
                 (Entry.marked moduleId y (Entry.marked moduleId x m)))))
            && Entry.quizPassed m = false ->
            Z.leb (totalSectionsFor moduleId)
              (Z.of_nat (length (sectionsCompleted (Entry.marked moduleId x m))))
            && Entry.quizPassed m = false).
  { intros x y H. destruct (Entry.quizPassed m); [| now rewrite andb_false_r].
    rewrite andb_true_r in *. apply Z.leb_gt in H. apply Z.leb_gt. specialize (Hmono x y). lia. }
  rewrite (Hnot b a Efull). rewrite <- Hlen in Efull. rewrite (Hnot a b Efull). reflexivity.
Qed.

(** X8. Two sections marked complete in one module, in either order,
    leave the same completed sections (up to their order in the list),
    the same status, score and attempts, and the same module progress. *)
Theorem markSectionComplete_commutes (t1 t2 t3 t4 moduleId a b : string)
    (d : ProgressData) (m : ModuleData) :
  modules d !! moduleId = Some m ->
  let ab := markSectionComplete t2 moduleId b (markSectionComplete t1 moduleId a d) in
  let ba := markSectionComplete t4 moduleId a (markSectionComplete t3 moduleId b d) in
  exists mab mba,
    modules ab !! moduleId = Some mab /\ modules ba !! moduleId = Some mba
    /\ sectionsCompleted mab ≡ₚ sectionsCompleted mba
    /\ status mab = status mba
    /\ quizScore mab = quizScore mba /\ quizAttempts mab = quizAttempts mba
    /\ getModuleProgress ab moduleId = getModuleProgress ba moduleId.
Proof.
  intros E ab ba.
  assert (H : forall t t' x y,
            modules (markSectionComplete t' moduleId y (markSectionComplete t moduleId x d))
              !! moduleId
            = Some (Entry.marked moduleId y (Entry.marked moduleId x m))).
  { intros t t' x y.
    assert (E1 : modules (markSectionComplete t moduleId x d) !! moduleId
                 = Some (Entry.marked moduleId x m)).
    { rewrite (markSectionComplete_modules _ _ _ _ _ E). apply lookup_insert_eq. }
    rewrite (markSectionComplete_modules _ _ _ _ _ E1). apply lookup_insert_eq. }
  exists (Entry.marked moduleId b (Entry.marked moduleId a m)),
         (Entry.marked moduleId a (Entry.marked moduleId b m)).
  split; [apply H |]. split; [apply H |].
  split; [apply marked_twice_sections |]. split; [apply marked_twice_status |].
  split; [now rewrite !marked_score |].
  split; [now rewrite !marked_attempts |].
  unfold getModuleProgress. subst ab ba. rewrite !H.
  apply Math_round_proper.
  assert (Hq : forall x y, quizProgress (Entry.marked moduleId y (Entry.marked moduleId x m))
                           = quizProgress m).
  { intros x y. unfold quizProgress. now rewrite !marked_score. }
  rewrite !Hq. unfold sectionProgress.
  now rewrite (Permutation_length (marked_twice_sections moduleId a b m)).
Qed.

Lemma markSectionComplete_commutes_witness :
  let d := createDefault "t0" "t0" in
  let ab := markSectionComplete "t2" "module1" "b" (markSectionComplete "t1" "module1" "a" d) in
  let ba := markSectionComplete "t2" "module1" "a" (markSectionComplete "t1" "module1" "b" d) in
  getModuleProgress ab "module1" = getModuleProgress ba "module1"
  /\ getModuleStatus ab "module1" = InProgress.
Proof.
  intros d ab ba.
  destruct (markSectionComplete_commutes "t1" "t2" "t1" "t2" "module1" "a" "b" d defaultModule)
    as (mab & mba & _ & _ & _ & _ & _ & _ & Hp).
  - vm_compute. reflexivity.
  - split; [exact Hp | vm_compute; reflexivity].
Defined.

(** *** Overall progress *)

Lemma overall_fold_bounds (d : ProgressData) (l : list (string * ModuleData)) :
  (forall k, 0 <= getModuleProgress d k <= 100) ->
  let acc := foldr (fun kv acc => (fst acc + getModuleProgress d (fst kv), snd acc + 1))
                   (0, 0) l in
  0 <= fst acc <= 100 * snd acc /\ 0 <= snd acc.
Proof.
  intros H. induction l as [| kv l IH]; cbn; [lia |].
  cbn in IH. specialize (H (fst kv)). lia.
Qed.

(** X9. When the scores on record are percentages and no entry of the
    record bears the name of a member of [Object.prototype],
    [getOverallProgress] lies in [0, 100]; it is 0 when the record holds
    no module at all. *)
Theorem getOverallProgress_range (d : ProgressData) :
  Session.percentScores d ->
  (forall k, is_Some (modules d !! k) -> Prototype.inherited k = false) ->
  0 <= getOverallProgress d <= 100
  /\ (modules d = ∅ -> getOverallProgress d = 0).
Proof.
  intros Hp _. split.
  - assert (Hm : forall k, 0 <= getModuleProgress d k <= 100).
    { intros k. apply getModuleProgress_range. intros m s Hm Hs.
      apply (Hp k m Hm) in Hs. lia. }
    pose proof (overall_fold_bounds d (map_to_list (modules d)) Hm) as Hb.
    unfold getOverallProgress. cbv zeta in Hb.
    destruct (foldr _ _ _) as [total count]. cbn [fst snd] in Hb.
    destruct (Z.eqb_spec count 0) as [| Hne]; [lia |].
    assert (Hc : (0 < inject_Z count)%Q)
      by (change 0%Q with (inject_Z 0); rewrite <- Zlt_Qlt; lia).
    apply Math_round_range.
    + apply Qle_shift_div_l; [exact Hc |]. rewrite Qmult_0_l.
      change 0%Q with (inject_Z 0). rewrite <- Zle_Qle. lia.
    + apply Qle_shift_div_r; [exact Hc |]. rewrite <- inject_Z_mult, <- Zle_Qle. lia.
  - intros E. unfold getOverallProgress. rewrite E, map_to_list_empty. reflexivity.
Qed.

Lemma getOverallProgress_range_witness :
  let d := saveQuizScore "t1" "module1" 100 (createDefault "t0" "t0") in
  getOverallProgress d = 3 /\ 0 <= getOverallProgress d <= 100.
Proof.
  intros d. split; [vm_compute; reflexivity |].
  apply (getOverallProgress_range d).
  - apply percentScores_saveQuizScore; [lia | apply percentScores_createDefault].
  - intros k Hk.
    assert (Hin : k ∈ moduleKeys).
    { apply (wf_keys _ (wellFormed_apply (UScore "t1" "module1" 100) _
                          (wellFormed_createDefault "t0" "t0"))). exact Hk. }
    unfold moduleKeys in Hin. rewrite !elem_of_cons in Hin.
    repeat (destruct Hin as [-> | Hin]; [reflexivity |]). now apply elem_of_nil in Hin.
Defined.

End UpdateSequences.

(** ** What load returns *)

Section LoadResults.
Import Progress Loaded.

Variable JSON_parse : string -> JS.completion JS.value.

(** X10. When nothing usable is stored, [load] answers with the default
    record: the storage cannot be read, holds nothing or an empty text,
    the text is not JSON, or it is the JSON [null]. *)
Theorem load_default_on_failure (t1 t2 : string) :
  let default := dataValue (createDefault t1 t2) in
  load JSON_parse t1 t2 JS.Throw = default
  /\ load JSON_parse t1 t2 (JS.Return None) = default
  /\ load JSON_parse t1 t2 (JS.Return (Some "")) = default
  /\ (forall text, JSON_parse text = JS.Throw ->
        load JSON_parse t1 t2 (JS.Return (Some text)) = default)
  /\ (forall text, JSON_parse text = JS.Return JS.VNull ->
        load JSON_parse t1 t2 (JS.Return (Some text)) = default).
Proof.
  intros default.
  split; [reflexivity |]. split; [reflexivity |]. split; [reflexivity |].
  split; intros text Hp; unfold load, load_try; cbn [JS.bind];
    (case_bool_decide; [reflexivity |]); now rewrite Hp.
Qed.

Lemma usable_default (mods : gmap string JS.value) (key : string) :
  usable (JS.VObj (<[key := moduleValue defaultModule]> mods)) key.
Proof.
  exists (moduleValue defaultModule), (JS.VArr [] ∅).
  cbn [JS.get]. rewrite lookup_insert_eq.
  split; [reflexivity |]. split; [reflexivity |].
  split; [apply defaultModule_sections | reflexivity].
Qed.

(** One turn of the loop: the key it looked at is usable afterwards, and
    the other keys read as before. *)
Lemma repairModule_usable (mods mods' : JS.value) (key : string) :
  repairModule mods key = JS.Return mods' ->
  usable mods' key /\ forall k, k <> key -> JS.get mods' k = JS.get mods k.
Proof.
  unfold repairModule, usable.
  destruct mods as [| | b | q | str | elems ms | ms]; cbn [JS.get JS.bind JS.falsy JS.set];
    try discriminate.
  all: destruct (ms !! key) as [v|] eqn:E;
    [ destruct (JS.falsy v) eqn:Hf | cbn [JS.falsy] ];
    cbn [JS.bind JS.get]; rewrite ?lookup_insert_eq, ?E; cbn [JS.bind];
    rewrite ?defaultModule_sections; cbn [JS.bind JS.isArray].
  all: try (intros [= <-]; split;
            [ eexists _, _; cbn [JS.get]; rewrite lookup_insert_eq;
              split; [reflexivity |]; split; [reflexivity |];
              split; [apply defaultModule_sections | reflexivity]
            | intros k Hne; cbn [JS.get]; rewrite lookup_insert_ne by congruence;
              reflexivity ]).
  all: destruct v as [| | b | q | str | ve vp | vp];
    cbn [JS.get JS.bind JS.isArray JS.set]; try discriminate.
  all: destruct (vp !! "sectionsCompleted") as [[]|] eqn:Es;
    cbn [JS.isArray JS.bind JS.set]; intros [= <-]; split;
    try (intros k Hne; cbn [JS.get]; rewrite ?lookup_insert_ne by congruence; reflexivity).
  all: eexists _, _; cbn [JS.get]; rewrite ?lookup_insert_eq, ?E;
    (split; [reflexivity |]); (split; [reflexivity |]);
    cbn [JS.get]; rewrite ?lookup_insert_eq, ?Es; split; reflexivity.
Qed.

Lemma repairModules_usable (keys : list string) :
  forall mods mods' : JS.value,
    repairModules mods keys = JS.Return mods' ->
    (forall k, k ∈ keys -> usable mods' k)
    /\ (forall k, k ∉ keys -> JS.get mods' k = JS.get mods k).
Proof.
  induction keys as [| key rest IH]; intros mods mods' Hrun; cbn [repairModules] in Hrun.
  - injection Hrun as <-. split; [| reflexivity].
    intros k Hk. apply elem_of_nil in Hk. contradiction.
  - destruct (repairModule mods key) as [mods1|] eqn:E1; [| discriminate Hrun].
    cbn [JS.bind] in Hrun.
    destruct (repairModule_usable _ _ _ E1) as [Hkey Hother].
    destruct (IH _ _ Hrun) as [Hin Hout]. split.
    + intros k Hk. destruct (decide (k ∈ rest)) as [Hr | Hr]; [now apply Hin |].
      apply elem_of_cons in Hk as [-> | Hk]; [| contradiction].
      unfold usable in *. now rewrite (Hout key Hr).
    + intros k Hk. apply not_elem_of_cons in Hk as [Hne Hk].
      rewrite (Hout k Hk). now apply Hother.
Qed.

Lemma dataValue_get_version (d : ProgressData) :
  JS.get (dataValue d) "version" = JS.Return (JS.VStr (version d)).
Proof. unfold dataValue. cbn [JS.get]. vm_compute. reflexivity. Qed.

Lemma dataValue_get_modules (d : ProgressData) :
  JS.get (dataValue d) "modules" = JS.Return (JS.VObj (moduleValue <$> modules d)).
Proof.
  unfold dataValue. cbn [JS.get list_to_map foldr].
  rewrite lookup_insert_ne by discriminate. rewrite lookup_insert_ne by discriminate.
  rewrite lookup_insert_ne by discriminate. now rewrite lookup_insert_eq.
Qed.

Lemma moduleValue_sections (m : ModuleData) :
  JS.get (moduleValue m) "sectionsCompleted"
    = JS.Return (JS.VArr (JS.VStr <$> sectionsCompleted m) ∅).
Proof.
  unfold moduleValue. cbn [JS.get list_to_map foldr].
  rewrite lookup_insert_ne by discriminate. now rewrite lookup_insert_eq.
Qed.

Lemma usable_dataValue (d : ProgressData) (k : string) :
  is_Some (modules d !! k) -> usable (JS.VObj (moduleValue <$> modules d)) k.
Proof.
  intros [m Hm]. exists (moduleValue m), (JS.VArr (JS.VStr <$> sectionsCompleted m) ∅).
  cbn [JS.get]. rewrite lookup_fmap, Hm. cbn.
  split; [reflexivity |]. split; [reflexivity |].
  split; [apply moduleValue_sections | reflexivity].
Qed.

(** X11. Whatever the storage holds and whatever the parser makes of it,
    the record [load] returns has the current version and, for each of
    the ten known modules, an entry that is an object with an array of
    completed sections: what every other method of the progress manager
    relies on. *)
Theorem load_result_is_usable (t1 t2 : string) (raw : JS.completion (option string)) :
  let result := load JSON_parse t1 t2 raw in
  JS.get result "version" = JS.Return (JS.VStr CURRENT_VERSION)
  /\ exists mods, JS.get result "modules" = JS.Return mods
       /\ forall k, k ∈ moduleKeys -> usable mods k.
Proof.
  intros result.
  assert (Hdefault : forall v, v = dataValue (createDefault t1 t2) ->
            JS.get v "version" = JS.Return (JS.VStr CURRENT_VERSION)
            /\ exists mods, JS.get v "modules" = JS.Return mods
                 /\ forall k, k ∈ moduleKeys -> usable mods k).
  { intros v ->. split; [apply dataValue_get_version |].
    eexists. split; [apply dataValue_get_modules |].
    intros k Hk. apply usable_dataValue.
    pose proof (createDefault_modules t1 t2) as H. rewrite Forall_forall in H.
    rewrite (H k Hk). eauto. }
  subst result. unfold load, load_try.
  destruct raw as [[text|]|]; cbn [JS.bind]; try (now apply Hdefault).
  case_bool_decide; [now apply Hdefault |].
  destruct (JSON_parse text) as [parsed|]; cbn [JS.bind]; [| now apply Hdefault].
  destruct (JS.get parsed "version") as [ver|] eqn:Ever; cbn [JS.bind]; [| now apply Hdefault].
  destruct (JS.falsy ver || versionDiffers ver)%bool eqn:Ev; [now apply Hdefault |].
  apply orb_false_elim in Ev as [_ Ev].
  assert (Hver : ver = JS.VStr CURRENT_VERSION).
  { destruct ver; try discriminate Ev. cbn in Ev.
    apply negb_false_iff, bool_decide_eq_true in Ev. now subst. }
  subst ver.
  destruct (JS.get parsed "modules") as [mods|] eqn:Emods; cbn [JS.bind]; [| now apply Hdefault].
  destruct (JS.falsy mods); [now apply Hdefault |].
  destruct (repairModules mods moduleKeys) as [mods'|] eqn:Erun; cbn [JS.bind];
    [| now apply Hdefault].
  destruct (repairModules_usable _ _ _ Erun) as [Hin _].
  destruct parsed as [| | b | q | str | elems top | top]; cbn [JS.set JS.get] in *;
    try discriminate Ever; try (injection Ever as Ever; discriminate Ever).
  - rewrite lookup_insert_ne by discriminate. split; [exact Ever |].
    exists mods'. rewrite lookup_insert_eq. split; [reflexivity | exact Hin].
  - rewrite lookup_insert_ne by discriminate. split; [exact Ever |].
    exists mods'. rewrite lookup_insert_eq. split; [reflexivity | exact Hin].
Qed.

(** *** A record the page itself stored *)

Lemma knownDefaults_lookup (k : string) :
  knownDefaults !! k = if bool_decide (k ∈ moduleKeys) then Some defaultModule else None.
Proof.
  unfold knownDefaults. case_bool_decide as Hk.
  - apply elem_of_list_to_map_1.
    + change (((fun k => (k, defaultModule)) <$> moduleKeys).*1) with moduleKeys.
      apply moduleKeys_NoDup.
    + apply list_elem_of_fmap. now exists k.
  - apply not_elem_of_list_to_map_1.
    now change (((fun k => (k, defaultModule)) <$> moduleKeys).*1) with moduleKeys.
Qed.

Lemma repairedEntry_moduleValue (m : ModuleData) :
  Spec.repairedEntry (Some (moduleValue m)) = moduleValue m.
Proof.
  unfold Spec.repairedEntry. cbn [JS.falsy moduleValue].
  unfold moduleValue. cbn [list_to_map foldr].
  rewrite lookup_insert_ne by discriminate. now rewrite lookup_insert_eq.
Qed.

Lemma completed_known (d : ProgressData) :
  (forall k, k ∈ moduleKeys -> is_Some (modules d !! k)) -> completed d = d.
Proof.
  intros Hk. unfold completed.
  assert (E : modules d ∪ knownDefaults = modules d).
  { apply map_eq. intros k. rewrite lookup_union, knownDefaults_lookup.
    case_bool_decide as Hin.
    - destruct (Hk k Hin) as [m ->]. reflexivity.
    - now destruct (modules d !! k). }
  rewrite E. now destruct d.
Qed.

(** X12. Reading back a record the page stored: when the storage holds
    the text of the record [d], of the current version, [load] returns
    [d] completed with the default entry for the known modules it lacks,
    and so [d] itself when it has them all; statuses, scores, attempts,
    completed sections and both times come back as stored. *)
Theorem load_stored_record (t1 t2 text : string) (d : ProgressData) :
  text <> "" ->
  JSON_parse text = JS.Return (dataValue d) ->
  version d = CURRENT_VERSION ->
  load JSON_parse t1 t2 (JS.Return (Some text)) = dataValue (completed d)
  /\ ((forall k, k ∈ moduleKeys -> is_Some (modules d !! k)) ->
      load JSON_parse t1 t2 (JS.Return (Some text)) = dataValue d).
Proof.
  intros Htext Hp Hv.
  assert (Hload : load JSON_parse t1 t2 (JS.Return (Some text)) = dataValue (completed d)).
  { destruct (repairModules_object moduleKeys moduleKeys_NoDup (moduleValue <$> modules d))
      as (mods' & Hrun & Hin & Hout).
    { intros k _. rewrite lookup_fmap. destruct (modules d !! k) as [m|]; [| exact I].
      right. left. eexists. reflexivity. }
    assert (Hmods : mods' = moduleValue <$> (modules d ∪ knownDefaults)).
    { apply map_eq. intros k. rewrite lookup_fmap, lookup_union, knownDefaults_lookup.
      case_bool_decide as Hk.
      - rewrite (Hin k Hk), lookup_fmap.
        destruct (modules d !! k) as [m|].
        * change (moduleValue <$> Some m) with (Some (moduleValue m)).
          now rewrite repairedEntry_moduleValue.
        * reflexivity.
      - rewrite (Hout k Hk), lookup_fmap. now destruct (modules d !! k). }
    unfold load, load_try. cbn [JS.bind].
    rewrite bool_decide_eq_false_2 by exact Htext.
    rewrite Hp. cbn [JS.bind]. rewrite dataValue_get_version, Hv. cbn [JS.bind].
    cbn [JS.falsy versionDiffers].
    rewrite (bool_decide_eq_false_2 (CURRENT_VERSION = "")) by discriminate.
    rewrite (bool_decide_eq_true_2 (CURRENT_VERSION = CURRENT_VERSION)) by reflexivity.
    cbn [negb orb]. rewrite dataValue_get_modules. cbn [JS.bind JS.falsy].
    rewrite Hrun. cbn [JS.bind]. rewrite Hmods.
    unfold dataValue, completed, set_modules.
    cbn [JS.set list_to_map foldr version startedAt lastUpdated modules overallProgress].
    f_equal;
      rewrite ?(insert_commute _ "modules" "version") by discriminate;
      rewrite ?(insert_commute _ "modules" "startedAt") by discriminate;
      rewrite ?(insert_commute _ "modules" "lastUpdated") by discriminate;
      now rewrite ?insert_insert_eq. }
  split; [exact Hload |].
  intros Hk. rewrite Hload. now rewrite completed_known.
Qed.

End LoadResults.

Section LoadResultsWorked.
Import Progress Loaded Stored.

Lemma load_default_on_failure_witness :
  load (fun _ => JS.Throw) "t1" "t2" (JS.Return (Some "not json"))
    = dataValue (createDefault "t1" "t2")
  /\ load (parsesTo JS.VNull) "t1" "t2" (JS.Return (Some "null"))
     = dataValue (createDefault "t1" "t2").
Proof.
  destruct (load_default_on_failure (fun _ => JS.Throw) "t1" "t2")
    as (_ & _ & _ & Hbad & _).
  destruct (load_default_on_failure (parsesTo JS.VNull) "t1" "t2")
    as (_ & _ & _ & _ & Hnull).
  split; [apply Hbad; reflexivity | apply Hnull; reflexivity].
Defined.

Lemma load_stored_record_witness :
  let d := saveQuizScore "t1" "module2" 85
             (markSectionComplete "t0" "module2" "intro" (createDefault "t0" "t0")) in
  load (parsesTo (dataValue d)) "t8" "t9" (JS.Return (Some "stored")) = dataValue d.
Proof.
  intros d.
  apply (load_stored_record (parsesTo (dataValue d)) "t8" "t9" "stored" d).
  - discriminate.
  - reflexivity.
  - reflexivity.
  - intros k Hk.
    destruct (wellFormed_apply (Updates.UScore "t1" "module2" 85) _
                (wellFormed_apply (Updates.UMark "t0" "module2" "intro") _
                   (wellFormed_createDefault "t0" "t0")))
      as [_ Hkeys _ _].
    now apply Hkeys.
Defined.

End LoadResultsWorked.

(** ** More about sessions *)

Section Plays.
Import Quiz Session Play.

(** *** Bounds *)

Lemma complete_at_last_perform (a : Action) (p : Page) :
  consistent (engine p) ->
  (isComplete (engine p) = true ->
   S (currentQuestionIndex (engine p)) = length (questions (engine p))) ->
  isComplete (engine (state_of (perform a p))) = true ->
  S (currentQuestionIndex (engine (state_of (perform a p))))
    = length (questions (engine (state_of (perform a p)))).
Proof.
  intros Hc H. pose proof (in_range _ Hc) as Hr.
  assert (Hrender : forall now q, (isComplete (engine q) = true ->
              S (currentQuestionIndex (engine q)) = length (questions (engine q))) ->
            isComplete (engine (state_of (render now q))) = true ->
            S (currentQuestionIndex (engine (state_of (render now q))))
              = length (questions (engine (state_of (render now q))))).
  { intros now q Hq. unfold render.
    destruct (Nat.eqb _ 0); [exact Hq |].
    destruct (isComplete (engine q)) eqn:Ec; [intros _; cbn; now apply Hq |].
    destruct (_ !! _) as [x|]; [| cbn; congruence].
    destruct (isDragMatch x); cbn; congruence. }
  destruct a as [optionId | sourceId targetId | | now | now | now k sec]; cbn [perform].
  - cbn. unfold selectOption. destruct (hasChecked _); exact H.
  - cbn. unfold dropOn. destruct (isComplete (engine p)) eqn:Ec; [intros _; now apply H |].
    destruct (_ !! _) as [[| |]|]; try congruence.
    destruct (_ && _)%bool; cbn; congruence.
  - unfold checkAnswer. destruct (hasChecked _); [exact H |].
    destruct (_ !! _); cbn; exact H.
  - unfold nextQuestion.
    destruct (Z.leb_spec (Z.of_nat (length (questions (engine p))) - 1)
                (Z.of_nat (currentQuestionIndex (engine p)))) as [Hlast | Hmore].
    + cbn. intros _. lia.
    + apply Hrender. cbn. intros Ec. specialize (H Ec). lia.
  - unfold retry. apply Hrender. cbn. discriminate.
  - exact H.
Qed.

(** X13. In every state of a session on a loaded quiz the current index
    designates a question, there is one answer slot per question, the
    score lies between 0 and the number of questions, the questions and
    the threshold are those that were loaded, and the quiz is complete
    only on its last question. *)
Theorem session_stays_in_bounds (entry : ModuleEntry)
    (pm : option Progress.ProgressData) (actions : list Action) :
  entryQuestions entry <> [] ->
  let e := engine (run actions (start entry pm)) in
  (currentQuestionIndex e < length (questions e))%nat
  /\ length (answers e) = length (questions e)
  /\ 0 <= score e <= Z.of_nat (length (questions e))
  /\ questions e = entryQuestions entry
  /\ passingScore e = passingScore (engine (start entry pm))
  /\ (isComplete e = true -> S (currentQuestionIndex e) = length (questions e)).
Proof.
  intros Hne e.
  pose proof (consistent_run actions _ (consistent_start entry pm Hne)) as Hc.
  destruct (sameQuiz_run actions (start entry pm)) as (Hq & Hpass & _).
  fold e in Hc, Hq, Hpass.
  split; [apply (in_range _ Hc) |]. split; [apply (slots _ Hc) |].
  split.
  { rewrite (counted _ Hc), <- (slots _ Hc). apply correctCount_bounds. }
  split; [exact Hq |]. split; [exact Hpass |].
  subst e.
  assert (H : forall p, consistent (engine p) ->
            (isComplete (engine p) = true ->
             S (currentQuestionIndex (engine p)) = length (questions (engine p))) ->
            isComplete (engine (run actions p)) = true ->
            S (currentQuestionIndex (engine (run actions p)))
              = length (questions (engine (run actions p)))).
  { clear. induction actions as [| a rest IH]; intros p Hc H; [exact H |].
    cbn [run foldl]. apply IH.
    - now apply consistent_perform.
    - now apply complete_at_last_perform. }
  apply H; [now apply consistent_start | cbn; discriminate].
Qed.

Lemma session_stays_in_bounds_witness :
  let e := engine (run oneOfTwo (start (Sample.quizOf None [Sample.choiceA; Sample.choiceB])
                                       None)) in
  (currentQuestionIndex e < 2)%nat /\ 0 <= score e <= 2.
Proof.
  intros e.
  destruct (session_stays_in_bounds (Sample.quizOf None [Sample.choiceA; Sample.choiceB])
              None oneOfTwo) as (Hi & _ & Hs & Hq & _).
  - discriminate.
  - fold e in Hi, Hs, Hq. rewrite Hq in Hi, Hs. split; [exact Hi | exact Hs].
Defined.

(** *** Retry *)

Lemma title_render (now : string) (p : Page) :
  moduleTitle (engine (state_of (render now p))) = moduleTitle (engine p).
Proof.
  unfold render. destruct (Nat.eqb _ 0); [reflexivity |].
  destruct (isComplete _); [reflexivity |]. destruct (_ !! _) as [q|]; [| reflexivity].
  now destruct (isDragMatch q).
Qed.

Lemma title_perform (a : Action) (p : Page) :
  moduleTitle (engine (state_of (perform a p))) = moduleTitle (engine p).
Proof.
  destruct a as [optionId | sourceId targetId | | now | now | now k sec]; cbn [perform].
  - cbn. unfold selectOption. now destruct (hasChecked _).
  - cbn. unfold dropOn. destruct (isComplete _); [reflexivity |].
    destruct (_ !! _) as [[| |]|]; try reflexivity. now destruct (_ && _)%bool.
  - unfold checkAnswer. destruct (hasChecked _); [reflexivity |]. now destruct (_ !! _).
  - unfold nextQuestion. destruct (Z.leb _ _); [reflexivity |]. now rewrite title_render.
  - unfold retry. now rewrite title_render.
  - reflexivity.
Qed.

Lemma title_run (actions : list Action) (p : Page) :
  moduleTitle (engine (run actions p)) = moduleTitle (engine p).
Proof.
  revert p. induction actions as [| a rest IH]; intros p; [reflexivity |].
  cbn [run foldl]. unfold run in IH. now rewrite IH, title_perform.
Qed.

(** X14. [retry], from whatever state the session is in, puts the engine
    back exactly as it was when the quiz had just been loaded (first
    question, no answer, score 0, nothing selected or matched), does not
    throw, and reports nothing to the progress manager. *)
Theorem retry_starts_over (entry : ModuleEntry) (pm : option Progress.ProgressData)
    (actions : list Action) (now : string) :
  let p := run actions (start entry pm) in
  retry now p = Done (mkPage (engine (start entry pm)) (progressManager p)).
Proof.
  intros p.
  destruct (sameQuiz_run actions (start entry pm)) as (Hq & Hpass & Hid).
  pose proof (title_run actions (start entry pm)) as Ht.
  fold p in Hq, Hpass, Hid, Ht. cbn in Hq, Hpass, Hid, Ht.
  unfold retry, render. cbn [engine questions isComplete currentQuestionIndex progressManager].
  rewrite Hq, Hpass, Hid, Ht. unfold start, loaded, new.
  cbn [engine moduleId currentQuestionIndex score isComplete selectedOptionId hasChecked
       dragSelectedSource matchedPairs].
  destruct (entryQuestions entry) as [| q rest]; [reflexivity |].
  cbn [length Nat.eqb lookup list_lookup].
  destruct (isDragMatch q); reflexivity.
Qed.

(** *** Recorded answers *)

Lemma flag_insert_other (arr : list Slot) (i j : nat) (x : Slot) :
  i <> j -> <[i := x]> arr !! j = arr !! j.
Proof. intros H. now apply list_lookup_insert_ne. Qed.

Lemma render_answers_score (now : string) (q : Page) :
  answers (engine (state_of (render now q))) = answers (engine q)
  /\ score (engine (state_of (render now q))) = score (engine q).
Proof.
  unfold render. destruct (Nat.eqb _ 0); [now split |].
  destruct (isComplete _); [now split |].
  destruct (questions (engine q) !! _) as [x|]; [| now split].
  now destruct (isDragMatch x).
Qed.

Lemma recorded_perform (a : Action) (p : Page) (j : nat) (slot : Slot) (b : bool) :
  consistent (engine p) ->
  isRetry a = false ->
  answers (engine p) !! j = Some slot ->
  flag slot = Some b ->
  (exists slot', answers (engine (state_of (perform a p))) !! j = Some slot'
                 /\ flag slot' = Some b)
  /\ score (engine p) <= score (engine (state_of (perform a p))).
Proof.
  intros Hc Ha Hj Hb.
  assert (Hsame : (exists slot', answers (engine p) !! j = Some slot' /\ flag slot' = Some b)
                  /\ score (engine p) <= score (engine p)).
  { split; [now exists slot | lia]. }
  pose proof render_answers_score as Hrender.
  destruct a as [optionId | sourceId targetId | | now | now | now k sec];
    try discriminate Ha; cbn [perform].
  - cbn. unfold selectOption. now destruct (hasChecked _).
  - cbn. unfold dropOn. destruct (isComplete _); [exact Hsame |].
    destruct (questions (engine p) !! currentQuestionIndex (engine p)) as [[| |]|] eqn:Hq;
      try exact Hsame.
    destruct (_ && _)%bool; [| exact Hsame].
    unfold matchPair. rewrite Hq. cbn [isDragMatch score answers].
    destruct (hasChecked (engine p)); cbn [andb]; [| exact Hsame].
    destruct (answers (engine p) !! currentQuestionIndex (engine p)) as [[| | a0]|] eqn:Ea;
      try exact Hsame.
    split; [| lia].
    destruct (decide (currentQuestionIndex (engine p) = j)) as [<- | Hne].
    + rewrite list_lookup_insert_eq by (apply lookup_lt_is_Some; eauto).
      eexists. split; [reflexivity |]. cbn. rewrite Ea in Hj. injection Hj as <-. exact Hb.
    + rewrite list_lookup_insert_ne by exact Hne. now exists slot.
  - unfold checkAnswer. destruct (hasChecked (engine p)) eqn:Hchk; [exact Hsame |].
    destruct (questions (engine p) !! currentQuestionIndex (engine p)) as [q|] eqn:Hq;
      [| exact Hsame].
    cbn [state_of answers score engine].
    assert (Hnull : answers (engine p) !! currentQuestionIndex (engine p) = Some Null).
    { apply (pending _ Hc); [now right |]. apply (in_range _ Hc). }
    split; [| destruct (isCorrectFor q (engine p)); lia].
    destruct (decide (currentQuestionIndex (engine p) = j)) as [<- | Hne].
    + rewrite Hnull in Hj. injection Hj as <-. discriminate Hb.
    + unfold array_set. pose proof (slots _ Hc) as Hs. pose proof (in_range _ Hc) as Hr.
      destruct (Nat.ltb_spec (currentQuestionIndex (engine p)) (length (answers (engine p))));
        [| lia].
      rewrite list_lookup_insert_ne by exact Hne. now exists slot.
  - unfold nextQuestion. destruct (Z.leb _ _); [exact Hsame |].
    destruct (Hrender now (mkPage
      (mkQuizEngine (moduleId (engine p)) (questions (engine p)) (moduleTitle (engine p))
         (passingScore (engine p)) (S (currentQuestionIndex (engine p))) (answers (engine p))
         (score (engine p)) (isComplete (engine p)) None false None ∅)
      (progressManager p))) as [-> ->]. exact Hsame.
  - exact Hsame.
Qed.

(** X15. Until [retry] is called, whatever else is done, an answer once
    recorded stays recorded with the same correctness, and the score
    never decreases. *)
Theorem recorded_answers_stay (entry : ModuleEntry) (pm : option Progress.ProgressData)
    (before after : list Action) (j : nat) (a : Answer) :
  entryQuestions entry <> [] ->
  forallb (fun x => negb (isRetry x)) after = true ->
  let p := run before (start entry pm) in
  answers (engine p) !! j = Some (Recorded a) ->
  (exists a', answers (engine (run after p)) !! j = Some (Recorded a')
              /\ correct a' = correct a)
  /\ score (engine p) <= score (engine (run after p)).
Proof.
  intros Hne Hafter p Hj.
  pose proof (consistent_run before _ (consistent_start entry pm Hne)) as Hc. fold p in Hc.
  clearbody p. revert p a Hc Hj Hafter.
  induction after as [| x rest IH]; intros p a Hc Hj Hafter.
  - split; [now exists a | cbn; lia].
  - cbn [forallb] in Hafter. apply andb_prop in Hafter as [Hx Hrest].
    apply negb_true_iff in Hx.
    destruct (recorded_perform x p j (Recorded a) (correct a) Hc Hx Hj eq_refl)
      as [(slot' & Hj' & Hf) Hscore].
    destruct slot' as [| | a1]; try discriminate Hf. injection Hf as Hf.
    cbn [run foldl].
    destruct (IH (state_of (perform x p)) a1 (consistent_perform x p Hc) Hj' Hrest)
      as [(a' & Ha' & Hc') Hs'].
    split; [exists a'; split; [exact Ha' | congruence] | unfold run in *; lia].
Qed.

Lemma recorded_answers_stay_witness :
  let entry := Sample.quizOf None [Sample.choiceA; Sample.choiceB] in
  let p := run [ASelect "A"; ACheck] (start entry None) in
  let after := [ANext "t1"; ASelect "C"; ACheck; ANext "t2"] in
  (exists a', answers (engine (run after p)) !! 0%nat = Some (Recorded a')
              /\ correct a' = true)
  /\ score (engine p) <= score (engine (run after p)).
Proof.
  intros entry p after.
  apply (recorded_answers_stay entry None [ASelect "A"; ACheck] after 0
           (mkAnswer (SelOption (Some "A")) true)).
  - discriminate.
  - reflexivity.
  - vm_compute. reflexivity.
Defined.

(** *** Drag-match questions answered rightly *)






End Plays.

(** ** The page: shuffling, dragging, the counter *)

Section Shuffling.
Import Screen.
Context {A : Type}.

Lemma exchange_head (x y : A) (t : list A) (j : nat) :
  t !! j = Some y -> y :: <[j := x]> t ≡ₚ x :: t.
Proof.
  revert j. induction t as [| z t IH]; intros [| j] H; try discriminate H.
  - injection H as ->. cbn. apply Permutation_swap.
  - cbn in H |- *. rewrite (Permutation_swap z y). rewrite (IH j H). apply Permutation_swap.
Qed.

Lemma exchange_Permutation (l l' : list A) (i j : nat) :
  exchange l i j = Some l' -> l' ≡ₚ l.
Proof.
  unfold exchange. destruct (l !! i) as [x|] eqn:Ei; [| discriminate].
  destruct (l !! j) as [y|] eqn:Ej; [| discriminate]. intros H. injection H as <-.
  revert i j Ei Ej. induction l as [| z t IH]; intros [| i] [| j] Ei Ej;
    try discriminate Ei; try discriminate Ej; cbn in *.
  - injection Ei as ->. reflexivity.
  - injection Ei as ->. now apply exchange_head.
  - injection Ej as ->. now apply exchange_head.
  - apply Permutation_skip. now apply IH.
Qed.

Lemma exchange_Some (l : list A) (i j : nat) :
  (i < length l)%nat -> (j < length l)%nat ->
  exists l', exchange l i j = Some l' /\ length l' = length l.
Proof.
  intros Hi Hj. unfold exchange.
  destruct (lookup_lt_is_Some_2 l i Hi) as [x ->].
  destruct (lookup_lt_is_Some_2 l j Hj) as [y ->].
  eexists. split; [reflexivity |]. now rewrite !length_insert.
Qed.

Lemma draw_below (r : Q) (n : nat) :
  (0 <= r)%Q -> (r < 1)%Q ->
  (Z.to_nat (Qfloor (r * inject_Z (Z.of_nat (n + 1)))) < n + 1)%nat.
Proof.
  intros H0 H1.
  set (m := inject_Z (Z.of_nat (n + 1))).
  assert (Hm : (0 < m)%Q).
  { unfold m. change 0%Q with (inject_Z 0). rewrite <- Zlt_Qlt. lia. }
  pose proof (Qmult_lt_compat_r r 1 m Hm H1) as Hlt. rewrite Qmult_1_l in Hlt.
  assert (Hfl : Qfloor (r * m) < Z.of_nat (n + 1)).
  { rewrite Zlt_Qlt. eapply Qle_lt_trans; [apply Qfloor_le | exact Hlt]. }
  lia.
Qed.

Lemma shuffle_from_Permutation (random : nat -> Q) (i calls : nat) (l : list A) :
  (forall k, (0 <= random k)%Q /\ (random k < 1)%Q) ->
  (i < length l)%nat ->
  exists l', shuffle_from random calls i l = Some l' /\ l' ≡ₚ l.
Proof.
  intros Hr. revert calls l. induction i as [| i IH]; intros calls l Hi.
  - exists l. now split.
  - cbn [shuffle_from].
    destruct (Hr calls) as [H0 H1].
    pose proof (draw_below (random calls) (S i) H0 H1) as Hj.
    set (j := Z.to_nat (Qfloor (random calls * inject_Z (Z.of_nat (S i + 1))))) in *.
    assert (Hjl : (j < length l)%nat) by lia.
    destruct (exchange_Some l (S i) j Hi Hjl) as (l1 & E & Hlen).
    rewrite E.
    destruct (IH (S calls) l1 ltac:(lia)) as (l' & -> & Hp).
    exists l'. split; [reflexivity |].
    rewrite Hp. eapply exchange_Permutation, E.
Qed.

(** X17. Whatever [Math.random()] returns (in its range, from 0
    inclusive to 1 exclusive), [_shuffle] never reads past the end of the
    array and returns a rearrangement of its argument: the items of a
    drag-match question are all shown, each once. *)
Theorem shuffle_is_rearrangement (random : nat -> Q) (arr : list A) :
  (forall k, (0 <= random k)%Q /\ (random k < 1)%Q) ->
  exists shuffled, _shuffle random arr = Some shuffled /\ shuffled ≡ₚ arr.
Proof.
  intros Hr. unfold _shuffle. destruct arr as [| x rest].
  - exists []. now split.
  - apply shuffle_from_Permutation; [exact Hr | cbn; lia].
Qed.

End Shuffling.

Lemma shuffle_is_rearrangement_witness :
  exists shuffled,
    Screen._shuffle (fun _ => 1 # 2)%Q [ "s1"; "s2"; "s3" ] = Some shuffled
    /\ shuffled ≡ₚ [ "s1"; "s2"; "s3" ].
Proof.
  apply (shuffle_is_rearrangement (fun _ => 1 # 2)%Q [ "s1"; "s2"; "s3" ]).
  intros k. split; [unfold Qle | unfold Qlt]; cbn; lia.
Defined.

Section Dragging.
Import Quiz Session Play Screen.

Lemma matchPair_matched (s t : string) (e : QuizEngine) :
  matchedPairs (matchPair s t e) = <[s := t]> (matchedPairs e).
Proof. reflexivity. Qed.


Lemma onDragEnd_none (s : string) (r : Rect) (zones : list (string * Rect)) (e : QuizEngine) :
  overlapped r zones = [] -> onDragEnd s r zones e = e.
Proof.
  revert e. induction zones as [| [t z] rest IH]; intros e H; [reflexivity |].
  unfold overlapped in H. rewrite filter_cons in H. cbn [snd] in H.
  cbn [onDragEnd foldl snd fst].
  destruct (_isOverlapping r z) eqn:E.
  - rewrite decide_True in H by reflexivity. discriminate H.
  - rewrite decide_False in H by discriminate. now apply IH.
Qed.


End Dragging.

Section Counter.
Import Screen.

Lemma Math_round_Z (z : Z) : Math_round (inject_Z z) = z.
Proof.
  pose proof (Math_round_range (inject_Z z) z z) as H.
  assert (z <= Math_round (inject_Z z) <= z); [apply H; apply Qle_refl | lia].
Qed.

Lemma Qlt_bool_false (a b : Q) : Qlt_bool a b = false <-> (b <= a)%Q.
Proof.
  unfold Qlt_bool. rewrite negb_false_iff. apply Qle_bool_iff.
Qed.

Lemma Qlt_bool_true (a b : Q) : Qlt_bool a b = true <-> (a < b)%Q.
Proof.
  unfold Qlt_bool. rewrite negb_true_iff. split.
  - intros H. apply Qnot_le_lt. intros Hle. apply Qle_bool_iff in Hle. congruence.
  - intros H. destruct (Qle_bool b a) eqn:E; [| reflexivity].
    apply Qle_bool_iff in E. exfalso. now apply (Qlt_not_le a b).
Qed.

Lemma Math_min_le_1 (a : Q) : (Math_min a 1 <= 1)%Q.
Proof.
  unfold Math_min. destruct (Qle_bool a 1) eqn:E; [now apply Qle_bool_iff | apply Qle_refl].
Qed.

Lemma eased_bounds (p : Q) :
  (0 <= p)%Q -> (p <= 1)%Q ->
  (0 <= 1 - (1 - p) * (1 - p) * (1 - p))%Q /\ (1 - (1 - p) * (1 - p) * (1 - p) <= 1)%Q.
Proof.
  intros H0 H1. set (u := (1 - p)%Q).
  assert (Hu0 : (0 <= u)%Q) by (unfold u; lra).
  assert (Hu1 : (u <= 1)%Q) by (unfold u; lra).
  assert (Huu0 : (0 <= u * u)%Q) by now apply Qmult_le_0_compat.
  assert (Huu1 : (u * u <= 1 * 1)%Q) by now apply Qmult_le_compat_nonneg.
  assert (Huuu0 : (0 <= u * u * u)%Q) by now apply Qmult_le_0_compat.
  assert (Huuu1 : (u * u * u <= (1 * 1) * 1)%Q) by now apply Qmult_le_compat_nonneg.
  split; lra.
Qed.

Lemma step_final (startVal endVal : Z) (duration : Q) (startTime : option Q) (timestamp : Q) :
  snd (step startVal endVal duration startTime timestamp) = false ->
  snd (fst (step startVal endVal duration startTime timestamp)) = endVal.
Proof.
  unfold step. cbn [fst snd].
  set (progress := Math_min _ 1). intros H. apply Qlt_bool_false in H.
  pose proof (Math_min_le_1 ((timestamp -
    match startTime with
    | Some t => if Qeq_bool t 0 then timestamp else t
    | None => timestamp
    end) / duration)) as Hle. fold progress in Hle.
  assert (E : (progress == 1)%Q) by now apply Qle_antisym.
  rewrite (Math_round_proper _ (inject_Z endVal)); [apply Math_round_Z |].
  rewrite E. ring.
Qed.

Lemma step_between (startVal endVal : Z) (duration : Q) (startTime : option Q) (timestamp : Q) :
  (0 < duration)%Q -> startVal <= endVal ->
  (forall t, startTime = Some t -> Qeq_bool t 0 = false -> (t <= timestamp)%Q) ->
  startVal <= snd (fst (step startVal endVal duration startTime timestamp)) <= endVal.
Proof.
  intros Hd Hse Hst. unfold step. cbn [fst snd].
  set (start := match startTime with
                | Some t => if Qeq_bool t 0 then timestamp else t
                | None => timestamp
                end).
  assert (Hstart : (start <= timestamp)%Q).
  { unfold start. destruct startTime as [t|]; [| apply Qle_refl].
    destruct (Qeq_bool t 0) eqn:E; [apply Qle_refl | now apply Hst]. }
  assert (Hx : (0 <= (timestamp - start) / duration)%Q).
  { apply Qle_shift_div_l; [exact Hd | lra]. }
  destruct (Math_min_bounds _ Hx) as [Hp0 Hp1].
  set (progress := Math_min _ 1) in *.
  destruct (eased_bounds progress Hp0 Hp1) as [He0 He1].
  set (eased := (1 - (1 - progress) * (1 - progress) * (1 - progress))%Q) in *.
  assert (Hq : (inject_Z startVal <= inject_Z endVal)%Q) by now rewrite <- Zle_Qle.
  assert (Hm0 : (0 <= (inject_Z endVal - inject_Z startVal) * eased)%Q).
  { apply Qmult_le_0_compat; [lra | exact He0]. }
  assert (Hm1 : ((inject_Z endVal - inject_Z startVal) * eased
                 <= (inject_Z endVal - inject_Z startVal) * 1)%Q).
  { apply Qmult_le_compat_nonneg; split; try lra. }
  apply Math_round_range; lra.
Qed.

Lemma step_start (startVal endVal : Z) (duration : Q) (t timestamp : Q) :
  Qeq_bool t 0 = false ->
  fst (fst (step startVal endVal duration (Some t) timestamp)) = t.
Proof. intros H. unfold step. cbn. now rewrite H. Qed.

Lemma frames_between (startVal endVal : Z) (duration : Q) (stamps : list Q) :
  (0 < duration)%Q -> startVal <= endVal ->
  StronglySorted Qle stamps ->
  forall (startTime : option Q) (shown : Z),
    (forall t, startTime = Some t -> Qeq_bool t 0 = false -> Forall (Qle t) stamps) ->
    startVal <= shown <= endVal ->
    startVal <= fst (frames startVal endVal duration startTime shown stamps) <= endVal.
Proof.
  intros Hd Hse Hsorted. induction Hsorted as [| ts rest Hrest IH Hts];
    intros startTime shown Hst Hshown; [exact Hshown |].
  cbn [frames].
  pose proof (step_between startVal endVal duration startTime ts Hd Hse) as Hb.
  destruct (step startVal endVal duration startTime ts) as [[start current] again] eqn:E.
  cbn [fst snd] in Hb.
  assert (Hcur : startVal <= current <= endVal).
  { apply Hb. intros t Ht Hz. specialize (Hst t Ht Hz). now inversion Hst. }
  destruct again; [| exact Hcur].
  apply IH; [| exact Hcur].
  intros t Ht Hz. injection Ht as <-.
  assert (Es : start = fst (fst (step startVal endVal duration startTime ts))) by now rewrite E.
  unfold step in Es. cbn [fst] in Es.
  destruct startTime as [t0|].
  - destruct (Qeq_bool t0 0) eqn:E0.
    + subst start. exact Hts.
    + subst start. specialize (Hst t0 eq_refl E0). now inversion Hst.
  - subst start. exact Hts.
Qed.

Lemma frames_final (startVal endVal : Z) (duration : Q) (stamps : list Q) :
  forall (startTime : option Q) (shown : Z),
    snd (frames startVal endVal duration startTime shown stamps) = false ->
    fst (frames startVal endVal duration startTime shown stamps) = endVal.
Proof.
  induction stamps as [| ts rest IH]; intros startTime shown; [discriminate |].
  cbn [frames].
  pose proof (step_final startVal endVal duration startTime ts) as Hf.
  destruct (step startVal endVal duration startTime ts) as [[start current] again].
  cbn [fst snd] in Hf. destruct again; [apply IH | intros _; now apply Hf].
Qed.

Lemma frames_stop (startVal endVal : Z) (duration : Q) (t0 : Q) (stamps : list Q) :
  (0 < duration)%Q -> Qeq_bool t0 0 = false ->
  Exists (fun t => (t0 + duration <= t)%Q) stamps ->
  forall shown : Z,
    snd (frames startVal endVal duration (Some t0) shown stamps) = false.
Proof.
  intros Hd Hz Hex. induction Hex as [ts rest Hts | ts rest Hex IH]; intros shown.
  - cbn [frames]. unfold step. rewrite Hz.
    assert (Hp : (1 <= Math_min ((ts - t0) / duration) 1)%Q).
    { unfold Math_min. destruct (Qle_bool _ 1); [| apply Qle_refl].
      apply Qle_shift_div_l; [exact Hd | lra]. }
    apply Qlt_bool_false in Hp. rewrite Hp. reflexivity.
  - cbn [frames].
    pose proof (step_start startVal endVal duration t0 ts Hz) as Hs.
    destruct (step startVal endVal duration (Some t0) ts) as [[start current] again].
    cbn [fst] in Hs. subst start. destruct again; [apply IH | reflexivity].
Qed.

(** X21. With frames at increasing times, the score counter never shows
    a number outside the two it runs between, and when it stops asking
    for frames it shows the final one. *)
Theorem counter_stays_between (startVal endVal : Z) (duration : Q) (stamps : list Q) :
  (0 < duration)%Q -> startVal <= 0 <= endVal ->
  StronglySorted Qle stamps ->
  startVal <= fst (_animateCounter startVal endVal duration stamps) <= endVal
  /\ (snd (_animateCounter startVal endVal duration stamps) = false ->
      fst (_animateCounter startVal endVal duration stamps) = endVal).
Proof.
  intros Hd H0 Hsorted. unfold _animateCounter. split.
  - apply frames_between; try assumption; [lia |]. intros t Ht. discriminate Ht.
  - apply frames_final.
Qed.

Lemma counter_stays_between_witness :
  0 <= fst (_animateCounter 0 80 600 [ 1000; 1300; 1700 ]%Q) <= 80.
Proof.
  apply (counter_stays_between 0 80 600 [ 1000; 1300; 1700 ]%Q).
  - reflexivity.
  - lia.
  - repeat constructor; unfold Qle; cbn; lia.
Defined.

(** X22. Once a frame comes [duration] or more after the first one, the
    counter shows the final number and asks for no further frame. *)
Theorem counter_reaches_end (startVal endVal : Z) (duration : Q) (first : Q)
    (stamps : list Q) :
  (0 < duration)%Q -> ~ (first == 0)%Q ->
  Exists (fun t => (first + duration <= t)%Q) stamps ->
  _animateCounter startVal endVal duration (first :: stamps) = (endVal, false).
Proof.
  intros Hd Hz Hex.
  assert (Hstop : snd (_animateCounter startVal endVal duration (first :: stamps)) = false).
  { unfold _animateCounter. cbn [frames].
    assert (Hz' : Qeq_bool first 0 = false).
    { destruct (Qeq_bool first 0) eqn:E; [| reflexivity]. now apply Qeq_bool_iff in E. }
    unfold step.
    assert (Hp : Qlt_bool (Math_min ((first - first) / duration) 1) 1 = true).
    { apply Qlt_bool_true. unfold Math_min.
      assert (E : ((first - first) / duration == 0)%Q) by (field; lra).
      destruct (Qle_bool _ 1) eqn:Eb.
      - rewrite E. reflexivity.
      - exfalso. assert (Qle_bool ((first - first) / duration) 1 = true); [| congruence].
        apply Qle_bool_iff. rewrite E. discriminate. }
    rewrite Hp. now apply frames_stop. }
  pose proof (frames_final startVal endVal duration (first :: stamps) None 0 Hstop) as Hfin.
  unfold _animateCounter in *.
  destruct (frames startVal endVal duration None 0 (first :: stamps)) as [text again].
  cbn in Hstop, Hfin. now subst.
Qed.

Lemma counter_reaches_end_witness :
  _animateCounter 0 80 600 [ 1000; 1300; 1700 ]%Q = (80, false).
Proof.
  apply (counter_reaches_end 0 80 600 1000 [ 1300; 1700 ]%Q).
  - reflexivity.
  - discriminate.
  - apply Exists_cons_tl, Exists_cons_hd. unfold Qle. cbn. lia.
Defined.

End Counter.

(** ** The arrival of the quiz data *)

Section QuizData.
Import Quiz Session Loader.

Lemma findModule_first (before after : list ModuleEntry) (entry : ModuleEntry) (id : string) :
  Forall (fun m => entryModuleId m <> id) before ->
  entryModuleId entry = id ->
  findModule (before ++ entry :: after)%list id = Some entry.
Proof.
  intros Hbefore Hid. induction Hbefore as [| m rest Hm _ IH]; cbn.
  - now rewrite bool_decide_eq_true_2.
  - now rewrite bool_decide_eq_false_2.
Qed.

(** X23. When the quiz data arrive, the engine takes the first entry
    that bears its module id, whatever follows it, and the page is then
    at the start of a session on that entry: first question, nothing
    answered, score 0. *)
Theorem data_arrival_starts_session (now id : string)
    (before after : list ModuleEntry) (entry : ModuleEntry)
    (pm : option Progress.ProgressData) (hasContainer : bool) :
  Forall (fun m => entryModuleId m <> id) before ->
  entryModuleId entry = id ->
  dataArrived now (before ++ entry :: after)%list hasContainer (mkPage (new id) pm)
  = Done (start entry pm).
Proof.
  intros Hbefore Hid. unfold dataArrived. cbn [engine new moduleId].
  rewrite (findModule_first before after entry id Hbefore Hid).
  unfold start. rewrite Hid. destruct hasContainer; [| reflexivity].
  unfold render. cbn [engine progressManager loaded questions isComplete new
                      currentQuestionIndex].
  destruct (entryQuestions entry) as [| q rest]; [reflexivity |].
  cbn [length Nat.eqb lookup list_lookup]. now destruct (isDragMatch q).
Qed.

Lemma data_arrival_starts_session_witness :
  let other := mkModuleEntry "module2" "Infancy" None [Sample.falseQuestion] in
  let entry := Sample.quizOf (Some 80) [Sample.choiceA; Sample.choiceB] in
  let again := Sample.quizOf None [Sample.matchQuestion] in
  dataArrived "t0" [other; entry; again] true (mkPage (new "module1") None)
  = Done (start entry None).
Proof.
  intros other entry again.
  apply (data_arrival_starts_session "t0" "module1" [other] [again] entry None true).
  - apply Forall_cons; split; [discriminate | apply Forall_nil; exact I].
  - reflexivity.
Defined.

End QuizData.

(** ** Full progress *)

Section FullProgress.
Import Progress Updates.

Lemma wellFormed_applyAll (us : list Update) (d : ProgressData) :
  wellFormed d -> wellFormed (applyAll us d).
Proof.
  unfold applyAll. revert d. induction us as [| u rest IH]; intros d Hd; [exact Hd |].
  cbn [foldl]. apply IH. now apply wellFormed_apply.
Qed.

Lemma full_needs_pass (moduleId : string) (m : ModuleData) :
  Math_round (sectionProgress moduleId m * 70 + quizProgress m * 30) = 100 ->
  Entry.quizPassed m = true.
Proof.
  intros H100.
  assert (Hge : (inject_Z 100 <= sectionProgress moduleId m * 70 + quizProgress m * 30 + (1 # 2))%Q).
  { rewrite <- H100. apply Qfloor_le. }
  change (inject_Z 100) with 100%Q in Hge.
  pose proof (sectionProgress_bounds moduleId m) as Hsb.
  unfold Entry.quizPassed, quizProgress in *.
  destruct (quizScore m) as [sc|]; [| lra].
  destruct (Z.leb_spec 70 sc) as [| Hlt]; [reflexivity |].
  assert (Hsc : (inject_Z sc <= 69)%Q)
    by (change 69%Q with (inject_Z 69); rewrite <- Zle_Qle; lia).
  unfold Qdiv in Hge. change (/ 100)%Q with (1 # 100)%Q in Hge. lra.
Qed.

(** X24. After any sequence of updates of a fresh record, a module whose
    progress is 100 has the status [completed]: no badge reads
    "100% Complete". *)
Theorem full_progress_is_completed (t1 t2 : string) (us : list Update) (moduleId : string) :
  let d := applyAll us (createDefault t1 t2) in
  getModuleProgress d moduleId = 100 -> getModuleStatus d moduleId = Completed.
Proof.
  intros d H.
  pose proof (wellFormed_applyAll us _ (wellFormed_createDefault t1 t2)) as Hwf. fold d in Hwf.
  unfold getModuleProgress, getModuleStatus in *.
  destruct (modules d !! moduleId) as [m|] eqn:E; [| discriminate H].
  apply full_needs_pass in H.
  destruct (wf_entries d Hwf moduleId m E) as (_ & _ & _ & _ & Hpass). now apply Hpass.
Qed.

Lemma full_progress_is_completed_witness :
  let us := ((UMark "t1" "module1" <$> [ "a"; "b"; "c"; "d"; "e"; "f"; "g"; "h"; "i"; "j" ])
             ++ [ UScore "t2" "module1" 90 ])%list in
  getModuleStatus (applyAll us (createDefault "t0" "t0")) "module1" = Completed.
Proof.
  intros us. apply (full_progress_is_completed "t0" "t0" us "module1").
  vm_compute. reflexivity.
Defined.

End FullProgress.

(** ** The page and its controls *)

Section PageControls.
Import Quiz Session Screen Controls.

Lemma shuffle_from_Some_Permutation {A : Type} (random : nat -> Q) (i calls : nat)
    (l l' : list A) :
  shuffle_from random calls i l = Some l' -> l' ≡ₚ l.
Proof.
  revert calls l. induction i as [| i IH]; intros calls l H; cbn [shuffle_from] in H.
  - injection H as <-. reflexivity.
  - destruct (exchange l (S i) _) as [l1|] eqn:E; [| discriminate H].
    rewrite (IH _ _ H). now apply exchange_Permutation in E.
Qed.

Lemma shuffledSources_Permutation (random : nat -> Q) (sources : list (string * string)) :
  shuffledSources random sources ≡ₚ sources.
Proof.
  unfold shuffledSources, _shuffle.
  destruct (shuffle_from random 0 (length sources - 1) sources) as [l|] eqn:E; [| reflexivity].
  now apply shuffle_from_Some_Permutation in E.
Qed.

Lemma rendered_viewOf (env : Env) (q : Question) : rendered (viewOf env q).
Proof.
  destruct q as [t opts c x | t c x | t sources targets cp x]; cbn; unfold rendered; cbn.
  - auto.
  - auto.
  - split; [reflexivity |]. split.
    + rewrite <- list_fmap_compose. cbn.
      change ((fun s : string * string => fst (fst s, false)) <$> shuffledSources (random env) sources)
        with ((shuffledSources (random env) sources).*1).
      now rewrite shuffledSources_Permutation.
    + now rewrite <- list_fmap_compose.
Qed.

Lemma viewOf_shown (env : Env) (q : Question) : shown (viewOf env q) = q.
Proof. now destruct q. Qed.

Lemma viewOf_buttons (env : Env) (q : Question) :
  checkDisabled (viewOf env q) = true /\ checkHidden (viewOf env q) = false
  /\ nextHidden (viewOf env q) = true.
Proof. now destruct q. Qed.

Lemma steady_renderOn (env : Env) (b : Browser) :
  consistent (engine (page b)) -> steady (renderOn env b).
Proof.
  intros Hc. pose proof (consistent_render (now env) (page b) Hc) as Hc'.
  split; [exact Hc' |]. cbn [renderOn display page timers].
  pose proof (in_range _ Hc) as Hr.
  destruct (Nat.eqb_spec (length (questions (engine (page b)))) 0) as [E0 | _]; [lia |].
  destruct (isComplete (engine (page b))) eqn:Hdone; [exact I |].
  destruct (lookup_lt_is_Some_2 _ _ Hr) as [q Hq]. rewrite Hq.
  destruct (viewOf_buttons env q) as (Hd & Hh & Hn).
  unfold Quiz.render.
  destruct (Nat.eqb_spec (length (questions (engine (page b)))) 0) as [E0 | _]; [lia |].
  rewrite Hdone, Hq.
  constructor.
  - now rewrite Hh, Hn.
  - apply rendered_viewOf.
  - intros _. split.
    + rewrite viewOf_shown. destruct (isDragMatch q); cbn; exact Hq.
    + rewrite viewOf_shown. intros Hdrag. rewrite Hdrag. cbn. split.
      * intros s [t Ht]. now rewrite lookup_empty in Ht.
      * intros s Hs. discriminate Hs.
  - intros _ Hen. congruence.
  - intros Hv. congruence.
  - intros _. now destruct (isDragMatch q).
Qed.

Lemma consistent_onDragEnd (s : string) (r : Rect) (zones : list (string * Rect))
    (e : QuizEngine) :
  consistent e -> consistent (onDragEnd s r zones e).
Proof.
  revert e. induction zones as [| [t z] rest IH]; intros e H; [exact H |].
  cbn [onDragEnd foldl fst snd]. apply IH.
  destruct (_isOverlapping r z); [now apply consistent_matchPair | exact H].
Qed.

(** What a match leaves as it was, and what it adds. *)
Lemma matchPair_keeps (s t : string) (e : QuizEngine) :
  questions (matchPair s t e) = questions e
  /\ currentQuestionIndex (matchPair s t e) = currentQuestionIndex e
  /\ hasChecked (matchPair s t e) = hasChecked e
  /\ isComplete (matchPair s t e) = isComplete e
  /\ selectedOptionId (matchPair s t e) = selectedOptionId e
  /\ dragSelectedSource (matchPair s t e) = dragSelectedSource e
  /\ ((exists a, answers e !! currentQuestionIndex e = Some (Recorded a)) ->
      exists a, answers (matchPair s t e) !! currentQuestionIndex e = Some (Recorded a)).
Proof.
  repeat split; try reflexivity.
  intros [a Ha]. unfold matchPair. cbn [answers].
  destruct (hasChecked e && _)%bool; [| now exists a].
  rewrite Ha. eexists. apply list_lookup_insert_eq. apply lookup_lt_is_Some. eauto.
Qed.

Lemma size_insert_ge (m : gmap string string) (s t : string) :
  (size m <= size (<[s := t]> m))%nat.
Proof. rewrite map_size_insert. destruct (m !! s); cbn; lia. Qed.

Lemma onDragEnd_keeps (s : string) (r : Rect) (zones : list (string * Rect)) (e : QuizEngine) :
  questions (onDragEnd s r zones e) = questions e
  /\ currentQuestionIndex (onDragEnd s r zones e) = currentQuestionIndex e
  /\ hasChecked (onDragEnd s r zones e) = hasChecked e
  /\ isComplete (onDragEnd s r zones e) = isComplete e
  /\ selectedOptionId (onDragEnd s r zones e) = selectedOptionId e
  /\ dragSelectedSource (onDragEnd s r zones e) = dragSelectedSource e
  /\ ((exists a, answers e !! currentQuestionIndex e = Some (Recorded a)) ->
      exists a, answers (onDragEnd s r zones e) !! currentQuestionIndex e = Some (Recorded a))
  /\ (size (matchedPairs e) <= size (matchedPairs (onDragEnd s r zones e)))%nat
  /\ (forall k, is_Some (matchedPairs (onDragEnd s r zones e) !! k) ->
               k = s \/ is_Some (matchedPairs e !! k)).
Proof.
  revert e. induction zones as [| [t z] rest IH]; intros e.
  - cbn. repeat split; auto.
  - cbn [onDragEnd foldl fst snd]. destruct (_isOverlapping r z); [| apply IH].
    destruct (IH (matchPair s t e)) as (H1 & H2 & H3 & H4 & H5 & H6 & H7 & H8 & H9).
    destruct (matchPair_keeps s t e) as (K1 & K2 & K3 & K4 & K5 & K6 & K7).
    unfold onDragEnd in *.
    repeat split; try congruence.
    + intros Ha. rewrite <- K2. apply H7. rewrite K2. now apply K7.
    + etransitivity; [| exact H8]. apply size_insert_ge.
    + intros k Hk. destruct (H9 k Hk) as [-> | Hk']; [now left |].
      cbn in Hk'. destruct (decide (s = k)) as [-> | Hne]; [now left |].
      right. now rewrite lookup_insert_ne in Hk' by exact Hne.
Qed.

Lemma markFirst_ids (sourceId : string) (items : list (string * bool)) :
  (markFirst sourceId items).*1 = items.*1.
Proof.
  induction items as [| [id m] rest IH]; [reflexivity |].
  cbn [markFirst]. destruct (bool_decide (id = sourceId)); cbn; [reflexivity | now rewrite IH].
Qed.

Lemma insert_zone_ids (zones : list (string * bool)) (j : nat) (targetId : string)
    (m m' : bool) :
  zones !! j = Some (targetId, m) -> (<[j := (targetId, m')]> zones).*1 = zones.*1.
Proof.
  intros H. rewrite list_fmap_insert. cbn. apply list_insert_id.
  rewrite list_lookup_fmap, H. reflexivity.
Qed.

Lemma steady_option (i : nat) (optionId : string) (v : View) (b : Browser) :
  steady b -> display b = Showing v -> optionIds v !! i = Some optionId ->
  hasChecked (engine (page b)) = false ->
  steady (selectOptionOn optionId b).
Proof.
  intros [Hc Hv] Hd Hi Hchk. rewrite Hd in Hv.
  unfold selectOptionOn. rewrite Hchk. unfold onView, onPage, on_engine.
  cbn [page display timers engine]. rewrite Hd.
  split; [cbn; now apply consistent_selectOption |].
  cbn [display page engine timers].
  unfold Quiz.selectOption. rewrite Hchk.
  destruct Hv as [Hb Hl Hf Hr Hg Hu]. constructor; cbn.
  - exact Hb.
  - exact Hl.
  - intros Hh. destruct (Hf Hh) as [Hq Hm]. split; [exact Hq | exact Hm].
  - intros Hh _. unfold answered. cbn.
    destruct Hl as [Hopts Hrest].
    destruct (shown v) as [t opts c x | t c x | t sources targets cp x] eqn:Es.
    + exists optionId. split; [reflexivity | now apply list_elem_of_lookup_2 in Hi].
    + exists optionId. split; [reflexivity | now apply list_elem_of_lookup_2 in Hi].
    + cbn in Hopts. rewrite Hopts in Hi. discriminate Hi.
  - intros Hn Ht. destruct (Hg Hn Ht) as [Hx _]. congruence.
  - exact Hu.
Qed.

Lemma steady_check (v : View) (b : Browser) :
  steady b -> display b = Showing v ->
  checkDisabled v = false -> checkHidden v = false ->
  steady (checkAnswerOn b).
Proof.
  intros Hs Hd Hen Hvis. pose proof Hs as [Hc Hv]. rewrite Hd in Hv.
  unfold checkAnswerOn. destruct (hasChecked (engine (page b))) eqn:Hchk; [exact Hs |].
  pose proof (consistent_checkAnswer _ Hc) as Hc'.
  destruct Hv as [Hb Hl Hf Hr Hg Hu]. destruct (Hf Hvis) as [Hq Hm].
  unfold Quiz.checkAnswer in *. rewrite Hchk, Hq in *. cbn [state_of] in Hc'.
  unfold onView. cbn [page display timers]. rewrite Hd.
  split; [exact Hc' |]. cbn [display page engine timers].
  constructor; cbn.
  - reflexivity.
  - exact Hl.
  - discriminate.
  - discriminate.
  - intros _ _. split; [reflexivity |]. split; [exact Hq |].
    eexists. apply array_set_lookup.
  - exact Hu.
Qed.

Lemma consistent_advanced (e : QuizEngine) :
  consistent e ->
  Z.leb (Z.of_nat (length (questions e)) - 1) (Z.of_nat (currentQuestionIndex e)) = false ->
  consistent (advanced e).
Proof.
  intros [Hs Hr Hc Hp] Hmore. apply Z.leb_gt in Hmore.
  constructor; cbn.
  - exact Hs.
  - lia.
  - exact Hc.
  - intros j Hj Hlt. apply Hp; [left; lia | exact Hlt].
Qed.

Lemma consistent_finished (e : QuizEngine) : consistent e -> consistent (finished e).
Proof. intros [Hs Hr Hc Hp]. constructor; cbn; auto. Qed.

Lemma consistent_restarted (e : QuizEngine) : consistent e -> consistent (restarted e).
Proof.
  intros [Hs Hr Hc Hp]. constructor; cbn.
  - apply length_replicate.
  - lia.
  - now rewrite correctCount_replicate_Null.
  - intros j _ Hj. now apply lookup_replicate_2.
Qed.

Lemma steady_next (env : Env) (v : View) (b : Browser) :
  steady b -> display b = Showing v -> nextHidden v = false ->
  steady (nextQuestionOn env b).
Proof.
  intros [Hc Hv] Hd Hn. rewrite Hd in Hv.
  destruct Hv as [Hb Hl Hf Hr Hg Hu].
  assert (Hh : checkHidden v = true) by (rewrite Hn in Hb; now destruct (checkHidden v)).
  unfold nextQuestionOn.
  destruct (Z.leb _ _) eqn:Hlast; unfold _animateOut, onPage, on_engine;
    cbn [display page timers engine]; rewrite Hd; split; cbn [page engine display timers].
  - now apply consistent_finished.
  - constructor; try assumption; try (intros; congruence).
    + intros _ Ht. now destruct (timers b).
    + intros Ht. now destruct (timers b).
  - now apply consistent_advanced.
  - constructor; try assumption; try (intros; congruence).
    + intros _ Ht. now destruct (timers b).
    + intros Ht. now destruct (timers b).
Qed.

Lemma steady_retry (env : Env) (b : Browser) : steady b -> steady (retryOn env b).
Proof.
  intros [Hc _]. unfold retryOn. apply steady_renderOn. cbn. now apply consistent_restarted.
Qed.

Lemma steady_timeout (env : Env) (callback : Callback) (rest : list Callback) (b : Browser) :
  steady b -> timers b = callback :: rest ->
  steady (runCallback env callback (mkBrowser (page b) (display b) rest)).
Proof.
  intros [Hc _] _. destruct callback; cbn [runCallback].
  - now apply steady_renderOn.
  - split; [exact Hc | exact I].
Qed.

Lemma steady_source (i : nat) (v : View) (b : Browser) :
  steady b -> display b = Showing v -> steady (sourceHandler i v b).
Proof.
  intros Hs Hd. pose proof Hs as [Hc Hv]. rewrite Hd in Hv.
  unfold sourceHandler.
  destruct (dragItems v !! i) as [[sourceId matched]|] eqn:Hi; [| exact Hs].
  destruct (hasChecked (engine (page b))) eqn:Hchk; [exact Hs |].
  destruct matched; [exact Hs |].
  unfold onPage, on_engine. split; cbn [page engine display timers].
  - destruct Hc as [H1 H2 H3 H4]. constructor; cbn; auto.
  - rewrite Hd. destruct Hv as [Hb Hl Hf Hr Hg Hu]. constructor; cbn.
    + exact Hb.
    + exact Hl.
    + intros Hh. destruct (Hf Hh) as [Hq Hm]. split; [exact Hq |].
      intros Hdrag. destruct (Hm Hdrag) as [Hk _]. split; [exact Hk |].
      intros s Hsel. injection Hsel as <-.
      apply list_elem_of_fmap. exists (sourceId, false). split; [reflexivity |].
      now apply list_elem_of_lookup_2 in Hi.
    + exact Hr.
    + intros Hn Ht. destruct (Hg Hn Ht) as [Hx _]. congruence.
    + exact Hu.
Qed.

Lemma viewOk_enableCheck (e : QuizEngine) (pending : list Callback) (v : View) :
  viewOk e pending v -> answered e v -> viewOk e pending (enableCheck v).
Proof.
  intros [Hb Hl Hf Hr Hg Hu] Ha. constructor; cbn; auto.
Qed.

Lemma steady_readyCheck (v : View) (b : Browser) :
  steady b -> display b = Showing v -> steady (readyCheck (shown v) b).
Proof.
  intros Hs Hd. pose proof Hs as [Hc Hv]. rewrite Hd in Hv.
  unfold readyCheck.
  destruct (shown v) as [t opts c x | t c x | t sources targets cp x] eqn:Es; try exact Hs.
  destruct (_checkDragMatchReady sources (engine (page b))) eqn:Hready; [| exact Hs].
  unfold onView. split; cbn [page display timers]; [exact Hc |]. rewrite Hd.
  apply viewOk_enableCheck; [exact Hv |].
  unfold answered. rewrite Es. unfold _checkDragMatchReady in Hready.
  now apply bool_decide_eq_true in Hready.
Qed.

Lemma steady_target (j : nat) (v : View) (b : Browser) :
  steady b -> display b = Showing v -> steady (targetHandler j v b).
Proof.
  intros Hs Hd. pose proof Hs as [Hc Hv]. rewrite Hd in Hv.
  unfold targetHandler.
  destruct (dropZones v !! j) as [[targetId matched]|] eqn:Hj; [| exact Hs].
  destruct (hasChecked (engine (page b))) eqn:Hchk; [exact Hs |].
  destruct (dragSelectedSource (engine (page b))) as [sourceId|] eqn:Hsel; [| exact Hs].
  destruct (bool_decide (sourceId = "")); [exact Hs |].
  destruct matched; [exact Hs |].
  set (v' := mkView (shown v) (optionIds v) (markFirst sourceId (dragItems v))
               (<[j := (targetId, true)]> (dropZones v)) (matching v)
               (checkDisabled v) (checkHidden v) (nextHidden v)).
  change (shown v) with (shown v').
  apply steady_readyCheck; [| reflexivity].
  destruct (matchPair_keeps sourceId targetId (engine (page b)))
    as (K1 & K2 & K3 & K4 & K5 & K6 & K7).
  split; cbn [page engine display timers].
  - pose proof (consistent_matchPair sourceId targetId _ Hc) as [H1 H2 H3 H4].
    constructor; cbn; auto.
  - destruct Hv as [Hb Hl Hf Hr Hg Hu].
    constructor; unfold rendered, current, answered, checkedOff; subst v';
      cbn [shown optionIds dragItems dropZones matching checkDisabled checkHidden nextHidden
           questions currentQuestionIndex hasChecked isComplete answers matchedPairs
           dragSelectedSource selectedOptionId clearSource].
    + exact Hb.
    + destruct Hl as [Hopts Hrest]. split; [exact Hopts |].
      destruct (shown v) as [t opts c x | t c x | t sources targets cp x].
      * destruct Hrest as [_ Hz]. rewrite Hz in Hj. discriminate Hj.
      * destruct Hrest as [_ Hz]. rewrite Hz in Hj. discriminate Hj.
      * destruct Hrest as [Hi Hz]. rewrite markFirst_ids.
        now rewrite (insert_zone_ids _ _ _ _ _ Hj).
    + intros Hh. destruct (Hf Hh) as [Hq Hm]. split; [exact Hq |].
      intros Hdrag. destruct (Hm Hdrag) as [Hk Hsrc]. rewrite markFirst_ids. split.
      * intros s Hin. rewrite matchPair_matched in Hin.
        destruct (decide (sourceId = s)) as [<- | Hne].
        -- now apply Hsrc.
        -- rewrite lookup_insert_ne in Hin by exact Hne. now apply Hk.
      * intros s Hs'. discriminate Hs'.
    + intros Hh Hen. specialize (Hr Hh Hen). unfold answered in *. cbn.
      destruct (shown v) as [t opts c x | t c x | t sources targets cp x]; try exact Hr.
      etransitivity; [exact Hr | apply size_insert_ge].
    + intros Hn Ht. destruct (Hg Hn Ht) as [Hx _]. congruence.
    + exact Hu.
Qed.

Lemma steady_dragEnd (i : nat) (dragged : Rect) (rects : list Rect) (v : View) (b : Browser) :
  steady b -> display b = Showing v -> steady (dragEndHandler i dragged rects v b).
Proof.
  intros Hs Hd. pose proof Hs as [Hc Hv]. rewrite Hd in Hv.
  unfold dragEndHandler.
  destruct (dragItems v !! i) as [[sourceId matched]|] eqn:Hi; [| exact Hs].
  apply steady_readyCheck; [| exact Hd].
  set (zones := zip (dropZones v).*1 rects).
  destruct (onDragEnd_keeps sourceId dragged zones (engine (page b)))
    as (K1 & K2 & K3 & K4 & K5 & K6 & K7 & K8 & K9).
  unfold onPage, on_engine. split; cbn [page engine display timers].
  - now apply consistent_onDragEnd.
  - rewrite Hd. destruct Hv as [Hb Hl Hf Hr Hg Hu]. constructor.
    + exact Hb.
    + exact Hl.
    + intros Hh. destruct (Hf Hh) as [Hq Hm]. split; [now rewrite K1, K2 |].
      intros Hdrag. destruct (Hm Hdrag) as [Hk Hsrc]. split.
      * intros s Hin. destruct (K9 s Hin) as [-> | Hold]; [| now apply Hk].
        apply list_elem_of_fmap. exists (sourceId, matched). split; [reflexivity |].
        now apply list_elem_of_lookup_2 in Hi.
      * intros s Hs'. rewrite K6 in Hs'. now apply Hsrc.
    + intros Hh Hen. specialize (Hr Hh Hen). unfold answered in *.
      destruct (shown v) as [t opts c x | t c x | t sources targets cp x].
      * now rewrite K5.
      * now rewrite K5.
      * etransitivity; [exact Hr | exact K8].
    + intros Hn Ht. destruct (Hg Hn Ht) as (Hx & Hq & Ha). split; [congruence |].
      split; [now rewrite K1, K2 |]. rewrite K2. now apply K7.
    + intros Ht. rewrite K4. now apply Hu.
Qed.

Lemma steady_handle (env : Env) (event : Event) (b : Browser) :
  steady b -> steady (handle env event b).
Proof.
  intros Hs. unfold handle.
  destruct event as [i | | | | i | j | i dragged rects |];
    destruct (display b) as [| v |] eqn:Hd; try exact Hs.
  - destruct (optionIds v !! i) as [optionId|] eqn:Hi; [| exact Hs].
    destruct (hasChecked (engine (page b))) eqn:Hchk; [exact Hs |].
    now apply (steady_option i optionId v).
  - destruct (checkDisabled v) eqn:Hen; [exact Hs |].
    destruct (checkHidden v) eqn:Hh; [exact Hs |]. now apply (steady_check v).
  - destruct (nextHidden v) eqn:Hn; [exact Hs |]. now apply (steady_next env v).
  - now apply steady_retry.
  - destruct (matching v) as [[|]|]; try exact Hs. now apply steady_source.
  - destruct (matching v) as [[|]|]; try exact Hs. now apply steady_target.
  - destruct (matching v) as [[|]|]; try exact Hs. now apply steady_dragEnd.
  - destruct (timers b) as [| callback rest] eqn:Ht; [exact Hs |].
    rewrite <- Hd. now apply steady_timeout.
  - destruct (timers b) as [| callback rest] eqn:Ht; [exact Hs |].
    rewrite <- Hd. now apply steady_timeout.
  - destruct (timers b) as [| callback rest] eqn:Ht; [exact Hs |].
    rewrite <- Hd. now apply steady_timeout.
Qed.

Lemma steady_run (events : list (Env * Event)) (b : Browser) :
  steady b -> steady (Controls.run events b).
Proof.
  revert b. induction events as [| [env event] rest IH]; intros b Hs; [exact Hs |].
  cbn [Controls.run foldl]. apply IH. now apply steady_handle.
Qed.

Lemma steady_opened (env : Env) (entry : ModuleEntry) (pm : option Progress.ProgressData) :
  entryQuestions entry <> [] -> steady (opened env entry pm).
Proof.
  intros Hne. unfold opened. apply steady_renderOn. exact (consistent_start entry pm Hne).
Qed.

Lemma enough_matches (m : gmap string string) (ids : list string) :
  (forall s, is_Some (m !! s) -> s ∈ ids) ->
  (length ids <= size m)%nat ->
  NoDup ids /\ forall s, s ∈ ids -> is_Some (m !! s).
Proof.
  intros Hsrc Hlen. rewrite <- (length_map_to_list m) in Hlen.
  rewrite <- (length_fmap fst (map_to_list m)) in Hlen.
  set (keys := (map_to_list m).*1) in *.
  assert (Hnd : NoDup keys) by apply NoDup_fst_map_to_list.
  assert (Hkeys : forall s, s ∈ keys <-> is_Some (m !! s)).
  { intros s. unfold keys. rewrite list_elem_of_fmap. split.
    - intros ([s' t] & -> & Hin). apply elem_of_map_to_list in Hin. now exists t.
    - intros [t Ht]. exists (s, t). split; [reflexivity | now apply elem_of_map_to_list]. }
  assert (Hsub : keys ⊆+ ids).
  { apply NoDup_submseteq; [exact Hnd |]. intros s Hs. apply Hsrc. now apply Hkeys. }
  pose proof (submseteq_length_Permutation _ _ Hsub Hlen) as Hperm.
  split; [now rewrite <- Hperm |]. intros s Hs. apply Hkeys. now rewrite Hperm.
Qed.

(** X25. Whatever is done in the page, whenever the Check button can be
    pressed the question shown is the current one and it has an answer:
    an option of that question is selected, or, for a drag-match
    question, every item is matched (and no two items share an id). *)
Theorem check_button_needs_an_answer (env : Env) (entry : ModuleEntry)
    (pm : option Progress.ProgressData) (events : list (Env * Event)) (v : View) :
  entryQuestions entry <> [] ->
  let b := Controls.run events (opened env entry pm) in
  let e := engine (page b) in
  display b = Showing v -> checkDisabled v = false -> checkHidden v = false ->
  questions e !! currentQuestionIndex e = Some (shown v)
  /\ match shown v with
     | DragMatch _ sources _ _ _ =>
         NoDup sources.*1 /\ forall s, s ∈ sources.*1 -> is_Some (matchedPairs e !! s)
     | q => exists optionId,
              selectedOptionId e = Some optionId /\ optionId ∈ renderedOptions q
     end.
Proof.
  intros Hne b e Hd Hen Hvis.
  destruct (steady_run events _ (steady_opened env entry pm Hne)) as [Hc Hv].
  fold b in Hc, Hv. rewrite Hd in Hv. fold e in Hv.
  destruct Hv as [Hb [Hopts Hl] Hf Hr Hg Hu].
  destruct (Hf Hvis) as [Hq Hm]. specialize (Hr Hvis Hen).
  split; [exact Hq |]. unfold answered in Hr.
  destruct (shown v) as [t opts c x | t c x | t sources targets cp x] eqn:Es.
  - destruct Hr as (optionId & Hsel & Hin). exists optionId. now rewrite <- Hopts.
  - destruct Hr as (optionId & Hsel & Hin). exists optionId. now rewrite <- Hopts.
  - destruct (Hm eq_refl) as [Hk _]. destruct Hl as [Hperm _].
    apply enough_matches; [| now rewrite length_fmap].
    intros s Hs. rewrite <- Hperm. now apply Hk.
Qed.

Lemma check_button_needs_an_answer_witness :
  let env := mkEnv "t0" (mkWindow 1024 true) (fun _ => 0%Q) in
  let b := Controls.run [ (env, OnOption 1%nat) ]
             (opened env (Sample.quizOf None [Sample.choiceA; Sample.choiceB]) None) in
  exists optionId,
    selectedOptionId (engine (page b)) = Some optionId
    /\ optionId ∈ renderedOptions Sample.choiceA.
Proof.
  intros env b.
  destruct (check_button_needs_an_answer env
              (Sample.quizOf None [Sample.choiceA; Sample.choiceB]) None
              [ (env, OnOption 1%nat) ] (enableCheck (viewOf env Sample.choiceA)))
    as [_ H].
  - discriminate.
  - reflexivity.
  - reflexivity.
  - reflexivity.
  - exact H.
Defined.

(** X26. Whatever is done in the page, when no transition is pending
    the Next button can be pressed only once the question shown, which is
    the current one, has been checked and its answer recorded. *)
Theorem next_button_follows_check (env : Env) (entry : ModuleEntry)
    (pm : option Progress.ProgressData) (events : list (Env * Event)) (v : View) :
  entryQuestions entry <> [] ->
  let b := Controls.run events (opened env entry pm) in
  let e := engine (page b) in
  display b = Showing v -> nextHidden v = false -> timers b = [] ->
  hasChecked e = true
  /\ questions e !! currentQuestionIndex e = Some (shown v)
  /\ exists a, answers e !! currentQuestionIndex e = Some (Recorded a).
Proof.
  intros Hne b e Hd Hn Ht.
  destruct (steady_run events _ (steady_opened env entry pm Hne)) as [Hc Hv].
  fold b in Hc, Hv. rewrite Hd in Hv. fold e in Hv.
  exact (gated _ _ _ Hv Hn Ht).
Qed.

Lemma next_button_follows_check_witness :
  let env := mkEnv "t0" (mkWindow 1024 true) (fun _ => 0%Q) in
  let b := Controls.run [ (env, OnOption 1%nat); (env, OnCheck) ]
             (opened env (Sample.quizOf None [Sample.choiceA; Sample.choiceB]) None) in
  hasChecked (engine (page b)) = true.
Proof.
  intros env b.
  destruct (next_button_follows_check env
              (Sample.quizOf None [Sample.choiceA; Sample.choiceB]) None
              [ (env, OnOption 1%nat); (env, OnCheck) ]
              (swapButtons (enableCheck (viewOf env Sample.choiceA))))
    as [H _].
  - discriminate.
  - reflexivity.
  - reflexivity.
  - reflexivity.
  - exact H.
Defined.

Lemma renderOn_question (env : Env) (b : Browser) (q : Question) :
  questions (engine (page b)) !! currentQuestionIndex (engine (page b)) = Some q ->
  isComplete (engine (page b)) = false ->
  display (renderOn env b) = Showing (viewOf env q)
  /\ timers (renderOn env b) = timers b
  /\ questions (engine (page (renderOn env b))) = questions (engine (page b))
  /\ currentQuestionIndex (engine (page (renderOn env b)))
     = currentQuestionIndex (engine (page b))
  /\ isComplete (engine (page (renderOn env b))) = false
  /\ answers (engine (page (renderOn env b))) = answers (engine (page b)).
Proof.
  intros Hq Hdone. unfold renderOn, Quiz.render. cbn [display timers page].
  assert (Hlen : (currentQuestionIndex (engine (page b)) < length (questions (engine (page b))))%nat).
  { apply lookup_lt_is_Some. eauto. }
  destruct (Nat.eqb_spec (length (questions (engine (page b)))) 0) as [E0 | _]; [lia |].
  rewrite Hdone, Hq. destruct (isDragMatch q); cbn; repeat split; auto.
Qed.

Lemma handle_next_more (env : Env) (b : Browser) (v : View) :
  display b = Showing v -> nextHidden v = false ->
  Z.leb (Z.of_nat (length (questions (engine (page b)))) - 1)
        (Z.of_nat (currentQuestionIndex (engine (page b)))) = false ->
  handle env OnNext b
  = mkBrowser (mkPage (advanced (engine (page b))) (progressManager (page b)))
              (Showing v) (timers b ++ [RenderAgain])%list.
Proof.
  intros Hd Hn Hmore. unfold handle. rewrite Hd, Hn. unfold nextQuestionOn. rewrite Hmore.
  unfold _animateOut, onPage, on_engine. cbn [display page timers]. now rewrite Hd.
Qed.

Lemma handle_timeout (env : Env) (b : Browser) (callback : Callback) (rest : list Callback) :
  timers b = callback :: rest ->
  handle env OnTimeout b = runCallback env callback (mkBrowser (page b) (display b) rest).
Proof. intros Ht. unfold handle. rewrite Ht. now destruct (display b). Qed.

(** X27. Next pressed twice before the transition has run skips a
    question: the page then shows the question after the next one, and
    the one in between is left with no answer recorded. *)
Theorem hasty_next_skips_a_question (env : Env) (entry : ModuleEntry)
    (pm : option Progress.ProgressData) (events : list (Env * Event)) (v : View)
    (env1 env2 env3 env4 : Env) :
  entryQuestions entry <> [] ->
  let b := Controls.run events (opened env entry pm) in
  let e := engine (page b) in
  display b = Showing v -> nextHidden v = false -> timers b = [] ->
  (S (S (currentQuestionIndex e)) < length (questions e))%nat ->
  let b' := Controls.run [ (env1, OnNext); (env2, OnNext);
                           (env3, OnTimeout); (env4, OnTimeout) ] b in
  let e' := engine (page b') in
  currentQuestionIndex e' = S (S (currentQuestionIndex e))
  /\ answers e' !! S (currentQuestionIndex e) = Some Null
  /\ exists q, questions e' !! currentQuestionIndex e' = Some q
               /\ display b' = Showing (viewOf env4 q).
Proof.
  intros Hne b e Hd Hn Ht Hlen.
  destruct (steady_run events _ (steady_opened env entry pm Hne)) as [Hc Hv].
  fold b in Hc, Hv. rewrite Hd in Hv. fold e in Hc, Hv.
  pose proof (unfinished _ _ _ Hv Ht) as Hdone.
  assert (Hnull : answers e !! S (currentQuestionIndex e) = Some Null).
  { apply (pending _ Hc); [left; lia | lia]. }
  destruct (lookup_lt_is_Some_2 (questions e) (S (S (currentQuestionIndex e))) Hlen) as [q Hq].
  assert (H1 : Z.leb (Z.of_nat (length (questions e)) - 1)
                     (Z.of_nat (currentQuestionIndex e)) = false) by (apply Z.leb_gt; lia).
  assert (H2 : Z.leb (Z.of_nat (length (questions e)) - 1)
                     (Z.of_nat (S (currentQuestionIndex e))) = false) by (apply Z.leb_gt; lia).
  cbn [Controls.run foldl fst snd].
  rewrite (handle_next_more env1 b v Hd Hn H1).
  set (b1 := mkBrowser _ (Showing v) _).
  rewrite (handle_next_more env2 b1 v eq_refl Hn H2).
  set (b2 := mkBrowser _ (Showing v) _).
  assert (Ht2 : timers b2 = [RenderAgain; RenderAgain]) by (cbn; now rewrite Ht).
  rewrite (handle_timeout env3 b2 _ _ Ht2). cbn [runCallback].
  set (b3 := mkBrowser (page b2) (display b2) [RenderAgain]).
  destruct (renderOn_question env3 b3 q) as (D3 & T3 & Q3 & I3 & C3 & A3);
    [exact Hq | exact Hdone |].
  rewrite (handle_timeout env4 (renderOn env3 b3) _ _ T3). cbn [runCallback].
  set (b4 := mkBrowser (page (renderOn env3 b3)) (display (renderOn env3 b3)) []).
  destruct (renderOn_question env4 b4 q) as (D4 & T4 & Q4 & I4 & C4 & A4).
  { cbn [b4 page]. rewrite Q3, I3. exact Hq. }
  { exact C3. }
  cbn [b4 page] in Q4, I4, A4.
  split; [now rewrite I4, I3 |]. split; [now rewrite A4, A3 |].
  exists q. split; [| exact D4]. rewrite Q4, Q3, I4, I3. exact Hq.
Qed.

Lemma hasty_next_skips_a_question_witness :
  let env := mkEnv "t0" (mkWindow 1024 true) (fun _ => 0%Q) in
  let quiz := Sample.quizOf None [Sample.choiceA; Sample.choiceB; Sample.falseQuestion] in
  let b := Controls.run [ (env, OnOption 0%nat); (env, OnCheck) ] (opened env quiz None) in
  let b' := Controls.run [ (env, OnNext); (env, OnNext); (env, OnTimeout); (env, OnTimeout) ]
              b in
  currentQuestionIndex (engine (page b')) = S (S (currentQuestionIndex (engine (page b))))
  /\ answers (engine (page b')) !! S (currentQuestionIndex (engine (page b))) = Some Null.
Proof.
  intros env quiz b b'.
  destruct (hasty_next_skips_a_question env quiz None
              [ (env, OnOption 0%nat); (env, OnCheck) ]
              (swapButtons (enableCheck (viewOf env Sample.choiceA)))
              env env env env) as (Hi & Ha & _).
  - discriminate.
  - reflexivity.
  - reflexivity.
  - reflexivity.
  - cbn. lia.
  - exact (conj Hi Ha).
Defined.

(** X28. Whatever is done in the page, and whenever the pending
    transitions run, the engine keeps one answer slot per question, a
    current question, and a score that is the number of answers recorded
    as correct. *)
Theorem page_keeps_the_count (env : Env) (entry : ModuleEntry)
    (pm : option Progress.ProgressData) (events : list (Env * Event)) :
  entryQuestions entry <> [] ->
  let e := engine (page (Controls.run events (opened env entry pm))) in
  (currentQuestionIndex e < length (questions e))%nat
  /\ length (answers e) = length (questions e)
  /\ score e = Spec.correctCount (answers e)
  /\ 0 <= score e <= Z.of_nat (length (questions e)).
Proof.
  intros Hne e.
  destruct (steady_run events _ (steady_opened env entry pm Hne)) as [Hc _]. fold e in Hc.
  destruct Hc as [Hs Hr Hcnt Hp]. repeat split; try assumption.
  - rewrite Hcnt. apply correctCount_bounds.
  - rewrite Hcnt, <- Hs. apply correctCount_bounds.
Qed.

Lemma page_keeps_the_count_witness :
  let env := mkEnv "t0" (mkWindow 1024 true) (fun _ => 0%Q) in
  let e := engine (page (Controls.run [ (env, OnOption 0%nat); (env, OnCheck); (env, OnNext) ]
                           (opened env (Sample.quizOf None [Sample.choiceA; Sample.choiceB])
                                   None))) in
  score e = Spec.correctCount (answers e).
Proof.
  intros env e.
  destruct (page_keeps_the_count env (Sample.quizOf None [Sample.choiceA; Sample.choiceB]) None
              [ (env, OnOption 0%nat); (env, OnCheck); (env, OnNext) ]) as (_ & _ & H & _).
  - discriminate.
  - exact H.
Defined.

End PageControls.

(** ** Results and drag-match answers, in the page *)

Section PageResults.
Import Quiz Session Screen Controls.

Lemma sameQuiz_refl (e : QuizEngine) : sameQuiz e e.
Proof. now repeat split. Qed.

Lemma sameQuiz_trans (e1 e2 e3 : QuizEngine) :
  sameQuiz e1 e2 -> sameQuiz e2 e3 -> sameQuiz e1 e3.
Proof. intros (H1 & H2 & H3) (K1 & K2 & K3). repeat split; congruence. Qed.

Lemma sameQuiz_onDragEnd (s : string) (r : Rect) (zones : list (string * Rect))
    (e : QuizEngine) :
  sameQuiz e (onDragEnd s r zones e).
Proof.
  revert e. induction zones as [| [t z] rest IH]; intros e; [apply sameQuiz_refl |].
  cbn [onDragEnd foldl fst snd]. destruct (_isOverlapping r z); [| apply IH].
  eapply sameQuiz_trans; [| apply IH]. now repeat split.
Qed.

Lemma page_readyCheck (q : Question) (b : Browser) : page (readyCheck q b) = page b.
Proof.
  unfold readyCheck. destruct q as [| | t sources targets cp x]; try reflexivity.
  now destruct (_checkDragMatchReady sources (engine (page b))).
Qed.

Lemma sameQuiz_renderOn (env : Env) (b : Browser) :
  sameQuiz (engine (page b)) (engine (page (renderOn env b))).
Proof. apply sameQuiz_render. Qed.

Lemma sameQuiz_handle (env : Env) (event : Event) (b : Browser) :
  sameQuiz (engine (page b)) (engine (page (handle env event b))).
Proof.
  unfold handle.
  destruct event as [i | | | | i | j | i dragged rects |];
    destruct (display b) as [| v |] eqn:Hd; try apply sameQuiz_refl.
  - destruct (optionIds v !! i) as [optionId|]; [| apply sameQuiz_refl].
    destruct (hasChecked (engine (page b))) eqn:Hchk; [apply sameQuiz_refl |].
    unfold selectOptionOn. rewrite Hchk. cbn. unfold selectOption. rewrite Hchk.
    now repeat split.
  - destruct (checkDisabled v || checkHidden v)%bool; [apply sameQuiz_refl |].
    unfold checkAnswerOn. destruct (hasChecked (engine (page b))) eqn:Hchk;
      [apply sameQuiz_refl |].
    unfold checkAnswer. rewrite Hchk.
    destruct (questions (engine (page b)) !! currentQuestionIndex (engine (page b)));
      now repeat split.
  - destruct (nextHidden v); [apply sameQuiz_refl |].
    unfold nextQuestionOn, _animateOut, onPage, on_engine.
    destruct (Z.leb _ _); cbn [display]; rewrite Hd; now repeat split.
  - unfold retryOn. eapply sameQuiz_trans; [| apply sameQuiz_renderOn]. now repeat split.
  - destruct (matching v) as [[|]|]; try apply sameQuiz_refl.
    unfold sourceHandler. destruct (dragItems v !! i) as [[sourceId matched]|];
      [| apply sameQuiz_refl].
    destruct (hasChecked (engine (page b))); [apply sameQuiz_refl |].
    destruct matched; [apply sameQuiz_refl | now repeat split].
  - destruct (matching v) as [[|]|]; try apply sameQuiz_refl.
    unfold targetHandler. destruct (dropZones v !! j) as [[targetId matched]|];
      [| apply sameQuiz_refl].
    destruct (hasChecked (engine (page b))); [apply sameQuiz_refl |].
    destruct (dragSelectedSource (engine (page b))) as [sourceId|]; [| apply sameQuiz_refl].
    destruct (bool_decide (sourceId = "")); [apply sameQuiz_refl |].
    destruct matched; [apply sameQuiz_refl |].
    rewrite page_readyCheck. now repeat split.
  - destruct (matching v) as [[|]|]; try apply sameQuiz_refl.
    unfold dragEndHandler. destruct (dragItems v !! i) as [[sourceId matched]|];
      [| apply sameQuiz_refl].
    rewrite page_readyCheck. apply sameQuiz_onDragEnd.
  - destruct (timers b) as [| [|] rest]; try apply sameQuiz_refl.
    apply (sameQuiz_renderOn env (mkBrowser (page b) _ rest)).
  - destruct (timers b) as [| [|] rest]; try apply sameQuiz_refl.
    apply (sameQuiz_renderOn env (mkBrowser (page b) _ rest)).
  - destruct (timers b) as [| [|] rest]; try apply sameQuiz_refl.
    apply (sameQuiz_renderOn env (mkBrowser (page b) _ rest)).
Qed.

Lemma sameQuiz_page_run (events : list (Env * Event)) (b : Browser) :
  sameQuiz (engine (page b)) (engine (page (Controls.run events b))).
Proof.
  revert b. induction events as [| [env event] rest IH]; intros b; [apply sameQuiz_refl |].
  cbn [Controls.run foldl fst snd]. eapply sameQuiz_trans; [apply sameQuiz_handle |].
  apply IH.
Qed.

Lemma sameQuiz_opened (env : Env) (entry : ModuleEntry) (pm : option Progress.ProgressData)
    (events : list (Env * Event)) :
  let e := engine (page (Controls.run events (opened env entry pm))) in
  questions e = entryQuestions entry
  /\ passingScore e = match entryPassingScore entry with
                      | Some t => if Z.eqb t 0 then 70 else t
                      | None => 70
                      end
  /\ moduleId e = entryModuleId entry.
Proof.
  intros e.
  destruct (sameQuiz_page_run events (opened env entry pm)) as (H1 & H2 & H3).
  destruct (sameQuiz_renderOn env (mkBrowser (start entry pm) Skeleton [])) as (K1 & K2 & K3).
  fold e in H1, H2, H3. unfold opened in H1, H2, H3. cbn in K1, K2, K3.
  split; [exact (eq_trans H1 K1) |]. split; [exact (eq_trans H2 K2) | exact (eq_trans H3 K3)].
Qed.

(** *** The score percentage and the pass *)

(** C4, as stated, fails twice.  Of 40 questions answered through the
    page, 23 rightly, the percentage saved and shown is 57, where
    round(23 / 40 x 100) is 58: the session fails a threshold of 58.  And
    a module whose threshold is 0 gets the threshold 70: with one of two
    questions answered rightly the percentage is 50, above the module's
    threshold, and the session does not pass. *)
Lemma results_below_the_rounding :
  (let b := Controls.run (Scenario.answers 23 17)
              (opened Scenario.desktop (Scenario.copies (Some 58) 40)
                      (Some (Progress.createDefault "t0" "t0"))) in
   let e := engine (page b) in
   display b = Results
   /\ Spec.correctCount (answers e) = 23 /\ length (questions e) = 40%nat
   /\ Spec.scorePercentage 23 40 = 58
   /\ scorePercent e = 57
   /\ passingScore e = 58 /\ isPassing e = false
   /\ (Progress.quizScore <$>
         (Progress.modules <$> progressManager (page b)) ≫= (fun ms => ms !! "module1"))
      = Some (Some 57))
  /\ (let b := Controls.run Scenario.oneOfTwo
                 (opened Scenario.desktop
                         (Sample.quizOf (Some 0) [Sample.choiceA; Sample.choiceB]) None) in
      let e := engine (page b) in
      display b = Results
      /\ scorePercent e = 50 /\ passingScore e = 70 /\ isPassing e = false).
Proof. split; vm_compute; repeat split; reflexivity. Qed.

(** C4, amended.  In every state the page reaches on a loaded quiz of at
    most [Doubles.maxQuestions] questions (the results, once every
    question has been answered, among them) the score percentage
    [showResults] computes, [Math.round] of the binary64 product, is a
    percentage: the rounded share of the correct recorded answers among
    the questions, or, where that share lies half-way between two
    integers, possibly the integer below.  The session passes exactly when
    the percentage reaches the threshold, which is the module's, or 70
    when the module gives none or gives 0.  With two questions, one
    answered rightly and one wrongly, the percentage is 50, below a
    threshold of 70, and 50 is what the progress manager receives. *)
Theorem results_score_and_pass :
  (forall (env : Env) (entry : ModuleEntry) (pm : option Progress.ProgressData)
          (events : list (Env * Event)),
     entryQuestions entry <> [] ->
     (length (entryQuestions entry) <= Doubles.maxQuestions)%nat ->
     let e := engine (page (Controls.run events (opened env entry pm))) in
     let correct_count := Spec.correctCount (answers e) in
     let total_questions := Z.of_nat (length (entryQuestions entry)) in
     score e = correct_count
     /\ 0 <= scorePercent e <= 100
     /\ (scorePercent e = Spec.scorePercentage correct_count total_questions
         \/ Doubles.halfway correct_count total_questions = true
            /\ scorePercent e = Spec.scorePercentage correct_count total_questions - 1)
     /\ (isPassing e = true <-> passingScore e <= scorePercent e)
     /\ passingScore e = match entryPassingScore entry with
                         | Some t => if Z.eqb t 0 then 70 else t
                         | None => 70
                         end)
  /\ (let b := Controls.run Scenario.oneOfTwo
                 (opened Scenario.desktop
                         (Sample.quizOf (Some 70) [Sample.choiceA; Sample.choiceB])
                         (Some (Progress.createDefault "t0" "t0"))) in
      let e := engine (page b) in
      display b = Results
      /\ isComplete e = true
      /\ answers e
         = [ Recorded (mkAnswer (SelOption (Some "A")) true);
             Recorded (mkAnswer (SelOption (Some "C")) false) ]
      /\ scorePercent e = 50
      /\ isPassing e = false
      /\ (Progress.quizScore <$>
            (Progress.modules <$> progressManager (page b)) ≫= (fun ms => ms !! "module1"))
         = Some (Some 50)).
Proof.
  split.
  - intros env entry pm events Hne Hmax e correct_count total_questions.
    destruct (steady_run events _ (steady_opened env entry pm Hne)) as [Hc _].
    fold e in Hc.
    destruct (sameQuiz_opened env entry pm events) as (Hq & Hpass & _).
    fold e in Hq, Hpass.
    assert (Hlen : (length (questions e) <= Doubles.maxQuestions)%nat) by now rewrite Hq.
    destruct (scorePercent_near e Hc Hlen) as [Hrange Hnear].
    rewrite Hq in Hnear.
    split; [apply (counted _ Hc) |]. split; [exact Hrange |]. split; [exact Hnear |].
    split; [unfold isPassing; apply Z.leb_le | exact Hpass].
  - vm_compute. repeat split; reflexivity.
Qed.

Lemma results_score_and_pass_witness :
  let e := engine (page (Controls.run Scenario.oneOfTwo
                           (opened Scenario.desktop
                                   (Sample.quizOf None [Sample.choiceA; Sample.choiceB])
                                   None))) in
  0 <= scorePercent e <= 100 /\ passingScore e = 70.
Proof.
  intros e.
  destruct results_score_and_pass as [H _].
  destruct (H Scenario.desktop (Sample.quizOf None [Sample.choiceA; Sample.choiceB]) None
              Scenario.oneOfTwo) as (_ & Hr & _ & _ & Hp).
  - discriminate.
  - unfold Doubles.maxQuestions. cbn. lia.
  - split; [exact Hr | exact Hp].
Defined.

(** *** Drag-match answers *)




(** X20. Whenever the page shows a drag-match question with its Check
    button (not yet hidden by a check), the condition under which
    [_checkDragMatchReady] enables the button holds exactly when every
    item of the question is matched and no two items share an id: with
    two items of the same id the button is never enabled. *)
Theorem ready_means_every_source_matched (env : Env) (entry : ModuleEntry)
    (pm : option Progress.ProgressData) (events : list (Env * Event)) (v : View)
    (text explanation : string) (sources targets : list (string * string))
    (cp : gmap string string) :
  entryQuestions entry <> [] ->
  let b := Controls.run events (opened env entry pm) in
  let e := engine (page b) in
  display b = Showing v -> checkHidden v = false ->
  shown v = DragMatch text sources targets cp explanation ->
  _checkDragMatchReady sources e = true
  <-> NoDup sources.*1 /\ forall s, s ∈ sources.*1 -> is_Some (matchedPairs e !! s).
Proof.
  intros Hne b e Hd Hvis Hshown.
  destruct (steady_run events _ (steady_opened env entry pm Hne)) as [Hc Hv].
  fold b in Hc, Hv. rewrite Hd in Hv. fold e in Hc, Hv.
  destruct Hv as [Hb [Hopts Hl] Hf Hr Hg Hu].
  destruct (Hf Hvis) as [Hq Hm]. rewrite Hshown in Hm, Hl.
  destruct (Hm eq_refl) as [Hk _]. destruct Hl as [Hperm _].
  assert (Hsrc : forall s, is_Some (matchedPairs e !! s) -> s ∈ sources.*1).
  { intros s Hs. rewrite <- Hperm. now apply Hk. }
  unfold _checkDragMatchReady. rewrite bool_decide_eq_true. split.
  - intros Hlen. apply enough_matches; [exact Hsrc | now rewrite length_fmap].
  - intros [Hnd Hall].
    rewrite <- (length_map_to_list (matchedPairs e)).
    rewrite <- (length_fmap fst (map_to_list (matchedPairs e))).
    rewrite <- (length_fmap fst sources).
    apply submseteq_length, NoDup_submseteq; [exact Hnd |].
    intros s Hs. destruct (Hall s Hs) as [t Ht].
    apply list_elem_of_fmap. exists (s, t). split; [reflexivity |].
    now apply elem_of_map_to_list.
Qed.

Lemma ready_means_every_source_matched_witness :
  let b := Controls.run Scenario.oneWrongDrag
             (opened Scenario.desktop (Sample.quizOf None [Sample.matchQuestion]) None) in
  _checkDragMatchReady Sample.theorists (engine (page b)) = true
  <-> NoDup Sample.theorists.*1
      /\ forall s, s ∈ Sample.theorists.*1 -> is_Some (matchedPairs (engine (page b)) !! s).
Proof.
  intros b.
  apply (ready_means_every_source_matched Scenario.desktop
           (Sample.quizOf None [Sample.matchQuestion]) None Scenario.oneWrongDrag
           (enableCheck (viewOf Scenario.desktop Sample.matchQuestion))
           "Match each theorist with the idea"
           "Piaget described stages, Vygotsky the zone of proximal development."
           Sample.theorists Sample.ideas Sample.theoristIdeas).
  - discriminate.
  - vm_compute. reflexivity.
  - reflexivity.
  - reflexivity.
Defined.

End PageResults.
